(** * Stream resolution pipeline of NuvioMobile

    A shallow embedding of [src/services/youtubeExtractor.ts] and of the
    URL cache of [src/services/trailerService.ts], followed by the
    properties the specification states about them.

    Conventions of the embedding:
    - a JavaScript string is a [string]; one [ascii] stands for one code
      unit below 256;
    - an integral JavaScript number (itag, bitrate, height, timestamp)
      is a [Z]; the muxed score divides by 1000 and is a [Q], the exact
      value of the double the engine computes (the scores are multiples
      of 1/1000 below 2^17, far apart compared with the spacing of
      doubles, so the order of the doubles is the order of the
      rationals);
    - an optional field is an [option]; [undefined] is [None];
    - the platform (URL parser, network, file system) is a [Runtime]
      record; the effects of a call are threaded through a [World]. *)

From Stdlib Require Import List String Ascii ZArith QArith Bool Lia Lqa.
From Stdlib Require Import DecimalString.
Import ListNotations.

Local Open Scope string_scope.
Local Open Scope Z_scope.

(* ===================================================================== *)
(** ** JavaScript primitives used by the two services *)
(* ===================================================================== *)

Module JS.

(** The double quote (code 34) and the apostrophe (code 39). *)
Definition dquote : ascii := ascii_of_nat 34.
Definition apostrophe : ascii := ascii_of_nat 39.
Definition dq : string := String dquote "".

(** Truthiness of a string: only the empty string is falsy. *)
Definition truthy (s : string) : bool := negb (s =? "")%string.

(** Truthiness of an optional string: [undefined] and the empty
    string are falsy. *)
Definition truthy_opt (o : option string) : bool :=
  match o with
  | Some s => truthy s
  | None => false
  end.

(** [a || b] on strings. *)
Definition or_else (a : option string) (b : string) : string :=
  match a with
  | Some s => if truthy s then s else b
  | None => b
  end.

(** [a ?? d] on numbers. *)
Definition nullish (a : option Z) (d : Z) : Z :=
  match a with
  | Some z => z
  | None => d
  end.

(** [s.startsWith(p)]. *)
Definition startsWith (s p : string) : bool := String.prefix p s.

(** [s.endsWith(p)]. *)
Definition endsWith (s p : string) : bool :=
  let n := String.length s in
  let k := String.length p in
  (k <=? n)%nat && (substring (n - k) k s =? p)%string.

(** [s.includes(c)] for a one-character needle. *)
Fixpoint includes_char (c : ascii) (s : string) : bool :=
  match s with
  | EmptyString => false
  | String a r => (a =? c)%char || includes_char c r
  end.

(** White space and line terminators below code 256: TAB, LF, VT, FF,
    CR, SP and NBSP. *)
Definition is_space (c : ascii) : bool :=
  let n := nat_of_ascii c in
  ((9 <=? n) && (n <=? 13) || (n =? 32) || (n =? 160))%nat.

Fixpoint trimStart (s : string) : string :=
  match s with
  | EmptyString => EmptyString
  | String c r => if is_space c then trimStart r else s
  end.

Fixpoint trimEnd (s : string) : string :=
  match s with
  | EmptyString => EmptyString
  | String c r =>
      match trimEnd r with
      | EmptyString => if is_space c then EmptyString else String c EmptyString
      | r' => String c r'
      end
  end.

(** [s.trim()]. *)
Definition trim (s : string) : string := trimEnd (trimStart s).

(** [s.split(c)] for a one-character separator: never empty. *)
Fixpoint split (c : ascii) (s : string) : list string :=
  match s with
  | EmptyString => [EmptyString]
  | String a r =>
      if (a =? c)%char then EmptyString :: split c r
      else match split c r with
           | h :: t => String a h :: t
           | [] => [String a EmptyString]
           end
  end.

(** [s.replace(/c/g, by)] for a one-character pattern. *)
Fixpoint replaceAll (c : ascii) (by_ : string) (s : string) : string :=
  match s with
  | EmptyString => EmptyString
  | String a r =>
      if (a =? c)%char then by_ ++ replaceAll c by_ r
      else String a (replaceAll c by_ r)
  end.

(** An integer inside a template literal. *)
Definition show (z : Z) : string := NilZero.string_of_int (Z.to_int z).

(** [s.includes(needle)] for any needle. *)
Fixpoint includes (needle s : string) : bool :=
  String.prefix needle s
  || match s with
     | EmptyString => false
     | String _ r => includes needle r
     end.

(** [c.toLowerCase()] on one code unit below 256: the letters A-Z and
    the Latin-1 capitals (192-222 without the multiplication sign). *)
Definition lowerUnit (c : ascii) : ascii :=
  let n := nat_of_ascii c in
  if ((65 <=? n) && (n <=? 90)
      || (192 <=? n) && (n <=? 222) && negb (n =? 215))%nat
  then ascii_of_nat (n + 32) else c.

(** [s.toLowerCase()]. *)
Fixpoint toLowerCase (s : string) : string :=
  match s with
  | EmptyString => EmptyString
  | String c r => String (lowerUnit c) (toLowerCase r)
  end.

(** [Array.prototype.sort(cmp)]: ECMAScript requires a stable sort,
    and for a consistent comparator the result is the unique stable
    ordering, which insertion from the right computes. [cmp a b <= 0]
    keeps [a] before [b]. *)
Section Sort.
Context {A : Type} (cmp : A -> A -> Q).

Fixpoint insert (x : A) (l : list A) : list A :=
  match l with
  | [] => [x]
  | y :: ys => if Qle_bool (cmp x y) 0 then x :: l else y :: insert x ys
  end.

Definition sort (l : list A) : list A := fold_right insert [] l.
End Sort.

(** A [Map<string, V>]: iteration follows insertion order, [set] on a
    present key keeps its position, so the map is an association
    list without repeated keys. *)
Module Map.
Section Ops.
Context {V : Type}.

Fixpoint get (k : string) (m : list (string * V)) : option V :=
  match m with
  | [] => None
  | (k', v) :: r => if (k' =? k)%string then Some v else get k r
  end.

Fixpoint set (k : string) (v : V) (m : list (string * V)) : list (string * V) :=
  match m with
  | [] => [(k, v)]
  | (k', v') :: r =>
      if (k' =? k)%string then (k, v) :: r else (k', v') :: set k v r
  end.

Definition delete (k : string) (m : list (string * V)) : list (string * V) :=
  filter (fun kv => negb (fst kv =? k)%string) m.

Definition size (m : list (string * V)) : Z := Z.of_nat (List.length m).

(** [m.keys()], in insertion order. *)
Definition keys (m : list (string * V)) : list string := map fst m.

(** [m.keys().next().value]. *)
Definition first_key (m : list (string * V)) : option string := hd_error (keys m).
End Ops.
End Map.

End JS.

(* ===================================================================== *)
(** ** youtubeExtractor.ts *)
(* ===================================================================== *)

Module YouTubeExtractor.

(** [{ start: string; end: string }]. *)
Record Range := { range_start : string; range_end : string }.

(** [InnertubeFormat], with the fields the extractor reads. The code
    guards [bitrate] with [??] everywhere, so it is optional here. *)
Record InnertubeFormat := {
  itag : Z;
  url : option string;
  mimeType : string;
  bitrate : option Z;
  width : option Z;
  height : option Z;
  quality : string;
  qualityLabel : option string;
  audioQuality : option string;
  audioSampleRate : option string;
  initRange : option Range;
  indexRange : option Range
}.

Module Stream.
(** [ExtractedStream]. [url] is copied with a non-null assertion
    ([best.url!]), which checks nothing at run time. *)
Record ExtractedStream := {
  url : option string;
  quality : string;
  mimeType : string;
  itag : Z;
  hasAudio : bool;
  hasVideo : bool;
  bitrate : Z
}.
End Stream.
Abbreviation ExtractedStream := Stream.ExtractedStream.

(** *** Itag reference tables *)

Definition PREFERRED_MUXED_ITAGS : list Z := [22; 18; 59; 78].

Definition ADAPTIVE_VIDEO_ITAGS_RANKED : list Z :=
  [137; 248; 136; 247; 135; 244; 134; 243].

Definition ADAPTIVE_AUDIO_ITAGS_RANKED : list Z :=
  [141; 140; 251; 250; 249].

Definition REQUEST_TIMEOUT_MS : Z := 12000.

(** *** Helpers *)

(** [arr.indexOf(x)] as an option: [None] is -1. *)
Fixpoint indexOf (x : Z) (l : list Z) : option nat :=
  match l with
  | [] => None
  | y :: r => if y =? x then Some O
              else match indexOf x r with
                   | Some i => Some (S i)
                   | None => None
                   end
  end.

Definition isVideoMp4 (format : InnertubeFormat) : bool :=
  JS.startsWith (mimeType format) "video/mp4".

Definition formatQualityLabel (format : InnertubeFormat) : string :=
  JS.or_else (qualityLabel format) (JS.or_else (Some (quality format)) "unknown").

Definition itagBonus (i : Z) : Z :=
  match indexOf i PREFERRED_MUXED_ITAGS with
  | Some preferredIndex =>
      (Z.of_nat (List.length PREFERRED_MUXED_ITAGS) - Z.of_nat preferredIndex) * 10000
  | None => 0
  end.

Definition heightScore (format : InnertubeFormat) : Z :=
  Z.min (JS.nullish (height format) 0) 720 * 10.

Definition bitrateScore (format : InnertubeFormat) : Q :=
  (inject_Z (Z.min (JS.nullish (bitrate format) 0) 3000000) / inject_Z 1000)%Q.

Definition scoreFormat (format : InnertubeFormat) : Q :=
  (inject_Z (itagBonus (itag format)) + inject_Z (heightScore format)
   + bitrateScore format)%Q.

(** The comparator [(a, b) => (b.bitrate ?? 0) - (a.bitrate ?? 0)]. *)
Definition byBitrateDesc (a b : InnertubeFormat) : Q :=
  inject_Z (JS.nullish (bitrate b) 0 - JS.nullish (bitrate a) 0).

(** The comparator [(a, b) => scoreFormat(b) - scoreFormat(a)]. *)
Definition byScoreDesc (a b : InnertubeFormat) : Q :=
  (scoreFormat b - scoreFormat a)%Q.

(** *** Adaptive stream helpers *)

Definition isVideoOnly (f : InnertubeFormat) : bool :=
  JS.truthy_opt (url f) && JS.truthy_opt (qualityLabel f)
  && negb (JS.truthy_opt (audioQuality f))
  && JS.startsWith (mimeType f) "video/".

Definition isAudioOnly (f : InnertubeFormat) : bool :=
  JS.truthy_opt (url f) && JS.truthy_opt (audioQuality f)
  && negb (JS.truthy_opt (qualityLabel f))
  && JS.startsWith (mimeType f) "audio/".

(** The loop [for (const itag of RANKED) { const match = pool.find(..);
    if (match) return match; }]: [None] when it falls through. *)
Fixpoint firstRanked (ranked : list Z) (pool : list InnertubeFormat)
  : option InnertubeFormat :=
  match ranked with
  | [] => None
  | i :: rest =>
      match find (fun f => itag f =? i) pool with
      | Some m => Some m
      | None => firstRanked rest pool
      end
  end.

Definition pickBestAdaptiveVideo (adaptiveFormats : list InnertubeFormat)
  : option InnertubeFormat :=
  let videoOnly := filter isVideoOnly adaptiveFormats in
  if (List.length videoOnly =? 0)%nat then None
  else match firstRanked ADAPTIVE_VIDEO_ITAGS_RANKED videoOnly with
       | Some m => Some m
       | None => hd_error (JS.sort byBitrateDesc videoOnly)
       end.

Definition pickBestAdaptiveAudio (adaptiveFormats : list InnertubeFormat)
  : option InnertubeFormat :=
  let audioOnly := filter isAudioOnly adaptiveFormats in
  if (List.length audioOnly =? 0)%nat then None
  else match firstRanked ADAPTIVE_AUDIO_ITAGS_RANKED audioOnly with
       | Some m => Some m
       | None => hd_error (JS.sort byBitrateDesc audioOnly)
       end.

(** *** Regular expressions of the module, written out *)

(** The class [[A-Za-z0-9_-]]. *)
Definition isIdChar (c : ascii) : bool :=
  let n := nat_of_ascii c in
  ((65 <=? n) && (n <=? 90) || (97 <=? n) && (n <=? 122)
   || (48 <=? n) && (n <=? 57) || (n =? 95) || (n =? 45))%nat.

Fixpoint allIdChars (s : string) : bool :=
  match s with
  | EmptyString => true
  | String c r => isIdChar c && allIdChars r
  end.

(** [/^[A-Za-z0-9_-]{11}$/.test(s)]. *)
Definition isVideoIdPattern (s : string) : bool :=
  (String.length s =? 11)%nat && allIdChars s.

(** [[A-Za-z0-9_-]{11}] matched at the start of [s]: the captured
    group. *)
Definition takeId (s : string) : option string :=
  let id := substring 0 11 s in
  if isVideoIdPattern id then Some id else None.

(** [p] followed by [[A-Za-z0-9_-]{11}] at the start of [s]. *)
Definition idAfter (p s : string) : option string :=
  if String.prefix p s
  then takeId (substring (String.length p) (String.length s - String.length p) s)
  else None.

(** [/\/(embed|shorts|v)\/([A-Za-z0-9_-]{11})/] matched at the start of
    [s]: group 2. *)
Definition pathIdHere (s : string) : option string :=
  match idAfter "/embed/" s with
  | Some id => Some id
  | None =>
      match idAfter "/shorts/" s with
      | Some id => Some id
      | None => idAfter "/v/" s
      end
  end.

(** [/[?&]v=([A-Za-z0-9_-]{11})/] matched at the start of [s]:
    group 1. *)
Definition vParamHere (s : string) : option string :=
  match idAfter "?v=" s with
  | Some id => Some id
  | None => idAfter "&v=" s
  end.

(** [s.match(re)]: the leftmost position where [here] matches. *)
Fixpoint search (here : string -> option string) (s : string) : option string :=
  match here s with
  | Some id => Some id
  | None =>
      match s with
      | EmptyString => None
      | String _ r => search here r
      end
  end.

Definition lower (c : ascii) : ascii :=
  let n := nat_of_ascii c in
  if ((65 <=? n) && (n <=? 90))%nat then ascii_of_nat (n + 32) else c.

Fixpoint lowerString (s : string) : string :=
  match s with
  | EmptyString => EmptyString
  | String c r => String (lower c) (lowerString r)
  end.

Definition isQuote (c : ascii) : bool :=
  (c =? JS.dquote)%char || (c =? JS.apostrophe)%char.

(** What is left of [s] after a match of [/codecs=[quote]?/i] at its
    start, where [quote] is either quote character. *)
Definition codecsEqHere (s : string) : option string :=
  if (lowerString (substring 0 7 s) =? "codecs=")%string
  then match substring 7 (String.length s - 7) s with
       | String c r => if isQuote c then Some r else Some (String c r)
       | EmptyString => Some EmptyString
       end
  else None.

(** [s.replace(/codecs=[quote]?/i, '')]: the leftmost match is cut
    out. *)
Fixpoint removeCodecsEq (s : string) : string :=
  match codecsEqHere s with
  | Some rest => rest
  | None =>
      match s with
      | EmptyString => EmptyString
      | String c r => String c (removeCodecsEq r)
      end
  end.

(** [s.replace(/[quote]$/, '')]: a final quote character is cut. *)
Fixpoint removeFinalQuote (s : string) : string :=
  match s with
  | EmptyString => EmptyString
  | String c EmptyString => if isQuote c then EmptyString else s
  | String c r => String c (removeFinalQuote r)
  end.

(** *** Helpers, continued *)

(** The platform's [URL] object, with the members [extractVideoId]
    reads. [searchParams] lists the query pairs in order. *)
Record URL := {
  hostname : string;
  pathname : string;
  searchParams : list (string * string)
}.

(** [url.searchParams.get(name)]: the first value under [name]. *)
Definition searchParams_get (u : URL) (name : string) : option string :=
  JS.Map.get name (searchParams u).

(** [extractVideoId]. [new_URL] is the platform's [URL] constructor;
    [None] is its [TypeError]. The members of a parsed URL do not
    throw, so the [catch] block runs exactly when the constructor
    throws. *)
Definition extractVideoId (new_URL : string -> option URL) (input : string)
  : option string :=
  if negb (JS.truthy input) then None
  else if isVideoIdPattern (JS.trim input) then Some (JS.trim input)
  else
    match new_URL input with
    | Some url =>
        let id := hd "" (JS.split "/" (substring 1 (String.length (pathname url) - 1) (pathname url))) in
        if (hostname url =? "youtu.be")%string && JS.truthy id && isVideoIdPattern id
        then Some id
        else
          let v := searchParams_get url "v" in
          match v with
          | Some v' =>
              if JS.truthy v' && isVideoIdPattern v' then Some v'
              else search pathIdHere (pathname url)
          | None => search pathIdHere (pathname url)
          end
    | None => search vParamHere input
    end.

Record MimeType := { container : string; codecs : string }.

Definition parseMimeType (mimeType : string) : MimeType :=
  let parts := JS.split ";" mimeType in
  let base := hd "" parts in
  let codecsPart := nth_error parts 1 in
  {| container := JS.trim base;
     codecs :=
       if JS.truthy_opt codecsPart
       then JS.trim (removeFinalQuote (removeCodecsEq (JS.or_else codecsPart "")))
       else "" |}.

Definition isMuxedFormat (format : InnertubeFormat) : bool :=
  JS.includes_char "," (codecs (parseMimeType (mimeType format)))
  || (JS.truthy_opt (audioQuality format) && JS.truthy_opt (qualityLabel format)).

(** [pickBestMuxedStream(muxedFormats, adaptiveFormats = [])]. *)
Definition pickBestMuxedStream (muxedFormats adaptiveFormats : list InnertubeFormat)
  : option ExtractedStream :=
  if (0 <? List.length muxedFormats)%nat then
    let mp4Formats := filter isVideoMp4 muxedFormats in
    let pool := if (0 <? List.length mp4Formats)%nat then mp4Formats else muxedFormats in
    let sorted := JS.sort byScoreDesc pool in
    match sorted with
    | best :: _ =>
        Some {| Stream.url := url best;
                Stream.quality := formatQualityLabel best;
                Stream.mimeType := mimeType best;
                Stream.itag := itag best;
                Stream.hasAudio := JS.truthy_opt (audioQuality best) || isMuxedFormat best;
                Stream.hasVideo := JS.truthy_opt (qualityLabel best)
                                   || JS.startsWith (mimeType best) "video/";
                Stream.bitrate := JS.nullish (bitrate best) 0 |}
    | [] => None
    end
  else if (0 <? List.length adaptiveFormats)%nat then
    let videoAdaptive :=
      filter (fun f => JS.truthy_opt (url f) && JS.truthy_opt (qualityLabel f)
                       && JS.startsWith (mimeType f) "video/") adaptiveFormats in
    if (0 <? List.length videoAdaptive)%nat then
      let sorted := JS.sort byBitrateDesc videoAdaptive in
      match sorted with
      | best :: _ =>
          Some {| Stream.url := url best;
                  Stream.quality := formatQualityLabel best;
                  Stream.mimeType := mimeType best;
                  Stream.itag := itag best;
                  Stream.hasAudio := false;
                  Stream.hasVideo := true;
                  Stream.bitrate := JS.nullish (bitrate best) 0 |}
      | [] => None
      end
    else None
  else None.

(** *** Upstream response *)

Record InnertubeStreamingData := {
  formats : option (list InnertubeFormat);
  adaptiveFormats : option (list InnertubeFormat)
}.

Record VideoDetails := {
  details_videoId : string;
  title : string;
  lengthSeconds : string
}.

Record PlayabilityStatus := {
  status : string;
  reason : option string
}.

Record InnertubePlayerResponse := {
  streamingData : option InnertubeStreamingData;
  videoDetails : option VideoDetails;
  playabilityStatus : option PlayabilityStatus
}.

(** [parseInt(s, 10)]: leading white space, an optional sign, then the
    longest run of decimal digits; [NaN] without a digit. *)
Inductive number := Int (z : Z) | NaN.

Definition digitOf (c : ascii) : option Z :=
  let n := nat_of_ascii c in
  if ((48 <=? n) && (n <=? 57))%nat then Some (Z.of_nat (n - 48)) else None.

Fixpoint parseDigits (acc : option Z) (s : string) : option Z :=
  match s with
  | EmptyString => acc
  | String c r =>
      match digitOf c with
      | Some d => parseDigits (Some (10 * JS.nullish acc 0 + d)) r
      | None => acc
      end
  end.

Definition parseInt (s : string) : number :=
  let t := JS.trimStart s in
  let '(negative, digits) :=
    match t with
    | String "-" r => (true, r)
    | String "+" r => (false, r)
    | _ => (false, t)
    end in
  match parseDigits None digits with
  | Some n => Int (if negative then - n else n)
  | None => NaN
  end.

Definition showNumber (n : number) : string :=
  match n with
  | Int z => JS.show z
  | NaN => "NaN"
  end.

Record YouTubeExtractionResult := {
  streams : list ExtractedStream;
  bestStream : option ExtractedStream;
  videoId : string;
  result_title : option string;
  durationSeconds : option number
}.

(** *** The platform and the effects of a call *)

(** The four request contexts, by the constant that holds them. *)
Inductive ClientContext :=
| ANDROID_CLIENT_CONTEXT
| IOS_CLIENT_CONTEXT
| TVHTML5_EMBEDDED_CONTEXT
| WEB_EMBEDDED_CONTEXT.

Definition clientName (c : ClientContext) : string :=
  match c with
  | ANDROID_CLIENT_CONTEXT => "ANDROID"
  | IOS_CLIENT_CONTEXT => "IOS"
  | TVHTML5_EMBEDDED_CONTEXT => "TVHTML5_SIMPLY_EMBEDDED_PLAYER"
  | WEB_EMBEDDED_CONTEXT => "WEB_EMBEDDED_PLAYER"
  end.

(** One POST to the player endpoint: what varies between calls. *)
Record Request := {
  req_videoId : string;
  req_context : ClientContext;
  req_userAgent : string
}.

(** The answer of [fetch]: the promise rejects (transport error), the
    timer aborts the call ([AbortError]), or a response arrives. [body]
    is [None] when [response.json()] rejects or yields [null]; both
    make [fetchPlayerResponse] return [null]. *)
Record Response := {
  http_status : Z;
  body : option InnertubePlayerResponse
}.

Inductive FetchOutcome :=
| TransportError
| Aborted
| Responded (r : Response).

(** [response.ok]. *)
Definition ok (r : Response) : bool :=
  (200 <=? http_status r) && (http_status r <=? 299).

Inductive Platform := android | ios.

(** What the host provides. [fetch] may answer by the calls made
    before. [import_FileSystem] is whether the dynamic import of
    expo-file-system resolves; [writeAsStringAsync path text] whether
    the write resolves. *)
Record Runtime := {
  new_URL : string -> option URL;
  fetch : list Request -> Request -> FetchOutcome;
  import_FileSystem : bool;
  cacheDirectory : option string;
  writeAsStringAsync : string -> string -> bool
}.

(** The observable effects: the requests sent, oldest first, and the
    files written. *)
Record World := {
  sent : list Request;
  files : list (string * string)
}.

(** A statement completes normally or throws. *)
Inductive completion (A : Type) :=
| Normal (a : A)
| Thrown.
Arguments Normal {A} a.
Arguments Thrown {A}.

Definition Eff (A : Type) : Type := World -> completion A * World.

Definition ret {A} (a : A) : Eff A := fun w => (Normal a, w).

Definition throw {A} : Eff A := fun w => (Thrown, w).

Definition bind {A B} (m : Eff A) (k : A -> Eff B) : Eff B :=
  fun w =>
    match m w with
    | (Normal a, w') => k a w'
    | (Thrown, w') => (Thrown, w')
    end.

(** [try { m } catch { h }]. *)
Definition try_catch {A} (m : Eff A) (h : Eff A) : Eff A :=
  fun w =>
    match m w with
    | (Normal a, w') => (Normal a, w')
    | (Thrown, w') => h w'
    end.

Notation "x <- m ;; k" := (bind m (fun x => k))
  (at level 61, m at next level, right associativity).

(** [await fetch(...)]: the request is recorded, the promise settles
    as the network says. *)
Definition await_fetch (rt : Runtime) (req : Request) : Eff Response :=
  fun w =>
    let w' := {| sent := sent w ++ [req]; files := files w |} in
    match fetch rt (sent w) req with
    | Responded r => (Normal r, w')
    | TransportError | Aborted => (Thrown, w')
    end.

(** [await response.json()]. *)
Definition await_json (r : Response) : Eff (option InnertubePlayerResponse) :=
  match body r with
  | Some data => ret (Some data)
  | None => throw
  end.

(** [await FileSystem.writeAsStringAsync(path, text, ...)]. *)
Definition await_write (rt : Runtime) (path text : string) : Eff unit :=
  fun w =>
    if writeAsStringAsync rt path text
    then (Normal tt, {| sent := sent w; files := files w ++ [(path, text)] |})
    else (Thrown, w).

(** *** Core extractor *)

Definition fetchPlayerResponse (rt : Runtime) (videoId : string)
  (context : ClientContext) (userAgent : string)
  : Eff (option InnertubePlayerResponse) :=
  try_catch
    (response <- await_fetch rt {| req_videoId := videoId;
                                   req_context := context;
                                   req_userAgent := userAgent |} ;;
     if negb (ok response) then ret None
     else data <- await_json response ;; ret data)
    (ret None).

Definition orEmpty (l : option (list InnertubeFormat)) : list InnertubeFormat :=
  match l with
  | Some l' => l'
  | None => []
  end.

Definition parseMuxedFormats (playerResponse : InnertubePlayerResponse)
  : list InnertubeFormat :=
  match streamingData playerResponse with
  | None => []
  | Some sd =>
      filter (fun f => JS.truthy_opt (url f)) (orEmpty (formats sd))
      ++ filter (fun f => JS.truthy_opt (url f) && isMuxedFormat f)
           (orEmpty (adaptiveFormats sd))
  end.

Definition parseAdaptiveFormats (playerResponse : InnertubePlayerResponse)
  : list InnertubeFormat :=
  match streamingData playerResponse with
  | None => []
  | Some sd => filter (fun f => JS.truthy_opt (url f)) (orEmpty (adaptiveFormats sd))
  end.

(** *** Manifest *)

(** [escapeXml], local to [writeDashManifestToFile]. *)
Definition escapeXml (s : string) : string :=
  JS.replaceAll ">" "&gt;"
    (JS.replaceAll "<" "&lt;"
       (JS.replaceAll JS.dquote "&quot;"
          (JS.replaceAll "&" "&amp;" s))).

(** [a ?? d] on strings. *)
Definition nullishString (a : option string) (d : string) : string :=
  match a with
  | Some s => s
  | None => d
  end.

Definition number_or (a : option number) (d : Z) : number :=
  match a with
  | Some n => n
  | None => Int d
  end.

(** The range text: [start-end], or [0-0] without a range. *)
Definition rangeText (r : option Range) : string :=
  match r with
  | Some r' => range_start r' ++ "-" ++ range_end r'
  | None => "0-0"
  end.

Definition nl : string := String (ascii_of_nat 10) "".

(** One attribute: a space, the name, and the value in double
    quotes. *)
Definition attr (name value : string) : string :=
  " " ++ name ++ "=" ++ JS.dq ++ value ++ JS.dq.

(** The template literal [mpd], its holes as arguments. *)
Definition mpdTemplate
  (mediaDurationISO videoMime videoCodec width height videoBandwidth videoUrl
   vIndex vInit audioMime audioCodec audioBandwidth audioSampleRate audioUrl
   aIndex aInit : string) : string :=
  String.concat nl
    [ "<?xml" ++ attr "version" "1.0" ++ attr "encoding" "UTF-8" ++ "?>";
      "<MPD" ++ attr "xmlns" "urn:mpeg:dash:schema:mpd:2011" ++ attr "type" "static"
        ++ attr "mediaPresentationDuration" mediaDurationISO
        ++ attr "minBufferTime" "PT2S"
        ++ attr "profiles" "urn:mpeg:dash:profile:isoff-on-demand:2011" ++ ">";
      "  <Period" ++ attr "duration" mediaDurationISO ++ ">";
      "    <AdaptationSet" ++ attr "id" "1" ++ attr "mimeType" videoMime
        ++ attr "codecs" videoCodec ++ attr "width" width ++ attr "height" height
        ++ attr "subsegmentAlignment" "true" ++ attr "subsegmentStartsWithSAP" "1" ++ ">";
      "      <Representation" ++ attr "id" "v1" ++ attr "bandwidth" videoBandwidth
        ++ attr "width" width ++ attr "height" height ++ ">";
      "        <BaseURL>" ++ videoUrl ++ "</BaseURL>";
      "        <SegmentBase" ++ attr "indexRange" vIndex ++ ">";
      "          <Initialization" ++ attr "range" vInit ++ "/>";
      "        </SegmentBase>";
      "      </Representation>";
      "    </AdaptationSet>";
      "    <AdaptationSet" ++ attr "id" "2" ++ attr "mimeType" audioMime
        ++ attr "codecs" audioCodec ++ attr "lang" "en"
        ++ attr "subsegmentAlignment" "true" ++ attr "subsegmentStartsWithSAP" "1" ++ ">";
      "      <Representation" ++ attr "id" "a1" ++ attr "bandwidth" audioBandwidth
        ++ attr "audioSamplingRate" audioSampleRate ++ ">";
      "        <BaseURL>" ++ audioUrl ++ "</BaseURL>";
      "        <SegmentBase" ++ attr "indexRange" aIndex ++ ">";
      "          <Initialization" ++ attr "range" aInit ++ "/>";
      "        </SegmentBase>";
      "      </Representation>";
      "    </AdaptationSet>";
      "  </Period>";
      "</MPD>" ].

(** [await import('expo-file-system/legacy')]. *)
Definition await_import (rt : Runtime) : Eff unit :=
  if import_FileSystem rt then ret tt else throw.

(** [escapeXml(format.url!)]: calling [replace] on [undefined] is a
    [TypeError]. *)
Definition escapeXml_url (u : option string) : Eff string :=
  match u with
  | Some s => ret (escapeXml s)
  | None => throw
  end.

(** The manifest text for a pair of formats whose locators are already
    escaped. *)
Definition mpdOf (videoFormat audioFormat : InnertubeFormat)
  (durationSeconds : option number) (videoUrl audioUrl : string) : string :=
  let duration := number_or durationSeconds 300 in
  let mediaDurationISO := "PT" ++ showNumber duration ++ "S" in
  let videoCodec :=
    JS.trim (JS.replaceAll JS.dquote "" (codecs (parseMimeType (mimeType videoFormat)))) in
  let audioCodec :=
    JS.trim (JS.replaceAll JS.dquote "" (codecs (parseMimeType (mimeType audioFormat)))) in
  let videoMime := JS.trim (hd "" (JS.split ";" (mimeType videoFormat))) in
  let audioMime := JS.trim (hd "" (JS.split ";" (mimeType audioFormat))) in
  let width := JS.nullish (width videoFormat) 1920 in
  let height := JS.nullish (height videoFormat) 1080 in
  let videoBandwidth := JS.nullish (bitrate videoFormat) 2000000 in
  let audioBandwidth := JS.nullish (bitrate audioFormat) 128000 in
  let audioSampleRate := nullishString (audioSampleRate audioFormat) "44100" in
  let vInit := rangeText (initRange videoFormat) in
  let vIndex := rangeText (indexRange videoFormat) in
  let aInit := rangeText (initRange audioFormat) in
  let aIndex := rangeText (indexRange audioFormat) in
  mpdTemplate mediaDurationISO videoMime videoCodec (JS.show width) (JS.show height)
    (JS.show videoBandwidth) videoUrl vIndex vInit audioMime audioCodec
    (JS.show audioBandwidth) audioSampleRate audioUrl aIndex aInit.

Definition writeDashManifestToFile (rt : Runtime)
  (videoFormat audioFormat : InnertubeFormat) (videoId : string)
  (durationSeconds : option number) : Eff (option string) :=
  try_catch
    (_ <- await_import rt ;;
     match cacheDirectory rt with
     | None => ret None
     | Some cacheDir =>
         if negb (JS.truthy cacheDir) then ret None
         else
           videoUrl <- escapeXml_url (url videoFormat) ;;
           audioUrl <- escapeXml_url (url audioFormat) ;;
           let mpd := mpdOf videoFormat audioFormat durationSeconds videoUrl audioUrl in
           let filePath := cacheDir ++ "trailer_" ++ videoId ++ ".mpd" in
           _ <- await_write rt filePath mpd ;;
           ret (Some filePath)
     end)
    (ret None).

(** *** Public API *)

Record Client := {
  name : string;
  context : ClientContext;
  userAgent : string
}.

Definition clients : list Client :=
  [ {| name := "ANDROID";
       context := ANDROID_CLIENT_CONTEXT;
       userAgent := "com.google.android.youtube/19.09.37 (Linux; U; Android 11) gzip" |};
    {| name := "IOS";
       context := IOS_CLIENT_CONTEXT;
       userAgent := "com.google.ios.youtube/19.09.3 (iPhone14,3; U; CPU iPhone OS 15_6 like Mac OS X)" |};
    {| name := "TVHTML5_EMBEDDED";
       context := TVHTML5_EMBEDDED_CONTEXT;
       userAgent := "Mozilla/5.0 (SMART-TV; Linux; Tizen 6.0)" |};
    {| name := "WEB_EMBEDDED";
       context := WEB_EMBEDDED_CONTEXT;
       userAgent := "Mozilla/5.0 (Windows NT 10.0; Win64; x64) AppleWebKit/537.36 (KHTML, like Gecko) Chrome/127.0.0.0 Safari/537.36" |} ].

(** [resp.playabilityStatus?.status] is UNPLAYABLE or LOGIN_REQUIRED. *)
Definition blocked (resp : InnertubePlayerResponse) : bool :=
  match playabilityStatus resp with
  | Some ps => (status ps =? "UNPLAYABLE")%string || (status ps =? "LOGIN_REQUIRED")%string
  | None => false
  end.

(** The variables the client loop assigns: [muxedFormats],
    [adaptiveFormats] and [playerResponse]. *)
Definition LoopVars : Type :=
  (list InnertubeFormat * list InnertubeFormat * option InnertubePlayerResponse)%type.

(** [for (const client of clients) { ... }]: a [continue] is the
    recursive call, the [break] returns the assigned variables, and
    falling off the end leaves them as initialised. *)
Fixpoint tryClients (rt : Runtime) (videoId : string) (cs : list Client) : Eff LoopVars :=
  match cs with
  | [] => ret ([], [], None)
  | client :: rest =>
      resp <- fetchPlayerResponse rt videoId (context client) (userAgent client) ;;
      match resp with
      | None => tryClients rt videoId rest
      | Some resp =>
          if blocked resp then tryClients rt videoId rest
          else
            let muxed := parseMuxedFormats resp in
            let adaptive := parseAdaptiveFormats resp in
            if (0 <? List.length muxed)%nat || (0 <? List.length adaptive)%nat
            then ret (muxed, adaptive, Some resp)
            else tryClients rt videoId rest
      end
  end.

(** The Android branch of [extract]: the manifest stream, or [null]
    when the branch leaves [bestStream] unset. *)
Definition tryDash (rt : Runtime) (platform : option Platform) (videoId : string)
  (adaptiveFormats : list InnertubeFormat) (durationSeconds : option number)
  : Eff (option ExtractedStream) :=
  match platform with
  | Some android =>
      if (0 <? List.length adaptiveFormats)%nat then
        let bestVideo := pickBestAdaptiveVideo adaptiveFormats in
        let bestAudio := pickBestAdaptiveAudio adaptiveFormats in
        match bestVideo, bestAudio with
        | Some bestVideo, Some bestAudio =>
            mpdFilePath <- writeDashManifestToFile rt bestVideo bestAudio videoId
                             durationSeconds ;;
            if JS.truthy_opt mpdFilePath then
              ret (Some {| Stream.url := mpdFilePath;
                           Stream.quality := formatQualityLabel bestVideo;
                           Stream.mimeType := "application/dash+xml";
                           Stream.itag := itag bestVideo;
                           Stream.hasAudio := true;
                           Stream.hasVideo := true;
                           Stream.bitrate := JS.nullish (bitrate bestVideo) 0
                                             + JS.nullish (bitrate bestAudio) 0 |})
            else ret None
        | _, _ => ret None
        end
      else ret None
  | _ => ret None
  end.

Definition extract (rt : Runtime) (videoIdOrUrl : string) (platform : option Platform)
  : Eff (option YouTubeExtractionResult) :=
  match extractVideoId (new_URL rt) videoIdOrUrl with
  | None => ret None
  | Some videoId =>
      vars <- tryClients rt videoId clients ;;
      let '(muxedFormats, adaptiveFormats, playerResponse) := vars in
      if (List.length muxedFormats =? 0)%nat && (List.length adaptiveFormats =? 0)%nat
      then ret None
      else
        let details :=
          match playerResponse with
          | Some r => videoDetails r
          | None => None
          end in
        let durationSeconds :=
          match details with
          | Some d => if JS.truthy (lengthSeconds d)
                      then Some (parseInt (lengthSeconds d)) else None
          | None => None
          end in
        dash <- tryDash rt platform videoId adaptiveFormats durationSeconds ;;
        let bestStream :=
          match dash with
          | Some s => Some s
          | None => pickBestMuxedStream muxedFormats adaptiveFormats
          end in
        let streams :=
          map (fun f =>
                 {| Stream.url := url f;
                    Stream.quality := formatQualityLabel f;
                    Stream.mimeType := mimeType f;
                    Stream.itag := itag f;
                    Stream.hasAudio := JS.truthy_opt (audioQuality f) || isMuxedFormat f;
                    Stream.hasVideo := JS.truthy_opt (qualityLabel f)
                                       || JS.startsWith (mimeType f) "video/";
                    Stream.bitrate := JS.nullish (bitrate f) 0 |})
              muxedFormats in
        ret (Some {| streams := streams;
                     bestStream := bestStream;
                     videoId := videoId;
                     result_title := option_map title details;
                     durationSeconds := durationSeconds |})
  end.

(** [result?.bestStream?.url ?? null]. *)
Definition getBestStreamUrl (rt : Runtime) (videoIdOrUrl : string)
  (platform : option Platform) : Eff (option string) :=
  result <- extract rt videoIdOrUrl platform ;;
  ret (match result with
       | Some r =>
           match bestStream r with
           | Some s => Stream.url s
           | None => None
           end
       | None => None
       end).

Definition parseVideoId (rt : Runtime) (input : string) : option string :=
  extractVideoId (new_URL rt) input.

End YouTubeExtractor.

(* ===================================================================== *)
(** ** trailerService.ts: the URL cache *)
(* ===================================================================== *)

Module TrailerService.

Record CacheEntry := {
  url : string;
  expiresAt : Z
}.

(** [5 * 60 * 60 * 1000]. *)
Definition CACHE_TTL_MS : Z := 5 * 60 * 60 * 1000.

(** The static [urlCache]. *)
Definition Cache : Type := list (string * CacheEntry).

(** [getCached(key)] at time [now] ([Date.now()]): the value returned
    and the cache afterwards. *)
Definition getCached (now : Z) (key : string) (urlCache : Cache)
  : option string * Cache :=
  match JS.Map.get key urlCache with
  | None => (None, urlCache)
  | Some entry =>
      if now >? expiresAt entry then (None, JS.Map.delete key urlCache)
      else if JS.endsWith (url entry) ".mpd" then (None, JS.Map.delete key urlCache)
      else (Some (url entry), urlCache)
  end.

(** [setCache(key, url)] at time [now]. *)
Definition setCache (now : Z) (key url : string) (urlCache : Cache) : Cache :=
  let urlCache := JS.Map.set key {| url := url; expiresAt := now + CACHE_TTL_MS |} urlCache in
  if JS.Map.size urlCache >? 100 then
    match JS.Map.first_key urlCache with
    | Some oldest => if JS.truthy oldest then JS.Map.delete oldest urlCache else urlCache
    | None => urlCache
    end
  else urlCache.

(** *** The remote server and the host *)

(** [process.env]: the three variables the class reads. *)
Record Env := {
  EXPO_PUBLIC_TRAILER_LOCAL_BASE : option string;
  EXPO_PUBLIC_TRAILER_LOCAL_TRAILER_PATH : option string;
  EXPO_PUBLIC_TRAILER_LOCAL_SEARCH_PATH : option string
}.

Definition ENV_LOCAL_BASE (env : Env) : string :=
  JS.or_else (EXPO_PUBLIC_TRAILER_LOCAL_BASE env) "http://46.62.173.157:3001".

Definition ENV_LOCAL_TRAILER_PATH (env : Env) : string :=
  JS.or_else (EXPO_PUBLIC_TRAILER_LOCAL_TRAILER_PATH env) "/trailer".

Definition ENV_LOCAL_SEARCH_PATH (env : Env) : string :=
  JS.or_else (EXPO_PUBLIC_TRAILER_LOCAL_SEARCH_PATH env) "/search-trailer".

Definition LOCAL_SERVER_URL (env : Env) : string :=
  (ENV_LOCAL_BASE env ++ ENV_LOCAL_TRAILER_PATH env)%string.

Definition AUTO_SEARCH_URL (env : Env) : string :=
  (ENV_LOCAL_BASE env ++ ENV_LOCAL_SEARCH_PATH env)%string.

Definition SERVER_TIMEOUT : Z := 20000.

(** The members of a parsed [URL] that [isValidTrailerUrl] reads. *)
Record Link := {
  protocol : string;
  link_hostname : string;
  link_pathname : string
}.

(** The body of a server answer: [data.url], absent or a string. *)
Record ServerData := { data_url : option string }.

(** A server answer. [server_json] is [None] when [res.json()] rejects
    or yields [null]; reading [data.url] then throws, and both end in
    the [catch] block. *)
Record ServerResponse := {
  server_status : Z;
  server_json : option ServerData
}.

(** The promise of [fetch] rejects, the timer aborts the call after
    [SERVER_TIMEOUT], or an answer arrives. *)
Inductive ServerOutcome :=
| ServerRejected
| ServerAborted
| ServerAnswered (r : ServerResponse).

(** [res.ok]. *)
Definition server_ok (r : ServerResponse) : bool :=
  (200 <=? server_status r) && (server_status r <=? 299).

(** What the host provides to the service: the extractor's runtime,
    [Platform.OS], the environment, the serialisation of
    [URLSearchParams], the [URL] constructor ([None] is its
    [TypeError]), the server (which may answer by the requests made
    before) and the clock ([Date_now n] is the value of the reading
    number [n] of [Date.now()]). *)
Record Host := {
  extractor : YouTubeExtractor.Runtime;
  Platform_OS : string;
  env : Env;
  URLSearchParams_toString : list (string * string) -> string;
  new_Link : string -> option Link;
  server : list string -> string -> ServerOutcome;
  Date_now : nat -> Z
}.

(** The state a call works on: the static [urlCache], the effects of
    the extractor, the addresses requested from the server, oldest
    first, and the number of clock readings so far. *)
Record Service := {
  urlCache : Cache;
  world : YouTubeExtractor.World;
  requested : list string;
  readings : nat
}.

Definition Svc (A : Type) : Type :=
  Service -> YouTubeExtractor.completion A * Service.

Definition pure {A} (a : A) : Svc A := fun s => (YouTubeExtractor.Normal a, s).

Definition raise {A} : Svc A := fun s => (YouTubeExtractor.Thrown, s).

Definition andThen {A B} (m : Svc A) (k : A -> Svc B) : Svc B :=
  fun s =>
    match m s with
    | (YouTubeExtractor.Normal a, s') => k a s'
    | (YouTubeExtractor.Thrown, s') => (YouTubeExtractor.Thrown, s')
    end.

(** [try { m } catch { h }]. *)
Definition attempt {A} (m : Svc A) (h : Svc A) : Svc A :=
  fun s =>
    match m s with
    | (YouTubeExtractor.Normal a, s') => (YouTubeExtractor.Normal a, s')
    | (YouTubeExtractor.Thrown, s') => h s'
    end.

Notation "x <~ m ;; k" := (andThen m (fun x => k))
  (at level 61, m at next level, right associativity).

(** [this.getCached(key)] on the static cache. The clock is read only
    when the key has an entry. *)
Definition this_getCached (h : Host) (key : string) : Svc (option string) :=
  fun s =>
    let '(found, cache) := getCached (Date_now h (readings s)) key (urlCache s) in
    (YouTubeExtractor.Normal found,
     {| urlCache := cache; world := world s; requested := requested s;
        readings := match JS.Map.get key (urlCache s) with
                    | Some _ => S (readings s)
                    | None => readings s
                    end |}).

(** [this.setCache(key, url)] on the static cache. *)
Definition this_setCache (h : Host) (key url : string) : Svc unit :=
  fun s =>
    (YouTubeExtractor.Normal tt,
     {| urlCache := setCache (Date_now h (readings s)) key url (urlCache s);
        world := world s; requested := requested s;
        readings := S (readings s) |}).

(** [await YouTubeExtractor.getBestStreamUrl(id, platform)]. *)
Definition await_getBestStreamUrl (h : Host) (videoIdOrUrl : string)
  (platform : YouTubeExtractor.Platform) : Svc (option string) :=
  fun s =>
    let '(outcome, w) :=
      YouTubeExtractor.getBestStreamUrl (extractor h) videoIdOrUrl (Some platform) (world s) in
    (outcome,
     {| urlCache := urlCache s; world := w; requested := requested s;
        readings := readings s |}).

(** [await fetch(url, ...)] to the server: the address is recorded,
    the promise settles as the server says. *)
Definition await_fetch (h : Host) (url : string) : Svc ServerResponse :=
  fun s =>
    let s' := {| urlCache := urlCache s; world := world s;
                 requested := requested s ++ [url]; readings := readings s |} in
    match server h (requested s) url with
    | ServerAnswered r => (YouTubeExtractor.Normal r, s')
    | ServerRejected | ServerAborted => (YouTubeExtractor.Thrown, s')
    end.

(** [await res.json()]. *)
Definition await_json (r : ServerResponse) : Svc ServerData :=
  match server_json r with
  | Some data => pure data
  | None => raise
  end.

(** *** URL validation *)

(** [/\.(mp4|m3u8|mpd|webm|mov)(\?|$)/i] matched at the start of
    [s]. *)
Definition extensionHere (s : string) : bool :=
  match s with
  | String "." r =>
      existsb
        (fun e =>
           (YouTubeExtractor.lowerString (substring 0 (String.length e) r) =? e)%string
           && match substring (String.length e) (String.length r - String.length e) r with
              | EmptyString => true
              | String c _ => (c =? "?")%char
              end)
        ["mp4"; "m3u8"; "mpd"; "webm"; "mov"]%string
  | _ => false
  end.

(** [re.test(s)]: some position matches. *)
Fixpoint test (here : string -> bool) (s : string) : bool :=
  here s
  || match s with
     | EmptyString => false
     | String _ r => test here r
     end.

Definition TRUSTED_DOMAINS : list string :=
  ["theplatform.com"; "youtube.com"; "youtu.be"; "vimeo.com";
   "dailymotion.com"; "twitch.tv"; "amazonaws.com";
   "cloudfront.net"; "googlevideo.com"]%string.

(** [isValidTrailerUrl]. The members of a parsed URL do not throw, so
    the [catch] block runs exactly when the constructor throws. *)
Definition isValidTrailerUrl (h : Host) (url : string) : bool :=
  match new_Link h url with
  | Some u =>
      if negb (existsb (String.eqb (protocol u)) ["http:"; "https:"]%string) then false
      else
        let host := JS.toLowerCase (link_hostname u) in
        existsb (fun d => JS.includes d host) TRUSTED_DOMAINS
        || test extensionHere (link_pathname u)
  | None => false
  end.

(** *** Server requests *)

Definition doServerFetch (h : Host) (url : string) : Svc (option string) :=
  attempt
    (res <~ await_fetch h url ;;
     if negb (server_ok res) then pure None
     else
       data <~ await_json res ;;
       match data_url data with
       | Some u =>
           if negb (JS.truthy u) || negb (isValidTrailerUrl h u) then pure None
           else pure (Some u)
       | None => pure None
       end)
    (pure None).

Inductive MediaType := movie | tv.

Definition mediaTypeName (t : MediaType) : string :=
  match t with
  | movie => "movie"
  | tv => "tv"
  end.

(** The pairs of a [URLSearchParams], in order. *)
Definition Params : Type := list (string * string).

(** [if (value) params.append(name, value)]. *)
Definition appendIf (params : Params) (name : string) (value : option string) : Params :=
  match value with
  | Some v => if JS.truthy v then (params ++ [(name, v)])%list else params
  | None => params
  end.

Definition getTrailerFromServer (h : Host) (title : string)
  (year : YouTubeExtractor.number) (tmdbId : option string) (type : option MediaType)
  : Svc (option string) :=
  let params : Params := [("title"%string, title);
                          ("year"%string, YouTubeExtractor.showNumber year)] in
  let params : Params :=
    match tmdbId with
    | Some id =>
        if JS.truthy id
        then (params ++ [("tmdbId"%string, id);
                         ("type"%string, match type with
                                         | Some t => mediaTypeName t
                                         | None => "movie"%string
                                         end)])%list
        else params
    | None => params
    end in
  doServerFetch h (AUTO_SEARCH_URL (env h) ++ "?" ++ URLSearchParams_toString h params)%string.

Definition fetchFromServer (h : Host) (youtubeUrl : string)
  (title year : option string) : Svc (option string) :=
  let params : Params := [("youtube_url"%string, youtubeUrl)] in
  let params := appendIf params "title" title in
  let params := appendIf params "year" year in
  doServerFetch h (LOCAL_SERVER_URL (env h) ++ "?" ++ URLSearchParams_toString h params)%string.

(** *** Public API *)

(** [if (url) { this.setCache(key, url); return url; }]: the value
    returned, [None] when the branch is not taken. *)
Definition cacheIfFound (h : Host) (key : string) (url : option string)
  : Svc (option string) :=
  match url with
  | Some u =>
      if JS.truthy u then _ <~ this_setCache h key u ;; pure (Some u)
      else pure None
  | None => pure None
  end.

Definition getTrailerFromVideoId (h : Host) (youtubeVideoId : string)
  (title : option string) (year : option YouTubeExtractor.number)
  : Svc (option string) :=
  if negb (JS.truthy youtubeVideoId) then pure None
  else
    cached <~ this_getCached h youtubeVideoId ;;
    if JS.truthy_opt cached then pure cached
    else
      onDevice <~
        attempt
          (let platform := if (Platform_OS h =? "android")%string
                           then YouTubeExtractor.android else YouTubeExtractor.ios in
           url <~ await_getBestStreamUrl h youtubeVideoId platform ;;
           cacheIfFound h youtubeVideoId url)
          (pure None) ;;
      match onDevice with
      | Some url => pure (Some url)
      | None =>
          let youtubeUrl := ("https://www.youtube.com/watch?v=" ++ youtubeVideoId)%string in
          serverUrl <~ fetchFromServer h youtubeUrl title
                         (option_map YouTubeExtractor.showNumber year) ;;
          cacheIfFound h youtubeVideoId serverUrl
      end.

Definition getTrailerFromYouTubeUrl (h : Host) (youtubeUrl : string)
  (title year : option string) : Svc (option string) :=
  match YouTubeExtractor.parseVideoId (extractor h) youtubeUrl with
  | Some videoId =>
      if negb (JS.truthy videoId) then fetchFromServer h youtubeUrl title year
      else
        getTrailerFromVideoId h videoId title
          (match year with
           | Some y => if JS.truthy y then Some (YouTubeExtractor.parseInt y) else None
           | None => None
           end)
  | None => fetchFromServer h youtubeUrl title year
  end.

Definition getTrailerUrl (h : Host) (title : string) (year : YouTubeExtractor.number)
  (tmdbId : option string) (type : option MediaType) : Svc (option string) :=
  let cacheKey := ("search:" ++ title ++ ":" ++ YouTubeExtractor.showNumber year ++ ":"
                   ++ match tmdbId with
                      | Some t => t
                      | None => ""
                      end)%string in
  cached <~ this_getCached h cacheKey ;;
  if JS.truthy_opt cached then pure cached
  else
    serverResult <~ getTrailerFromServer h title year tmdbId type ;;
    stored <~ cacheIfFound h cacheKey serverResult ;;
    pure serverResult.

Definition getBestFormatUrl (url : string) : string :=
  if JS.includes "formats=" url then
    if JS.includes "M3U" url
    then (hd "" (JS.split "?" url) ++ "?formats=M3U+none,M3U+appleHlsEncryption")%string
    else if JS.includes "MPEG4" url
    then (hd "" (JS.split "?" url) ++ "?formats=MPEG4")%string
    else url
  else url.

Definition isTrailerAvailable (h : Host) (videoId : string) : Svc bool :=
  found <~ getTrailerFromVideoId h videoId None None ;;
  pure (match found with
        | Some _ => true
        | None => false
        end).

Record TrailerData := {
  trailer_url : string;
  trailer_title : string;
  trailer_year : YouTubeExtractor.number
}.

Definition getTrailerData (h : Host) (title : string) (year : YouTubeExtractor.number)
  : Svc (option TrailerData) :=
  url <~ getTrailerUrl h title year None None ;;
  if negb (JS.truthy_opt url) then pure None
  else pure (Some {| trailer_url := getBestFormatUrl (JS.or_else url "");
                     trailer_title := title;
                     trailer_year := year |}).

End TrailerService.

(* ===================================================================== *)
(** ** Specification vocabulary *)
(* ===================================================================== *)

Module Spec.
Import YouTubeExtractor.
Local Open Scope list_scope.

(** [x] is the first element of [l] whose [key] is greatest: the
    elements before it are strictly smaller, those after it are not
    greater. *)
Definition FirstMax {A : Type} (key : A -> Q) (l : list A) (x : A) : Prop :=
  exists pre post,
    l = pre ++ x :: post
    /\ (forall y, In y pre -> (key y < key x)%Q)
    /\ (forall y, In y post -> (key y <= key x)%Q).

(** The bitrate the comparators read. *)
Definition bitrateOf (f : InnertubeFormat) : Q :=
  inject_Z (JS.nullish (bitrate f) 0).

(** [f] carries the itag of [pool] that stands earliest in [ranked],
    and is the first candidate of [pool] with that itag. *)
Definition BestRanked (ranked : list Z) (pool : list InnertubeFormat)
  (f : InnertubeFormat) : Prop :=
  exists r1 r2 p1 p2,
    ranked = r1 ++ itag f :: r2
    /\ pool = p1 ++ f :: p2
    /\ (forall g, In g pool -> ~ In (itag g) r1)
    /\ (forall g, In g p1 -> itag g <> itag f).

(** The adaptive selection rule: by rank in the preference list, and by
    greatest bitrate when no candidate is listed. *)
Definition AdaptiveChoice (ranked : list Z) (pool : list InnertubeFormat)
  (f : InnertubeFormat) : Prop :=
  BestRanked ranked pool f
  \/ ((forall g, In g pool -> ~ In (itag g) ranked) /\ FirstMax bitrateOf pool f).

(** The mime-preferred pool: the MP4 members when there is one, the
    whole pool otherwise. *)
Definition mimePreferred (muxedFormats : list InnertubeFormat) : list InnertubeFormat :=
  match filter isVideoMp4 muxedFormats with
  | [] => muxedFormats
  | mp4 => mp4
  end.

(** The stream a muxed descriptor is surfaced as. *)
Definition muxedStream (best : InnertubeFormat) : ExtractedStream :=
  {| Stream.url := url best;
     Stream.quality := formatQualityLabel best;
     Stream.mimeType := mimeType best;
     Stream.itag := itag best;
     Stream.hasAudio := JS.truthy_opt (audioQuality best) || isMuxedFormat best;
     Stream.hasVideo := JS.truthy_opt (qualityLabel best)
                        || JS.startsWith (mimeType best) "video/";
     Stream.bitrate := JS.nullish (bitrate best) 0 |}.

(** The entity a character is written as: the four characters
    [escapeXml] replaces, and every other character as itself. *)
Definition escapeChar (c : ascii) : string :=
  if (c =? "&")%char then "&amp;"
  else if (c =? JS.dquote)%char then "&quot;"
  else if (c =? "<")%char then "&lt;"
  else if (c =? ">")%char then "&gt;"
  else String c EmptyString.

(** Escaping in one pass, character by character. *)
Fixpoint escapeEach (s : string) : string :=
  match s with
  | EmptyString => EmptyString
  | String c r => (escapeChar c ++ escapeEach r)%string
  end.

(** [out] holds none of the characters of [cs]. *)
Definition freeOf (cs : list ascii) (out : string) : Prop :=
  forall c, In c cs -> JS.includes_char c out = false.

(** The name of the manifest file of a video. *)
Definition manifestPath (cacheDir videoId : string) : string :=
  (cacheDir ++ "trailer_" ++ videoId ++ ".mpd")%string.

(** The world after one more file. *)
Definition withFile (w : World) (path text : string) : World :=
  {| sent := sent w; files := files w ++ [(path, text)] |}.

(** The request the chain sends for a client. *)
Definition requestOf (videoId : string) (c : Client) : Request :=
  {| req_videoId := videoId; req_context := context c; req_userAgent := userAgent c |}.

(** The world after the requests [reqs] were sent. *)
Definition afterRequests (w : World) (reqs : list Request) : World :=
  {| sent := sent w ++ reqs; files := files w |}.

(** The answer the client [c] gets when it is asked as the [j]-th of
    [cs], the clients before it having been asked in order from the
    world [w]. *)
Definition answerAt (rt : Runtime) (videoId : string) (cs : list Client) (w : World)
  (j : nat) (c : Client) : FetchOutcome :=
  fetch rt (sent w ++ map (requestOf videoId) (firstn j cs)) (requestOf videoId c).

(** The response carries the playability status [s]. *)
Definition hasStatus (resp : InnertubePlayerResponse) (s : string) : Prop :=
  exists ps, playabilityStatus resp = Some ps /\ status ps = s.

(** Classification leaves at least one usable descriptor. *)
Definition usable (resp : InnertubePlayerResponse) : Prop :=
  parseMuxedFormats resp <> [] \/ parseAdaptiveFormats resp <> [].

(** The chain moves past a profile: the request failed (transport
    error, timeout, a status outside 200-299, or a body that is not a
    JSON object), the content is marked unplayable or login-only, or
    no descriptor is usable. *)
Definition Advances (o : FetchOutcome) : Prop :=
  o = TransportError
  \/ o = Aborted
  \/ exists r, o = Responded r
       /\ (ok r = false
           \/ body r = None
           \/ exists resp, body r = Some resp
                /\ (hasStatus resp "UNPLAYABLE"
                    \/ hasStatus resp "LOGIN_REQUIRED"
                    \/ ~ usable resp)).

(** The chain accepts the response [resp] of a profile. *)
Definition Accepts (o : FetchOutcome) (resp : InnertubePlayerResponse) : Prop :=
  exists r, o = Responded r
    /\ ok r = true
    /\ body r = Some resp
    /\ ~ hasStatus resp "UNPLAYABLE"
    /\ ~ hasStatus resp "LOGIN_REQUIRED"
    /\ usable resp.

(** What [fetchPlayerResponse] hands back for an answer of the
    network. *)
Definition answerOf (o : FetchOutcome) : option InnertubePlayerResponse :=
  match o with
  | Responded r => if ok r then body r else None
  | TransportError | Aborted => None
  end.

(** The manifest stream the Android branch builds from a pair of
    tracks. *)
Definition dashStream (path : string) (bestVideo bestAudio : InnertubeFormat)
  : ExtractedStream :=
  {| Stream.url := Some path;
     Stream.quality := formatQualityLabel bestVideo;
     Stream.mimeType := "application/dash+xml";
     Stream.itag := itag bestVideo;
     Stream.hasAudio := true;
     Stream.hasVideo := true;
     Stream.bitrate := JS.nullish (bitrate bestVideo) 0 + JS.nullish (bitrate bestAudio) 0 |}.

(** [playerResponse?.videoDetails] and the duration read from it. *)
Definition detailsOf (playerResponse : option InnertubePlayerResponse)
  : option VideoDetails :=
  match playerResponse with
  | Some r => videoDetails r
  | None => None
  end.

Definition durationOf (details : option VideoDetails) : option number :=
  match details with
  | Some d => if JS.truthy (lengthSeconds d) then Some (parseInt (lengthSeconds d)) else None
  | None => None
  end.

(** The result [extract] builds once the best stream is chosen. *)
Definition resultOf (videoId : string) (muxedFormats : list InnertubeFormat)
  (playerResponse : option InnertubePlayerResponse)
  (best : option ExtractedStream) : YouTubeExtractionResult :=
  {| streams := map muxedStream muxedFormats;
     bestStream := best;
     videoId := videoId;
     result_title := option_map title (detailsOf playerResponse);
     durationSeconds := durationOf (detailsOf playerResponse) |}.

(** The choice of the orchestrator: the manifest stream when the
    Android branch produced one, muxed selection otherwise. *)
Definition bestOf (dash : option ExtractedStream)
  (muxedFormats adaptiveFormats : list InnertubeFormat) : option ExtractedStream :=
  match dash with
  | Some s => Some s
  | None => pickBestMuxedStream muxedFormats adaptiveFormats
  end.

(** The class [[A-Za-z0-9_-]], by character codes. *)
Definition IdChar (c : ascii) : Prop :=
  let n := nat_of_ascii c in
  (65 <= n <= 90)%nat \/ (97 <= n <= 122)%nat \/ (48 <= n <= 57)%nat
  \/ n = 95%nat \/ n = 45%nat.

(** A canonical identifier: a string the pattern of the normalizer
    accepts, that is (see [Canonical_class]) 11 characters of the
    class. *)
Definition Canonical (id : string) : Prop := isVideoIdPattern id = true.

(** [pathname.slice(1).split('/')[0]]. *)
Definition firstSegment (pathname : string) : string :=
  hd ""%string (JS.split "/" (substring 1 (String.length pathname - 1) pathname)).

(** The short-link shape: the host is youtu.be and the first path
    segment is the identifier. *)
Definition ShortLink (u : URL) (id : string) : Prop :=
  hostname u = "youtu.be"%string /\ firstSegment (pathname u) = id /\ Canonical id.

(** The watch shape: the query parameter [v] is the identifier. *)
Definition VParam (u : URL) (id : string) : Prop :=
  searchParams_get u "v" = Some id /\ Canonical id.

(** The path shape: the identifier follows an embed, shorts or v
    segment somewhere in the path. *)
Definition PathShape (path id : string) : Prop :=
  exists pre kw tail,
    In kw ["embed"; "shorts"; "v"]%string
    /\ path = (pre ++ "/" ++ kw ++ "/" ++ id ++ tail)%string
    /\ Canonical id.

(** The raw shape: the identifier follows [?v=] or [&v=] somewhere in
    the string. *)
Definition ParamShape (raw id : string) : Prop :=
  exists pre sep tail,
    In sep ["?"; "&"]%string
    /\ raw = (pre ++ sep ++ "v=" ++ id ++ tail)%string
    /\ Canonical id.


End Spec.

(* ===================================================================== *)
(** ** Concrete descriptors, responses and hosts *)
(* ===================================================================== *)

Module Examples.
Import YouTubeExtractor Spec.
Local Open Scope list_scope.

(** A descriptor with only the fields the scorer reads. *)
Definition descriptor (i : Z) (h b : option Z) : InnertubeFormat :=
  {| itag := i; url := Some "https://example.invalid/v"; mimeType := "video/mp4";
     bitrate := b; width := None; height := h; quality := "medium";
     qualityLabel := None; audioQuality := None; audioSampleRate := None;
     initRange := None; indexRange := None |}.

(** A video-only adaptive candidate and an audio-only one. *)
Definition videoCandidate (i : Z) (b : Z) : InnertubeFormat :=
  {| itag := i; url := Some "https://example.invalid/v"; mimeType := "video/mp4";
     bitrate := Some b; width := None; height := None; quality := "hd";
     qualityLabel := Some "1080p"; audioQuality := None; audioSampleRate := None;
     initRange := None; indexRange := None |}.

Definition audioCandidate (i : Z) (b : Z) : InnertubeFormat :=
  {| itag := i; url := Some "https://example.invalid/a"; mimeType := "audio/mp4";
     bitrate := Some b; width := None; height := None; quality := "tiny";
     qualityLabel := None; audioQuality := Some "AUDIO_QUALITY_MEDIUM";
     audioSampleRate := Some "44100"; initRange := None; indexRange := None |}.


(** The responses of the chain scenario: one without any descriptor,
    one marked unplayable, one with two muxed descriptors. *)
Definition emptyResponse : InnertubePlayerResponse :=
  {| streamingData := None; videoDetails := None; playabilityStatus := None |}.

Definition unplayableResponse : InnertubePlayerResponse :=
  {| streamingData := None; videoDetails := None;
     playabilityStatus := Some {| status := "UNPLAYABLE"; reason := None |} |}.

Definition muxed18 : InnertubeFormat :=
  {| itag := 18; url := Some "https://example.invalid/18?a=1&b='2'";
     mimeType := "video/mp4"; bitrate := Some 500000; width := Some 640;
     height := Some 360; quality := "medium"; qualityLabel := Some "360p";
     audioQuality := Some "AUDIO_QUALITY_LOW"; audioSampleRate := Some "44100";
     initRange := None; indexRange := None |}.

Definition muxed22 : InnertubeFormat :=
  {| itag := 22; url := Some "https://example.invalid/22";
     mimeType := "video/mp4"; bitrate := Some 1500000; width := Some 1280;
     height := Some 720; quality := "hd720"; qualityLabel := Some "720p";
     audioQuality := Some "AUDIO_QUALITY_MEDIUM"; audioSampleRate := Some "44100";
     initRange := None; indexRange := None |}.

Definition twoMuxedResponse : InnertubePlayerResponse :=
  {| streamingData := Some {| formats := Some [muxed18; muxed22];
                              adaptiveFormats := None |};
     videoDetails := Some {| details_videoId := "dQw4w9WgXcQ"; title := "Trailer";
                             lengthSeconds := "212" |};
     playabilityStatus := Some {| status := "OK"; reason := None |} |}.

(** The network of the chain scenario: the first profile answers
    without any descriptor, the second is refused as unplayable, the
    third brings two muxed descriptors, the fourth would fail. *)
Definition scenarioFetch (history : list Request) (req : Request) : FetchOutcome :=
  match req_context req with
  | ANDROID_CLIENT_CONTEXT => Responded {| http_status := 200; body := Some emptyResponse |}
  | IOS_CLIENT_CONTEXT => Responded {| http_status := 200; body := Some unplayableResponse |}
  | TVHTML5_EMBEDDED_CONTEXT => Responded {| http_status := 200; body := Some twoMuxedResponse |}
  | WEB_EMBEDDED_CONTEXT => TransportError
  end.

(** A host whose [URL] constructor rejects everything, whose network
    is [fetch], and whose file system accepts a write exactly when
    [writable] says so. *)
Definition scenarioRuntime (fetch : list Request -> Request -> FetchOutcome)
  (writable : bool) : Runtime :=
  {| new_URL := fun _ => None;
     fetch := fetch;
     import_FileSystem := true;
     cacheDirectory := Some "file:///cache/";
     writeAsStringAsync := fun _ _ => writable |}.

Definition emptyWorld : World := {| sent := []; files := [] |}.

(** The first client of a catalog, the ANDROID one when it is empty;
    a default for [nth]. *)
Definition hd_client (cs : list Client) : Client :=
  hd {| name := "ANDROID"; context := ANDROID_CLIENT_CONTEXT; userAgent := "" |} cs.

(** A response with one video-only and one audio-only track, and a
    network that gives it to every profile. *)
Definition dashResponse : InnertubePlayerResponse :=
  {| streamingData :=
       Some {| formats := None;
               adaptiveFormats := Some [videoCandidate 137 5000000;
                                        audioCandidate 140 128000] |};
     videoDetails := None;
     playabilityStatus := Some {| status := "OK"; reason := None |} |}.

Definition dashFetch (history : list Request) (req : Request) : FetchOutcome :=
  Responded {| http_status := 200; body := Some dashResponse |}.

(** A response with audio-only tracks alone. *)
Definition audioOnlyResponse : InnertubePlayerResponse :=
  {| streamingData :=
       Some {| formats := Some [];
               adaptiveFormats := Some [audioCandidate 140 128000;
                                        audioCandidate 251 160000] |};
     videoDetails := None;
     playabilityStatus := None |}.

Definition audioOnlyFetch (history : list Request) (req : Request) : FetchOutcome :=
  Responded {| http_status := 200; body := Some audioOnlyResponse |}.

(** A [URL] constructor for the examples: it knows four links and
    rejects every other string. *)
Definition sampleURL (input : string) : option URL :=
  if (input =? "https://youtu.be/dQw4w9WgXcQ?t=42")%string then
    Some {| hostname := "youtu.be"; pathname := "/dQw4w9WgXcQ";
            searchParams := [("t", "42")]%string |}
  else if (input =? "https://www.youtube.com/watch?v=dQw4w9WgXcQ&list=PL1")%string then
    Some {| hostname := "www.youtube.com"; pathname := "/watch";
            searchParams := [("v", "dQw4w9WgXcQ"); ("list", "PL1")]%string |}
  else if (input =? "https://www.youtube.com/embed/dQw4w9WgXcQ")%string then
    Some {| hostname := "www.youtube.com"; pathname := "/embed/dQw4w9WgXcQ";
            searchParams := [] |}
  else if (input =? "https://example.invalid/about")%string then
    Some {| hostname := "example.invalid"; pathname := "/about"; searchParams := [] |}
  else None.

End Examples.

Module CacheSpec.
Import TrailerService.
Local Open Scope list_scope.










(** The moment of the cache scenario, and a cache holding one direct
    URL, respectively one manifest reference, stored at that moment. *)
Definition t0 : Z := 1700000000000.

Definition directCache : Cache :=
  setCache t0 "dQw4w9WgXcQ" "https://example.invalid/videoplayback?id=1" [].

Definition manifestCache : Cache :=
  setCache t0 "dQw4w9WgXcQ" "file:///cache/trailer_dQw4w9WgXcQ.mpd" [].

Definition hours (h : Z) : Z := h * 60 * 60 * 1000.
Definition minutes (m : Z) : Z := m * 60 * 1000.

End CacheSpec.

Module ExtractorSpec.
Import YouTubeExtractor Spec.
Local Open Scope list_scope.

(** The two raw descriptor lists of a response, empty when the
    response has none. *)
Definition formatsOf (resp : InnertubePlayerResponse) : list InnertubeFormat :=
  match streamingData resp with
  | Some sd => orEmpty (formats sd)
  | None => []
  end.

Definition adaptiveOf (resp : InnertubePlayerResponse) : list InnertubeFormat :=
  match streamingData resp with
  | Some sd => orEmpty (adaptiveFormats sd)
  | None => []
  end.

(** The descriptor has a locator, and it is not the empty string. *)
Definition hasLocator (f : InnertubeFormat) : Prop :=
  exists u, url f = Some u /\ u <> ""%string.

(** The stream has a locator, and it is not the empty string. *)
Definition Located (s : ExtractedStream) : Prop :=
  exists u, Stream.url s = Some u /\ u <> ""%string.

(** The candidates of the last resort of muxed selection: adaptive
    descriptors with a locator, a quality label and a video mime
    type. *)
Definition videoAdaptiveOf (adaptiveFormats : list InnertubeFormat)
  : list InnertubeFormat :=
  filter (fun f => JS.truthy_opt (url f) && JS.truthy_opt (qualityLabel f)
                   && JS.startsWith (mimeType f) "video/") adaptiveFormats.

(** The stream the last resort surfaces: video without audio. *)
Definition videoOnlyStream (best : InnertubeFormat) : ExtractedStream :=
  {| Stream.url := url best;
     Stream.quality := formatQualityLabel best;
     Stream.mimeType := mimeType best;
     Stream.itag := itag best;
     Stream.hasAudio := false;
     Stream.hasVideo := true;
     Stream.bitrate := JS.nullish (bitrate best) 0 |}.

(** A mime type string as the upstream writes it: the container, a
    semicolon, a blank, and the codecs between double quotes. *)
Definition mimeOf (base codecList : string) : string :=
  (base ++ "; codecs=" ++ JS.dq ++ codecList ++ JS.dq)%string.

(** Inverse of [escapeXml] on its own output: the four entities read
    back as their characters. *)
Fixpoint unescapeXml (fuel : nat) (s : string) : string :=
  match fuel with
  | O => s
  | S fuel' =>
      match s with
      | EmptyString => EmptyString
      | String c r =>
          if (c =? "&")%char then
            if String.prefix "amp;" r
            then String "&" (unescapeXml fuel' (substring 4 (String.length r - 4) r))
            else if String.prefix "quot;" r
            then String JS.dquote (unescapeXml fuel' (substring 5 (String.length r - 5) r))
            else if String.prefix "lt;" r
            then String "<" (unescapeXml fuel' (substring 3 (String.length r - 3) r))
            else if String.prefix "gt;" r
            then String ">" (unescapeXml fuel' (substring 3 (String.length r - 3) r))
            else String c (unescapeXml fuel' r)
          else String c (unescapeXml fuel' r)
      end
  end.

(** Two descriptors of itag 22 above both caps. *)
Definition itag22_720p_capped : InnertubeFormat :=
  Examples.descriptor 22 (Some 720) (Some 3500000).

Definition itag22_1080p_capped : InnertubeFormat :=
  Examples.descriptor 22 (Some 1080) (Some 8000000).

End ExtractorSpec.

Module ServiceSpec.
Import TrailerService.
Local Open Scope list_scope.

(** A well-formed cache: distinct keys, at most 100 entries, no empty
    key. *)
Definition CacheOk (c : Cache) : Prop :=
  NoDup (JS.Map.keys c)
  /\ (List.length c <= 100)%nat
  /\ ~ In ""%string (JS.Map.keys c).

(** The entry [setCache] writes at time [now]. *)
Definition entryAt (now : Z) (url : string) : CacheEntry :=
  {| TrailerService.url := url; expiresAt := now + CACHE_TTL_MS |}.

(** [m] started in a state that satisfies [P] ends normally in a state
    that satisfies [Q], or throws in a state that satisfies [E]. *)
Definition triple {A : Type} (P : Service -> Prop) (m : Svc A)
  (Q : A -> Service -> Prop) (E : Service -> Prop) : Prop :=
  forall s, P s ->
    match m s with
    | (YouTubeExtractor.Normal a, s') => Q a s'
    | (YouTubeExtractor.Thrown, s') => E s'
    end.

(** [m] keeps the cache well formed and does not throw. *)
Definition Keeps {A : Type} (m : Svc A) : Prop :=
  triple (fun s => CacheOk (urlCache s)) m
         (fun _ s' => CacheOk (urlCache s')) (fun _ => False).

(** The platform the service passes to the extractor. *)
Definition platformOf (h : Host) : YouTubeExtractor.Platform :=
  if (Platform_OS h =? "android")%string
  then YouTubeExtractor.android else YouTubeExtractor.ios.

(** The url a server answer carries: [data.url] of a 2xx answer with
    a body. *)
Definition answerUrl (o : ServerOutcome) : option string :=
  match o with
  | ServerAnswered r =>
      if server_ok r
      then match server_json r with
           | Some data => data_url data
           | None => None
           end
      else None
  | ServerRejected | ServerAborted => None
  end.

(** The state after one more request to the server. *)
Definition asked (s : Service) (address : string) : Service :=
  {| urlCache := urlCache s; world := world s;
     requested := requested s ++ [address]; readings := readings s |}.

(** The state after [setCache(key, url)]. *)
Definition stored (h : Host) (key url : string) (s : Service) : Service :=
  {| urlCache := setCache (Date_now h (readings s)) key url (urlCache s);
     world := world s; requested := requested s; readings := S (readings s) |}.

(** [text] occurs in [s]. *)
Definition Occurs (text s : string) : Prop :=
  exists a b, s = (a ++ text ++ b)%string.

(** [path] holds a dot, one of the five extensions in any case, and
    then ends or goes on with a question mark. *)
Definition MediaPath (path : string) : Prop :=
  exists a x rest,
    path = (a ++ "." ++ x ++ rest)%string
    /\ In (YouTubeExtractor.lowerString x) ["mp4"; "m3u8"; "mpd"; "webm"; "mov"]%string
    /\ (rest = ""%string \/ exists t, rest = ("?" ++ t)%string).

(** What [doServerFetch] makes of a server outcome: the url of the
    answer when it is not empty and passes the validation. *)
Definition accepted (h : Host) (o : ServerOutcome) : option string :=
  match answerUrl o with
  | Some u => if JS.truthy u && isValidTrailerUrl h u then Some u else None
  | None => None
  end.

(** The address [fetchFromServer] requests. *)
Definition trailerAddress (h : Host) (youtubeUrl : string) (title year : option string)
  : string :=
  (LOCAL_SERVER_URL (env h) ++ "?"
   ++ URLSearchParams_toString h
        (appendIf (appendIf [("youtube_url", youtubeUrl)] "title" title) "year" year))%string.

Definition watchUrl (youtubeVideoId : string) : string :=
  ("https://www.youtube.com/watch?v=" ++ youtubeVideoId)%string.

(** The value of a lookup in state [s], and the state after it. *)
Definition lookup (h : Host) (key : string) (s : Service) : option string :=
  fst (getCached (Date_now h (readings s)) key (urlCache s)).

Definition looked (h : Host) (key : string) (s : Service) : Service :=
  snd (this_getCached h key s).

(** The on-device extraction the service starts from the world [w]. *)
Definition onDevice (h : Host) (youtubeVideoId : string) (w : YouTubeExtractor.World)
  : YouTubeExtractor.completion (option string) * YouTubeExtractor.World :=
  YouTubeExtractor.getBestStreamUrl (extractor h) youtubeVideoId (Some (platformOf h)) w.

(** The state with the extractor's world replaced. *)
Definition withWorld (s : Service) (w : YouTubeExtractor.World) : Service :=
  {| urlCache := urlCache s; world := w; requested := requested s;
     readings := readings s |}.

(** The url the service takes from the on-device extraction: none
    when it throws, gives null or gives the empty string. *)
Definition deviceUrl (h : Host) (youtubeVideoId : string) (w : YouTubeExtractor.World)
  : option string :=
  match fst (onDevice h youtubeVideoId w) with
  | YouTubeExtractor.Normal (Some u) => if JS.truthy u then Some u else None
  | _ => None
  end.

(** The cache key of a title search. *)
Definition searchKey (title : string) (year : YouTubeExtractor.number)
  (tmdbId : option string) : string :=
  ("search:" ++ title ++ ":" ++ YouTubeExtractor.showNumber year ++ ":"
   ++ match tmdbId with
      | Some t => t
      | None => ""
      end)%string.

(** A host for the examples: no environment variable is set, the URL
    constructor knows two links, the extractor's network is down, the
    server answers every request with [answer], and the clock reads
    [t0 + n] at reading [n]. *)
Definition sampleLink (url : string) : option Link :=
  if (url =? "https://cdn.example.invalid/t/clip.MP4?x=1")%string then
    Some {| protocol := "https:"; link_hostname := "cdn.example.invalid";
            link_pathname := "/t/clip.MP4" |}
  else if (url =? "https://Video.GoogleVideo.com/play")%string then
    Some {| protocol := "https:"; link_hostname := "video.googlevideo.com";
            link_pathname := "/play" |}
  else if (url =? "file:///cache/trailer.mp4")%string then
    Some {| protocol := "file:"; link_hostname := ""; link_pathname := "/cache/trailer.mp4" |}
  else None.

Definition offline (history : list YouTubeExtractor.Request) (req : YouTubeExtractor.Request)
  : YouTubeExtractor.FetchOutcome := YouTubeExtractor.TransportError.

Definition sampleHost (fetch : list YouTubeExtractor.Request -> YouTubeExtractor.Request
                               -> YouTubeExtractor.FetchOutcome)
  (os : string) (answer : ServerOutcome) : Host :=
  {| extractor := Examples.scenarioRuntime fetch true;
     Platform_OS := os;
     env := {| EXPO_PUBLIC_TRAILER_LOCAL_BASE := None;
               EXPO_PUBLIC_TRAILER_LOCAL_TRAILER_PATH := None;
               EXPO_PUBLIC_TRAILER_LOCAL_SEARCH_PATH := None |};
     URLSearchParams_toString :=
       fun params => String.concat "&" (map (fun kv => (fst kv ++ "=" ++ snd kv)%string) params);
     new_Link := sampleLink;
     server := fun _ _ => answer;
     Date_now := fun n => CacheSpec.t0 + Z.of_nat n |}.

Definition answers (url : string) : ServerOutcome :=
  ServerAnswered {| server_status := 200;
                    server_json := Some {| data_url := Some url |} |}.

Definition freshService : Service :=
  {| urlCache := []; world := Examples.emptyWorld; requested := []; readings := 0 |}.

(** [year ? parseInt(year, 10) : undefined]. *)
Definition yearNumber (year : option string) : option YouTubeExtractor.number :=
  match year with
  | Some y => if JS.truthy y then Some (YouTubeExtractor.parseInt y) else None
  | None => None
  end.

(** The part of [url] before its first question mark. *)
Definition beforeQuery (url : string) : string := hd ""%string (JS.split "?" url).

(** The server of the examples answers with a link on a trusted
    domain; the extractor's network is down. *)
Definition serverHost : Host :=
  sampleHost offline "ios" (answers "https://Video.GoogleVideo.com/play").

Definition sampleId : string := "dQw4w9WgXcQ".

End ServiceSpec.

(* ===================================================================== *)
(** ** Facts about the JavaScript primitives *)
(* ===================================================================== *)

Module JSFacts.
Local Open Scope list_scope.

Section SortFacts.
Context {A : Type} (key : A -> Q) (cmp : A -> A -> Q).
Hypothesis cmp_desc : forall a b, (cmp a b == key b - key a)%Q.

Lemma insert_head (x : A) (l : list A) :
  exists h t, JS.insert cmp x l = h :: t.
Proof.
  destruct l as [|y ys]; simpl; [now eauto|].
  destruct (Qle_bool (cmp x y) 0); eauto.
Qed.

(** The head of a descending sort is the first greatest element. *)
Lemma sort_head_first_max (l : list A) :
  l <> [] ->
  exists x rest, JS.sort cmp l = x :: rest /\ Spec.FirstMax key l x.
Proof.
  induction l as [|a l IH]; [congruence|]. intros _.
  destruct l as [|b l'].
  - exists a, []. split; [reflexivity|].
    exists [], []. repeat split; simpl; intros; contradiction.
  - destruct IH as (x & rest & Hs & pre & post & Hl & Hpre & Hpost); [congruence|].
    change (JS.sort cmp (a :: b :: l')) with (JS.insert cmp a (JS.sort cmp (b :: l'))).
    rewrite Hs. simpl.
    destruct (Qle_bool (cmp a x) 0) eqn:E.
    + apply Qle_bool_iff in E. rewrite cmp_desc in E.
      exists a, (x :: rest). split; [reflexivity|].
      exists [], (b :: l'). split; [reflexivity|]. split; [intros y []|].
      intros y Hy. rewrite Hl in Hy. apply in_app_or in Hy.
      destruct Hy as [Hy|[Hy|Hy]].
      * specialize (Hpre y Hy). lra.
      * subst y. lra.
      * specialize (Hpost y Hy). lra.
    + assert (Hlt : (key a < key x)%Q).
      { destruct (Qlt_le_dec (key a) (key x)) as [H|H]; [exact H|].
        assert (Qle_bool (cmp a x) 0 = true); [|congruence].
        apply Qle_bool_iff. rewrite cmp_desc. lra. }
      destruct (insert_head a rest) as (h & t & Hi).
      exists x, (JS.insert cmp a rest). split; [reflexivity|].
      exists (a :: pre), post. split; [now rewrite Hl|]. split; [|exact Hpost].
      intros y [Hy|Hy]; [now subst y|now apply Hpre].
Qed.

End SortFacts.

(** [find] returns the first element that passes the test. *)
Lemma find_first {A : Type} (p : A -> bool) (l : list A) (x : A) :
  find p l = Some x ->
  exists l1 l2, l = l1 ++ x :: l2 /\ p x = true /\ forall y, In y l1 -> p y = false.
Proof.
  induction l as [|a l IH]; simpl; [discriminate|].
  destruct (p a) eqn:E; intros H.
  - inversion H; subst. exists [], l. repeat split; auto. intros y [].
  - destruct (IH H) as (l1 & l2 & -> & Hx & Hl1).
    exists (a :: l1), l2. repeat split; auto.
    intros y [<-|Hy]; auto.
Qed.

Lemma filter_none {A : Type} (p : A -> bool) (l : list A) :
  (forall x, In x l -> p x = false) -> filter p l = [].
Proof.
  induction l as [|a l IH]; intros H; [reflexivity|]. simpl.
  rewrite (H a (or_introl eq_refl)). apply IH. intros x Hx. apply H. now right.
Qed.

Lemma truthy_append (a b : string) :
  JS.truthy a = true -> JS.truthy (a ++ b)%string = true.
Proof. destruct a; [discriminate|reflexivity]. Qed.

Lemma truthy_opt_Some (o : option string) :
  JS.truthy_opt o = true -> exists s, o = Some s /\ JS.truthy s = true.
Proof. destruct o as [s|]; [eauto|discriminate]. Qed.

Lemma length_zero_nil {A : Type} (l : list A) :
  (List.length l =? 0)%nat = true <-> l = [].
Proof.
  destruct l; simpl; split; intros; congruence.
Qed.

Lemma length_pos_cons {A : Type} (l : list A) :
  (0 <? List.length l)%nat = true <-> l <> [].
Proof.
  destruct l; unfold Nat.ltb; simpl; split; intros; congruence.
Qed.

Lemma append_assoc (a b c : string) : ((a ++ b) ++ c = a ++ (b ++ c))%string.
Proof. induction a as [|x a IH]; simpl; [reflexivity|now rewrite IH]. Qed.

Lemma append_nil_r (a : string) : (a ++ "" = a)%string.
Proof. induction a as [|x a IH]; simpl; [reflexivity|now rewrite IH]. Qed.

Lemma includes_char_append (c : ascii) (a b : string) :
  JS.includes_char c (a ++ b)%string = JS.includes_char c a || JS.includes_char c b.
Proof.
  induction a as [|x a IH]; simpl; [reflexivity|].
  now rewrite IH, orb_assoc.
Qed.

Lemma replaceAll_append (c : ascii) (by_ a b : string) :
  (JS.replaceAll c by_ (a ++ b) = JS.replaceAll c by_ a ++ JS.replaceAll c by_ b)%string.
Proof.
  induction a as [|x a IH]; simpl; [reflexivity|].
  destruct (x =? c)%char; rewrite IH; [now rewrite append_assoc|reflexivity].
Qed.

(** [endsWith] is the suffix relation. *)
Lemma substring_skip (x t : string) (n : nat) :
  substring (String.length x) n (x ++ t) = substring 0 n t.
Proof. induction x as [|c x IH]; simpl; [reflexivity|exact IH]. Qed.

Lemma substring_all (t : string) : substring 0 (String.length t) t = t.
Proof. induction t as [|c t IH]; simpl; [reflexivity|now rewrite IH]. Qed.

Lemma length_append (a b : string) :
  String.length (a ++ b) = (String.length a + String.length b)%nat.
Proof. induction a as [|c a IH]; simpl; [reflexivity|now rewrite IH]. Qed.

Lemma substring_split (s : string) :
  forall i m, (i + m = String.length s)%nat ->
              s = (substring 0 i s ++ substring i m s)%string.
Proof.
  induction s as [|c s IH]; intros i m H; simpl in H.
  - assert (i = 0%nat) by lia. assert (m = 0%nat) by lia. subst. reflexivity.
  - destruct i as [|i].
    + simpl in H. subst m. simpl. now rewrite substring_all.
    + simpl. f_equal. apply IH. lia.
Qed.

Lemma endsWith_iff (s p : string) :
  JS.endsWith s p = true <-> exists x, s = (x ++ p)%string.
Proof.
  unfold JS.endsWith. rewrite andb_true_iff, Nat.leb_le, String.eqb_eq. split.
  - intros [Hle Hs].
    exists (substring 0 (String.length s - String.length p) s).
    pose proof (substring_split s (String.length s - String.length p)
                  (String.length p) ltac:(lia)) as Hsp.
    now rewrite Hs in Hsp.
  - intros [x ->]. rewrite length_append. split; [lia|].
    replace (String.length x + String.length p - String.length p)%nat
      with (String.length x) by lia.
    now rewrite substring_skip, substring_all.
Qed.

Lemma prefix_iff (p s : string) :
  String.prefix p s = true <-> exists rest, s = (p ++ rest)%string.
Proof.
  revert s. induction p as [|a p IH]; intros s.
  - destruct s; simpl; split; eauto.
  - destruct s as [|b s]; simpl.
    + split; [discriminate|]. intros [rest H]. discriminate.
    + destruct (ascii_dec a b) as [->|Hne].
      * rewrite IH. split; intros [rest H]; exists rest; congruence.
      * split; [discriminate|]. intros [rest H]. congruence.
Qed.

Lemma substring_rest (p rest : string) :
  substring (String.length p) (String.length (p ++ rest) - String.length p) (p ++ rest)
  = rest.
Proof.
  rewrite length_append.
  replace (String.length p + String.length rest - String.length p)%nat
    with (String.length rest) by lia.
  now rewrite substring_skip, substring_all.
Qed.

Lemma substring_head (x t : string) : substring 0 (String.length x) (x ++ t) = x.
Proof. induction x as [|c x IH]; simpl; [now destruct t|now rewrite IH]. Qed.

Lemma substring_length_le (s : string) :
  forall i m, (String.length (substring i m s) <= m)%nat.
Proof.
  induction s as [|c s IH]; intros i m; simpl.
  - destruct i, m; simpl; lia.
  - destruct i as [|i].
    + destruct m as [|m]; simpl; [lia|]. specialize (IH 0%nat m). lia.
    + apply IH.
Qed.

(** A string of which the first [m] characters are [m] characters
    long splits after them. *)
Lemma substring_take (s : string) (m : nat) :
  String.length (substring 0 m s) = m ->
  exists tail, s = (substring 0 m s ++ tail)%string.
Proof.
  revert m. induction s as [|c s IH]; intros m H.
  - destruct m; simpl in *; [now exists ""%string|discriminate].
  - destruct m as [|m]; simpl in *; [now exists (String c s)|].
    destruct (IH m) as [tail Ht]; [lia|]. exists tail. now rewrite <- Ht.
Qed.

End JSFacts.

(* ===================================================================== *)
(** ** Format scoring and selection *)
(* ===================================================================== *)

Module SelectorFacts.
Import YouTubeExtractor Spec Examples.
Local Open Scope list_scope.

Lemma firstRanked_sound (ranked : list Z) (pool : list InnertubeFormat) (f : InnertubeFormat) :
  firstRanked ranked pool = Some f -> BestRanked ranked pool f.
Proof.
  induction ranked as [|i rest IH]; simpl; [discriminate|].
  destruct (find (fun g => itag g =? i) pool) as [m|] eqn:E; intros H.
  - inversion H; subst m; clear H.
    destruct (JSFacts.find_first _ _ _ E) as (p1 & p2 & Hp & Hi & Hp1).
    apply Z.eqb_eq in Hi. subst i.
    exists [], rest, p1, p2. repeat split; auto.
    intros g Hg Hne. specialize (Hp1 g Hg). apply Z.eqb_neq in Hp1. congruence.
  - destruct (IH H) as (r1 & r2 & p1 & p2 & Hr & Hp & Hno & Hp1).
    exists (i :: r1), r2, p1, p2. repeat split; auto.
    + simpl. now rewrite Hr.
    + intros g Hg [Hi|Hi]; [|now apply (Hno g Hg)].
      pose proof (find_none _ _ E g Hg) as Hn. simpl in Hn.
      apply Z.eqb_neq in Hn. congruence.
Qed.

Lemma firstRanked_none (ranked : list Z) (pool : list InnertubeFormat) :
  firstRanked ranked pool = None ->
  forall g, In g pool -> ~ In (itag g) ranked.
Proof.
  induction ranked as [|i rest IH]; simpl; [tauto|].
  destruct (find (fun g => itag g =? i) pool) as [m|] eqn:E; [discriminate|].
  intros H g Hg [Hi|Hi]; [|now apply (IH H g Hg)].
  pose proof (find_none _ _ E g Hg) as Hn. simpl in Hn.
  apply Z.eqb_neq in Hn. congruence.
Qed.

Lemma byBitrateDesc_key (a b : InnertubeFormat) :
  (byBitrateDesc a b == bitrateOf b - bitrateOf a)%Q.
Proof.
  unfold byBitrateDesc, bitrateOf, Z.sub.
  now rewrite inject_Z_plus, inject_Z_opp.
Qed.

Lemma byScoreDesc_key (a b : InnertubeFormat) :
  (byScoreDesc a b == scoreFormat b - scoreFormat a)%Q.
Proof. reflexivity. Qed.

(** The body shared by the two adaptive pickers, once the pool is known
    to be non-empty. *)
Lemma ranked_else_bitrate (ranked : list Z) (pool : list InnertubeFormat) :
  pool <> [] ->
  exists f,
    match firstRanked ranked pool with
    | Some m => Some m
    | None => hd_error (JS.sort byBitrateDesc pool)
    end = Some f
    /\ AdaptiveChoice ranked pool f.
Proof.
  intros Hne. destruct (firstRanked ranked pool) as [m|] eqn:E.
  - exists m. split; [reflexivity|]. left. now apply firstRanked_sound.
  - destruct (JSFacts.sort_head_first_max bitrateOf byBitrateDesc byBitrateDesc_key pool Hne)
      as (x & rest & Hs & Hmax).
    exists x. rewrite Hs. split; [reflexivity|]. right. split; [|exact Hmax].
    now apply firstRanked_none.
Qed.

Lemma pickBestAdaptiveVideo_choice (adaptiveFormats : list InnertubeFormat) :
  filter isVideoOnly adaptiveFormats <> [] ->
  exists f, pickBestAdaptiveVideo adaptiveFormats = Some f
            /\ AdaptiveChoice ADAPTIVE_VIDEO_ITAGS_RANKED (filter isVideoOnly adaptiveFormats) f.
Proof.
  intros Hne. unfold pickBestAdaptiveVideo.
  destruct (List.length (filter isVideoOnly adaptiveFormats) =? 0)%nat eqn:E.
  - apply JSFacts.length_zero_nil in E. contradiction.
  - now apply ranked_else_bitrate.
Qed.

Lemma pickBestAdaptiveAudio_choice (adaptiveFormats : list InnertubeFormat) :
  filter isAudioOnly adaptiveFormats <> [] ->
  exists f, pickBestAdaptiveAudio adaptiveFormats = Some f
            /\ AdaptiveChoice ADAPTIVE_AUDIO_ITAGS_RANKED (filter isAudioOnly adaptiveFormats) f.
Proof.
  intros Hne. unfold pickBestAdaptiveAudio.
  destruct (List.length (filter isAudioOnly adaptiveFormats) =? 0)%nat eqn:E.
  - apply JSFacts.length_zero_nil in E. contradiction.
  - now apply ranked_else_bitrate.
Qed.

Lemma AdaptiveChoice_In (ranked : list Z) (pool : list InnertubeFormat) (f : InnertubeFormat) :
  AdaptiveChoice ranked pool f -> In f pool.
Proof.
  intros [(r1 & r2 & p1 & p2 & _ & -> & _)|[_ (pre & post & -> & _)]];
    apply in_or_app; right; now left.
Qed.

(** What a selected video track is: one of the descriptors, video-only. *)
Lemma pickBestAdaptiveVideo_Some (adaptiveFormats : list InnertubeFormat) (v : InnertubeFormat) :
  pickBestAdaptiveVideo adaptiveFormats = Some v ->
  In v adaptiveFormats /\ isVideoOnly v = true.
Proof.
  intros H. destruct (filter isVideoOnly adaptiveFormats) as [|a l] eqn:E.
  - unfold pickBestAdaptiveVideo in H. now rewrite E in H.
  - destruct (pickBestAdaptiveVideo_choice adaptiveFormats) as (f & Hf & Hc);
      [rewrite E; congruence|].
    rewrite H in Hf. inversion Hf; subst f.
    apply AdaptiveChoice_In in Hc. now apply filter_In in Hc.
Qed.

Lemma pickBestAdaptiveAudio_Some (adaptiveFormats : list InnertubeFormat) (a : InnertubeFormat) :
  pickBestAdaptiveAudio adaptiveFormats = Some a ->
  In a adaptiveFormats /\ isAudioOnly a = true.
Proof.
  intros H. destruct (filter isAudioOnly adaptiveFormats) as [|b l] eqn:E.
  - unfold pickBestAdaptiveAudio in H. now rewrite E in H.
  - destruct (pickBestAdaptiveAudio_choice adaptiveFormats) as (f & Hf & Hc);
      [rewrite E; congruence|].
    rewrite H in Hf. inversion Hf; subst f.
    apply AdaptiveChoice_In in Hc. now apply filter_In in Hc.
Qed.

(** C2. Adaptive selection. For every list of descriptors whose pool of
    video-only (respectively audio-only) candidates is not empty, the
    picker returns a candidate, and that candidate is the first one
    carrying the itag of the pool that stands earliest in the fixed
    preference list; when no candidate's itag is listed it is the first
    candidate of greatest bitrate. An empty pool gives null. A pool
    holding only itag 999 at 1,000,000 bit/s selects itag 999. *)
Theorem adaptive_selection_rank_then_bitrate :
  forall adaptiveFormats : list InnertubeFormat,
    (filter isVideoOnly adaptiveFormats <> [] ->
     exists f, pickBestAdaptiveVideo adaptiveFormats = Some f
               /\ AdaptiveChoice ADAPTIVE_VIDEO_ITAGS_RANKED
                    (filter isVideoOnly adaptiveFormats) f)
    /\ (filter isAudioOnly adaptiveFormats <> [] ->
        exists f, pickBestAdaptiveAudio adaptiveFormats = Some f
                  /\ AdaptiveChoice ADAPTIVE_AUDIO_ITAGS_RANKED
                       (filter isAudioOnly adaptiveFormats) f)
    /\ (filter isVideoOnly adaptiveFormats = [] -> pickBestAdaptiveVideo adaptiveFormats = None)
    /\ (filter isAudioOnly adaptiveFormats = [] -> pickBestAdaptiveAudio adaptiveFormats = None)
    /\ pickBestAdaptiveVideo [videoCandidate 999 1000000] = Some (videoCandidate 999 1000000).
Proof.
  intros adaptiveFormats. split; [|split; [|split; [|split]]].
  - apply pickBestAdaptiveVideo_choice.
  - apply pickBestAdaptiveAudio_choice.
  - intros E. unfold pickBestAdaptiveVideo. now rewrite E.
  - intros E. unfold pickBestAdaptiveAudio. now rewrite E.
  - reflexivity.
Qed.

(** The selection scenario of the specification: itag 137 wins over
    itag 136 whatever the bitrates and the order of the candidates. *)
Lemma adaptive_selection_scenario :
  (exists f, pickBestAdaptiveVideo [videoCandidate 136 9000000; videoCandidate 137 1000000] = Some f
             /\ AdaptiveChoice ADAPTIVE_VIDEO_ITAGS_RANKED
                  (filter isVideoOnly [videoCandidate 136 9000000; videoCandidate 137 1000000]) f)
  /\ pickBestAdaptiveVideo [videoCandidate 136 9000000; videoCandidate 137 1000000]
     = Some (videoCandidate 137 1000000)
  /\ pickBestAdaptiveAudio [audioCandidate 251 160000; audioCandidate 140 128000]
     = Some (audioCandidate 140 128000).
Proof.
  split; [|split; reflexivity].
  apply (proj1 (adaptive_selection_rank_then_bitrate
                  [videoCandidate 136 9000000; videoCandidate 137 1000000])).
  simpl. discriminate.
Defined.

(** *** The muxed score *)

Lemma itagBonus_table :
  itagBonus 22 = 40000 /\ itagBonus 18 = 30000
  /\ itagBonus 59 = 20000 /\ itagBonus 78 = 10000.
Proof. repeat split. Qed.









Lemma pickBestMuxedStream_first_max (muxedFormats adaptiveFormats : list InnertubeFormat) :
  muxedFormats <> [] ->
  exists best,
    pickBestMuxedStream muxedFormats adaptiveFormats = Some (muxedStream best)
    /\ FirstMax scoreFormat (mimePreferred muxedFormats) best.
Proof.
  intros Hne. unfold pickBestMuxedStream.
  apply JSFacts.length_pos_cons in Hne as Hpos. rewrite Hpos.
  assert (Hpool : (if (0 <? List.length (filter isVideoMp4 muxedFormats))%nat
                   then filter isVideoMp4 muxedFormats else muxedFormats)
                  = mimePreferred muxedFormats).
  { unfold mimePreferred. now destruct (filter isVideoMp4 muxedFormats). }
  cbv zeta. rewrite Hpool.
  assert (Hp : mimePreferred muxedFormats <> []).
  { unfold mimePreferred. destruct (filter isVideoMp4 muxedFormats); congruence. }
  destruct (JSFacts.sort_head_first_max scoreFormat byScoreDesc byScoreDesc_key _ Hp)
    as (x & rest & Hs & Hmax).
  exists x. rewrite Hs. split; [reflexivity|exact Hmax].
Qed.




End SelectorFacts.

(* ===================================================================== *)
(** ** The manifest *)
(* ===================================================================== *)

Module ManifestFacts.
Import YouTubeExtractor Spec Examples.
Local Open Scope list_scope.

Lemma escapeXml_cons (c : ascii) (r : string) :
  escapeXml (String c r) = (escapeChar c ++ escapeXml r)%string.
Proof.
  unfold escapeXml, escapeChar. simpl JS.replaceAll at 4.
  destruct (Ascii.eqb_spec c "&") as [->|Hamp]; [reflexivity|].
  simpl JS.replaceAll at 3.
  destruct (Ascii.eqb_spec c JS.dquote) as [->|Hq]; [reflexivity|].
  simpl JS.replaceAll at 2.
  destruct (Ascii.eqb_spec c "<") as [->|Hlt]; [reflexivity|].
  simpl JS.replaceAll at 1.
  destruct (Ascii.eqb_spec c ">") as [->|Hgt]; reflexivity.
Qed.

(** The four chained replacements amount to one pass over the
    characters. *)
Lemma escapeXml_each (s : string) : escapeXml s = escapeEach s.
Proof.
  induction s as [|c r IH]; [reflexivity|].
  rewrite escapeXml_cons. simpl. now rewrite IH.
Qed.

Lemma escapeChar_no_raw (c x : ascii) :
  In x ["<"; ">"; JS.dquote]%char -> JS.includes_char x (escapeChar c) = false.
Proof.
  intros Hx. unfold escapeChar.
  destruct (Ascii.eqb_spec c "&") as [->|Hamp];
    [destruct Hx as [<-|[<-|[<-|[]]]]; reflexivity|].
  destruct (Ascii.eqb_spec c JS.dquote) as [->|Hq];
    [destruct Hx as [<-|[<-|[<-|[]]]]; reflexivity|].
  destruct (Ascii.eqb_spec c "<") as [->|Hlt];
    [destruct Hx as [<-|[<-|[<-|[]]]]; reflexivity|].
  destruct (Ascii.eqb_spec c ">") as [->|Hgt];
    [destruct Hx as [<-|[<-|[<-|[]]]]; reflexivity|].
  simpl. rewrite orb_false_r. apply Ascii.eqb_neq.
  destruct Hx as [<-|[<-|[<-|[]]]]; assumption.
Qed.

Lemma escapeXml_no_raw (s : string) :
  freeOf ["<"; ">"; JS.dquote]%char (escapeXml s).
Proof.
  intros x Hx. rewrite escapeXml_each.
  induction s as [|c r IH]; [reflexivity|].
  simpl. rewrite JSFacts.includes_char_append, IH, (escapeChar_no_raw c x Hx).
  reflexivity.
Qed.

Lemma escapeXml_keeps_apostrophe (s : string) :
  JS.includes_char JS.apostrophe (escapeXml s) = JS.includes_char JS.apostrophe s.
Proof.
  rewrite escapeXml_each.
  induction s as [|c r IH]; [reflexivity|].
  simpl. rewrite JSFacts.includes_char_append, IH. f_equal.
  unfold escapeChar.
  destruct (Ascii.eqb_spec c "&") as [->|Hamp]; [reflexivity|].
  destruct (Ascii.eqb_spec c JS.dquote) as [->|Hq]; [reflexivity|].
  destruct (Ascii.eqb_spec c "<") as [->|Hlt]; [reflexivity|].
  destruct (Ascii.eqb_spec c ">") as [->|Hgt]; [reflexivity|].
  simpl. now rewrite orb_false_r.
Qed.

(** The two locators enter the document between the [BaseURL] tags
    and nowhere else. *)
Lemma mpdOf_frames (videoFormat audioFormat : InnertubeFormat) (d : option number) :
  exists head middle tail : string,
    forall videoUrl audioUrl : string,
      mpdOf videoFormat audioFormat d videoUrl audioUrl
      = (head ++ "<BaseURL>" ++ videoUrl ++ "</BaseURL>" ++ middle
         ++ "<BaseURL>" ++ audioUrl ++ "</BaseURL>" ++ tail)%string.
Proof.
  unfold mpdOf. cbv zeta.
  set (iso := ("PT" ++ showNumber (number_or d 300) ++ "S")%string).
  set (vc := JS.trim (JS.replaceAll JS.dquote "" (codecs (parseMimeType (mimeType videoFormat))))).
  set (ac := JS.trim (JS.replaceAll JS.dquote "" (codecs (parseMimeType (mimeType audioFormat))))).
  set (vm := JS.trim (hd ""%string (JS.split ";" (mimeType videoFormat)))).
  set (am := JS.trim (hd ""%string (JS.split ";" (mimeType audioFormat)))).
  set (wd := JS.show (JS.nullish (width videoFormat) 1920)).
  set (ht := JS.show (JS.nullish (height videoFormat) 1080)).
  set (vb := JS.show (JS.nullish (bitrate videoFormat) 2000000)).
  set (ab := JS.show (JS.nullish (bitrate audioFormat) 128000)).
  set (sr := nullishString (audioSampleRate audioFormat) "44100").
  set (vInit := rangeText (initRange videoFormat)).
  set (vIndex := rangeText (indexRange videoFormat)).
  set (aInit := rangeText (initRange audioFormat)).
  set (aIndex := rangeText (indexRange audioFormat)).
  clearbody iso vc ac vm am wd ht vb ab sr vInit vIndex aInit aIndex.
  exists (String.concat nl
            [ ("<?xml" ++ attr "version" "1.0" ++ attr "encoding" "UTF-8" ++ "?>")%string;
              ("<MPD" ++ attr "xmlns" "urn:mpeg:dash:schema:mpd:2011" ++ attr "type" "static"
                 ++ attr "mediaPresentationDuration" iso
                 ++ attr "minBufferTime" "PT2S"
                 ++ attr "profiles" "urn:mpeg:dash:profile:isoff-on-demand:2011" ++ ">")%string;
              ("  <Period" ++ attr "duration" iso ++ ">")%string;
              ("    <AdaptationSet" ++ attr "id" "1" ++ attr "mimeType" vm
                 ++ attr "codecs" vc ++ attr "width" wd ++ attr "height" ht
                 ++ attr "subsegmentAlignment" "true"
                 ++ attr "subsegmentStartsWithSAP" "1" ++ ">")%string;
              ("      <Representation" ++ attr "id" "v1" ++ attr "bandwidth" vb
                 ++ attr "width" wd ++ attr "height" ht ++ ">")%string;
              "        "%string ]).
  exists (nl ++ String.concat nl
            [ ("        <SegmentBase" ++ attr "indexRange" vIndex ++ ">")%string;
              ("          <Initialization" ++ attr "range" vInit ++ "/>")%string;
              "        </SegmentBase>"%string;
              "      </Representation>"%string;
              "    </AdaptationSet>"%string;
              ("    <AdaptationSet" ++ attr "id" "2" ++ attr "mimeType" am
                 ++ attr "codecs" ac ++ attr "lang" "en"
                 ++ attr "subsegmentAlignment" "true"
                 ++ attr "subsegmentStartsWithSAP" "1" ++ ">")%string;
              ("      <Representation" ++ attr "id" "a1" ++ attr "bandwidth" ab
                 ++ attr "audioSamplingRate" sr ++ ">")%string;
              "        "%string ])%string.
  exists (nl ++ String.concat nl
            [ ("        <SegmentBase" ++ attr "indexRange" aIndex ++ ">")%string;
              ("          <Initialization" ++ attr "range" aInit ++ "/>")%string;
              "        </SegmentBase>"%string;
              "      </Representation>"%string;
              "    </AdaptationSet>"%string;
              "  </Period>"%string;
              "</MPD>"%string ])%string.
  intros videoUrl audioUrl.
  unfold mpdTemplate, attr. cbn [String.concat].
  repeat rewrite JSFacts.append_assoc.
  cbn [append]. reflexivity.
Qed.

(** When the file system is there and the write resolves, the file
    written holds the document with both locators escaped. *)
Lemma writeDash_success (rt : Runtime) (videoFormat audioFormat : InnertubeFormat)
  (videoId : string) (d : option number) (w : World) (cacheDir vu au : string) :
  import_FileSystem rt = true ->
  cacheDirectory rt = Some cacheDir -> JS.truthy cacheDir = true ->
  url videoFormat = Some vu -> url audioFormat = Some au ->
  writeAsStringAsync rt (manifestPath cacheDir videoId)
    (mpdOf videoFormat audioFormat d (escapeXml vu) (escapeXml au)) = true ->
  writeDashManifestToFile rt videoFormat audioFormat videoId d w
  = (Normal (Some (manifestPath cacheDir videoId)),
     withFile w (manifestPath cacheDir videoId)
       (mpdOf videoFormat audioFormat d (escapeXml vu) (escapeXml au))).
Proof.
  intros Hi Hc Ht Hv Ha Hw.
  unfold writeDashManifestToFile, try_catch, bind, await_import, escapeXml_url, await_write.
  rewrite Hi, Hc, Ht, Hv, Ha. unfold ret. cbv beta iota.
  unfold manifestPath in Hw. cbn [negb]. cbv beta iota. rewrite Hw. reflexivity.
Qed.

(** The synthesizer never throws, and sends nothing. *)
Lemma writeDash_returns (rt : Runtime) (videoFormat audioFormat : InnertubeFormat)
  (videoId : string) (d : option number) (w : World) :
  exists r w',
    writeDashManifestToFile rt videoFormat audioFormat videoId d w = (Normal r, w')
    /\ sent w' = sent w.
Proof.
  unfold writeDashManifestToFile, try_catch, bind, await_import, escapeXml_url,
    await_write, ret, throw.
  destruct (import_FileSystem rt); [|now eauto].
  destruct (cacheDirectory rt) as [dir|]; [|now eauto].
  destruct (negb (JS.truthy dir)); [now eauto|].
  destruct (url videoFormat); [|now eauto].
  destruct (url audioFormat); [|now eauto].
  destruct (writeAsStringAsync rt _ _); now eauto.
Qed.

(** A write that does not resolve makes the synthesizer return null,
    with nothing written. *)
Lemma writeDash_write_fails (rt : Runtime) (videoFormat audioFormat : InnertubeFormat)
  (videoId : string) (d : option number) (w : World) :
  (forall path text, writeAsStringAsync rt path text = false) ->
  writeDashManifestToFile rt videoFormat audioFormat videoId d w = (Normal None, w).
Proof.
  intros Hw.
  unfold writeDashManifestToFile, try_catch, bind, await_import, escapeXml_url,
    await_write, ret, throw.
  destruct (import_FileSystem rt); [|reflexivity].
  destruct (cacheDirectory rt) as [dir|]; [|reflexivity].
  destruct (negb (JS.truthy dir)); [reflexivity|].
  destruct (url videoFormat); [|reflexivity].
  destruct (url audioFormat); [|reflexivity].
  now rewrite Hw.
Qed.

(** C5, as the code has it. Every locator embedded in the manifest
    goes through [escapeXml], which rewrites four characters: the
    ampersand, the double quote and the two angle brackets, each by its
    entity, in one pass; the escaped text holds no raw angle bracket or
    double quote. The apostrophe is not rewritten: the escaped text
    holds one exactly when the locator does. The document written to
    the file holds the two escaped locators between its [BaseURL] tags
    and depends on them nowhere else. *)
Theorem locators_escaped_for_four_characters :
  (forall locator : string, escapeXml locator = escapeEach locator)
  /\ (forall locator : string, freeOf ["<"; ">"; JS.dquote]%char (escapeXml locator))
  /\ (forall locator : string,
         JS.includes_char JS.apostrophe (escapeXml locator)
         = JS.includes_char JS.apostrophe locator)
  /\ (forall (videoFormat audioFormat : InnertubeFormat) (d : option number),
         exists head middle tail : string,
           forall videoUrl audioUrl : string,
             mpdOf videoFormat audioFormat d videoUrl audioUrl
             = (head ++ "<BaseURL>" ++ videoUrl ++ "</BaseURL>" ++ middle
                ++ "<BaseURL>" ++ audioUrl ++ "</BaseURL>" ++ tail)%string)
  /\ (forall (rt : Runtime) (videoFormat audioFormat : InnertubeFormat)
             (videoId : string) (d : option number) (w : World)
             (cacheDir vu au : string),
         import_FileSystem rt = true ->
         cacheDirectory rt = Some cacheDir -> JS.truthy cacheDir = true ->
         url videoFormat = Some vu -> url audioFormat = Some au ->
         writeAsStringAsync rt (manifestPath cacheDir videoId)
           (mpdOf videoFormat audioFormat d (escapeXml vu) (escapeXml au)) = true ->
         writeDashManifestToFile rt videoFormat audioFormat videoId d w
         = (Normal (Some (manifestPath cacheDir videoId)),
            withFile w (manifestPath cacheDir videoId)
              (mpdOf videoFormat audioFormat d (escapeXml vu) (escapeXml au)))).
Proof.
  split; [exact escapeXml_each|]. split; [exact escapeXml_no_raw|].
  split; [exact escapeXml_keeps_apostrophe|]. split; [exact mpdOf_frames|].
  exact writeDash_success.
Qed.

(** A manifest written for two concrete descriptors: the ampersand of
    the locator is escaped in the file. *)
Lemma locators_escaped_example :
  writeDashManifestToFile (scenarioRuntime scenarioFetch true) muxed18 muxed22
    "dQw4w9WgXcQ" None emptyWorld
  = (Normal (Some "file:///cache/trailer_dQw4w9WgXcQ.mpd"%string),
     withFile emptyWorld "file:///cache/trailer_dQw4w9WgXcQ.mpd"
       (mpdOf muxed18 muxed22 None
          "https://example.invalid/18?a=1&amp;b='2'" "https://example.invalid/22")).
Proof.
  apply (proj2 (proj2 (proj2 (proj2 locators_escaped_for_four_characters)))
           (scenarioRuntime scenarioFetch true) muxed18 muxed22 "dQw4w9WgXcQ"%string None emptyWorld
           "file:///cache/"%string
           "https://example.invalid/18?a=1&b='2'"%string
           "https://example.invalid/22"%string);
    reflexivity.
Defined.

(** The fifth reserved character is not escaped: a locator with an
    apostrophe comes out of [escapeXml] unchanged, so it is false that
    the escaped text of every locator is free of the raw quote
    characters and angle brackets. *)
Lemma apostrophe_not_escaped :
  escapeXml "https://example.invalid/v?sig='x'" = "https://example.invalid/v?sig='x'"%string
  /\ ~ (forall locator : string,
           freeOf ["<"; ">"; JS.dquote; JS.apostrophe]%char (escapeXml locator)).
Proof.
  split; [reflexivity|].
  intros H.
  specialize (H "https://example.invalid/v?sig='x'"%string JS.apostrophe).
  assert (Hin : In JS.apostrophe ["<"; ">"; JS.dquote; JS.apostrophe]%char)
    by (simpl; tauto).
  specialize (H Hin). vm_compute in H. discriminate H.
Qed.

End ManifestFacts.

(* ===================================================================== *)
(** ** The negotiation chain and the orchestrator *)
(* ===================================================================== *)

Module ChainFacts.
Import YouTubeExtractor Spec Examples SelectorFacts ManifestFacts.
Local Open Scope list_scope.

(** One call: the request is sent, nothing is thrown. *)
Lemma fetchPlayerResponse_eq (rt : Runtime) (videoId : string) (c : Client) (w : World) :
  fetchPlayerResponse rt videoId (context c) (userAgent c) w
  = (Normal (answerOf (fetch rt (sent w) (requestOf videoId c))),
     afterRequests w [requestOf videoId c]).
Proof.
  unfold fetchPlayerResponse, try_catch, bind, await_fetch, await_json, answerOf,
    afterRequests, requestOf, ret, throw.
  destruct (fetch rt (sent w) _) as [| |r]; try reflexivity.
  destruct (ok r); simpl; [|reflexivity].
  destruct (body r); reflexivity.
Qed.

Lemma blocked_iff (resp : InnertubePlayerResponse) :
  blocked resp = true <-> hasStatus resp "UNPLAYABLE" \/ hasStatus resp "LOGIN_REQUIRED".
Proof.
  unfold blocked, hasStatus. destruct (playabilityStatus resp) as [ps|].
  - rewrite orb_true_iff, !String.eqb_eq. split.
    + intros [H|H]; [left|right]; now exists ps.
    + intros [(ps' & E & H)|(ps' & E & H)]; inversion E; subst; tauto.
  - split; [discriminate|]. intros [(ps & E & _)|(ps & E & _)]; discriminate.
Qed.

Lemma usable_iff (resp : InnertubePlayerResponse) :
  (0 <? List.length (parseMuxedFormats resp))%nat
  || (0 <? List.length (parseAdaptiveFormats resp))%nat = true
  <-> usable resp.
Proof.
  unfold usable. now rewrite orb_true_iff, !JSFacts.length_pos_cons.
Qed.

(** An answer is accepted or moved past, never both. *)
Lemma advances_or_accepts (o : FetchOutcome) :
  Advances o <-> ~ exists resp, Accepts o resp.
Proof.
  split.
  - intros HA (resp & r & Ho & Hok & Hb & Hu1 & Hu2 & Hus).
    destruct HA as [HA|[HA|(r' & HA & Hr)]]; try congruence.
    assert (r' = r) by congruence. subst r'.
    destruct Hr as [Hr|[Hr|(resp' & Hb' & Hr)]]; try congruence.
    assert (resp' = resp) by congruence. subst resp'. tauto.
  - intros HN. destruct o as [| |r]; [now left|now right; left|].
    right; right. exists r. split; [reflexivity|].
    destruct (ok r) eqn:Hok; [|now left].
    destruct (body r) as [resp|] eqn:Hb; [|now right; left].
    right; right. exists resp. split; [reflexivity|].
    destruct (blocked resp) eqn:Hbl.
    + apply blocked_iff in Hbl. tauto.
    + destruct ((0 <? List.length (parseMuxedFormats resp))%nat
                || (0 <? List.length (parseAdaptiveFormats resp))%nat) eqn:Hu.
      * exfalso. apply HN. exists resp, r.
        assert (~ (hasStatus resp "UNPLAYABLE" \/ hasStatus resp "LOGIN_REQUIRED")).
        { rewrite <- blocked_iff. congruence. }
        apply usable_iff in Hu. tauto.
      * right; right. rewrite <- usable_iff. congruence.
Qed.

(** One turn of the loop on an answer the chain moves past. *)
Lemma tryClients_advance (rt : Runtime) (videoId : string) (c : Client)
  (rest : list Client) (w : World) :
  Advances (fetch rt (sent w) (requestOf videoId c)) ->
  tryClients rt videoId (c :: rest) w
  = tryClients rt videoId rest (afterRequests w [requestOf videoId c]).
Proof.
  intros HA. cbn [tryClients]. unfold bind at 1. rewrite fetchPlayerResponse_eq.
  destruct HA as [HA|[HA|(r & HA & Hr)]]; rewrite HA; simpl; try reflexivity.
  destruct Hr as [Hr|[Hr|(resp & Hb & Hr)]].
  - now rewrite Hr.
  - rewrite Hr. now destruct (ok r).
  - rewrite Hb. destruct (ok r); [|reflexivity].
    destruct (blocked resp) eqn:Hbl; [reflexivity|].
    destruct Hr as [Hr|[Hr|Hr]].
    + assert (blocked resp = true) by (apply blocked_iff; tauto). congruence.
    + assert (blocked resp = true) by (apply blocked_iff; tauto). congruence.
    + destruct ((0 <? List.length (parseMuxedFormats resp))%nat
                || (0 <? List.length (parseAdaptiveFormats resp))%nat) eqn:Hu;
        [|reflexivity].
      apply usable_iff in Hu. contradiction.
Qed.

(** One turn of the loop on an answer the chain accepts. *)
Lemma tryClients_accept (rt : Runtime) (videoId : string) (c : Client)
  (rest : list Client) (w : World) (resp : InnertubePlayerResponse) :
  Accepts (fetch rt (sent w) (requestOf videoId c)) resp ->
  tryClients rt videoId (c :: rest) w
  = (Normal (parseMuxedFormats resp, parseAdaptiveFormats resp, Some resp),
     afterRequests w [requestOf videoId c]).
Proof.
  intros (r & Ho & Hok & Hb & Hu1 & Hu2 & Hus).
  cbn [tryClients]. unfold bind at 1. rewrite fetchPlayerResponse_eq, Ho. simpl.
  rewrite Hok, Hb.
  destruct (blocked resp) eqn:Hbl; [apply blocked_iff in Hbl; tauto|].
  apply usable_iff in Hus. now rewrite Hus.
Qed.

Lemma answerAt_zero (rt : Runtime) (videoId : string) (cs : list Client)
  (w : World) (c : Client) :
  answerAt rt videoId cs w 0 c = fetch rt (sent w) (requestOf videoId c).
Proof. unfold answerAt. simpl. now rewrite app_nil_r. Qed.

Lemma answerAt_succ (rt : Runtime) (videoId : string) (c0 : Client) (cs : list Client)
  (w : World) (j : nat) (c : Client) :
  answerAt rt videoId (c0 :: cs) w (S j) c
  = answerAt rt videoId cs (afterRequests w [requestOf videoId c0]) j c.
Proof. unfold answerAt, afterRequests. simpl. now rewrite <- app_assoc. Qed.

Lemma afterRequests_app (w : World) (a b : list Request) :
  afterRequests (afterRequests w a) b = afterRequests w (a ++ b).
Proof. unfold afterRequests. simpl. now rewrite app_assoc. Qed.

(** The chain stops at the first profile whose answer it accepts,
    having sent one request to each profile up to that one. *)
Lemma tryClients_first_accepted (rt : Runtime) (videoId : string) (cs : list Client) :
  forall (w : World) (k : nat) (c : Client) (resp : InnertubePlayerResponse),
    nth_error cs k = Some c ->
    (forall j cj, (j < k)%nat -> nth_error cs j = Some cj ->
                  Advances (answerAt rt videoId cs w j cj)) ->
    Accepts (answerAt rt videoId cs w k c) resp ->
    tryClients rt videoId cs w
    = (Normal (parseMuxedFormats resp, parseAdaptiveFormats resp, Some resp),
       afterRequests w (map (requestOf videoId) (firstn (S k) cs))).
Proof.
  induction cs as [|c0 cs IH]; intros w k c resp Hk Hadv Hacc;
    [destruct k; discriminate|].
  destruct k as [|k].
  - simpl in Hk. inversion Hk; subst c0.
    rewrite answerAt_zero in Hacc. rewrite (tryClients_accept _ _ _ _ _ _ Hacc).
    reflexivity.
  - pose proof (Hadv 0%nat c0 ltac:(lia) eq_refl) as H0. rewrite answerAt_zero in H0.
    rewrite (tryClients_advance _ _ _ _ _ H0).
    rewrite (IH _ k c resp).
    + now rewrite afterRequests_app.
    + exact Hk.
    + intros j cj Hj Hn. rewrite <- (answerAt_succ _ _ c0). apply Hadv; [lia|exact Hn].
    + now rewrite <- (answerAt_succ _ _ c0).
Qed.

(** When no answer is accepted every profile was asked once, in order,
    and the loop variables keep their initial values. *)
Lemma tryClients_exhausted (rt : Runtime) (videoId : string) (cs : list Client) :
  forall (w : World),
    (forall j cj, nth_error cs j = Some cj -> Advances (answerAt rt videoId cs w j cj)) ->
    tryClients rt videoId cs w
    = (Normal ([], [], None), afterRequests w (map (requestOf videoId) cs)).
Proof.
  induction cs as [|c0 cs IH]; intros w Hadv.
  - unfold afterRequests. simpl. rewrite app_nil_r. now destruct w.
  - pose proof (Hadv 0%nat c0 eq_refl) as H0. rewrite answerAt_zero in H0.
    rewrite (tryClients_advance _ _ _ _ _ H0). rewrite IH.
    + now rewrite afterRequests_app.
    + intros j cj Hn. rewrite <- (answerAt_succ _ _ c0). now apply Hadv.
Qed.

(** *** The orchestrator *)

(** The loop never throws; it ends with the initial variables or with
    a classified response. *)
Lemma tryClients_returns (rt : Runtime) (videoId : string) (cs : list Client) :
  forall w : World,
    exists vars w',
      tryClients rt videoId cs w = (Normal vars, w')
      /\ files w' = files w
      /\ (vars = ([], [], None)
          \/ exists resp, vars = (parseMuxedFormats resp, parseAdaptiveFormats resp, Some resp)
                          /\ usable resp).
Proof.
  induction cs as [|c cs IH]; intros w.
  - exists ([], [], None), w. simpl. unfold ret. auto.
  - cbn [tryClients]. unfold bind at 1. rewrite fetchPlayerResponse_eq.
    destruct (IH (afterRequests w [requestOf videoId c])) as (v & w' & Hv & Hf & Hs).
    destruct (answerOf _) as [resp|]; [|now exists v, w'].
    destruct (blocked resp); [now exists v, w'|].
    destruct ((0 <? List.length (parseMuxedFormats resp))%nat
              || (0 <? List.length (parseAdaptiveFormats resp))%nat) eqn:Hu;
      [|now exists v, w'].
    eexists; eexists. split; [reflexivity|]. split; [reflexivity|].
    right. exists resp. split; [reflexivity|]. now apply usable_iff.
Qed.

(** The Android branch never throws and sends nothing. *)
Lemma tryDash_returns (rt : Runtime) (platform : option Platform) (videoId : string)
  (adaptiveFormats : list InnertubeFormat) (d : option number) (w : World) :
  exists r w',
    tryDash rt platform videoId adaptiveFormats d w = (Normal r, w')
    /\ sent w' = sent w.
Proof.
  unfold tryDash.
  destruct platform as [[|]|]; try (now exists None, w).
  destruct (0 <? List.length adaptiveFormats)%nat; [|now exists None, w].
  destruct (pickBestAdaptiveVideo adaptiveFormats) as [v|]; [|now exists None, w].
  destruct (pickBestAdaptiveAudio adaptiveFormats) as [a|]; [|now exists None, w].
  unfold bind.
  destruct (writeDash_returns rt v a videoId d w) as (r & w' & Hr & Hs).
  rewrite Hr. destruct (JS.truthy_opt r); eexists; eexists; split; eauto; reflexivity.
Qed.

(** [extract] from the end of the loop on. *)
Lemma extract_after_loop (rt : Runtime) (input videoId : string)
  (platform : option Platform) (w w1 : World)
  (muxedFormats adaptiveFormats : list InnertubeFormat)
  (playerResponse : option InnertubePlayerResponse) :
  extractVideoId (new_URL rt) input = Some videoId ->
  tryClients rt videoId clients w = (Normal (muxedFormats, adaptiveFormats, playerResponse), w1) ->
  extract rt input platform w
  = if (List.length muxedFormats =? 0)%nat && (List.length adaptiveFormats =? 0)%nat
    then (Normal None, w1)
    else
      match tryDash rt platform videoId adaptiveFormats
              (durationOf (detailsOf playerResponse)) w1 with
      | (Normal dash, w2) =>
          (Normal (Some (resultOf videoId muxedFormats playerResponse
                           (bestOf dash muxedFormats adaptiveFormats))), w2)
      | (Thrown, w2) => (Thrown, w2)
      end.
Proof.
  intros Hid Hloop. unfold extract. rewrite Hid. unfold bind at 1. rewrite Hloop.
  cbv beta iota.
  destruct ((List.length muxedFormats =? 0)%nat && (List.length adaptiveFormats =? 0)%nat);
    [reflexivity|].
  unfold bind, durationOf, detailsOf.
  destruct (tryDash _ _ _ _ _ _) as [[dash|] w2]; reflexivity.
Qed.

(** [extract] never throws. *)
Lemma extract_returns (rt : Runtime) (input : string) (platform : option Platform)
  (w : World) :
  exists r w', extract rt input platform w = (Normal r, w').
Proof.
  destruct (extractVideoId (new_URL rt) input) as [videoId|] eqn:Hid.
  - destruct (tryClients_returns rt videoId clients w) as ([[m a] pr] & w1 & Hl & _ & _).
    rewrite (extract_after_loop _ _ _ platform _ _ _ _ _ Hid Hl).
    destruct ((List.length m =? 0)%nat && (List.length a =? 0)%nat); [now eauto|].
    destruct (tryDash_returns rt platform videoId a (durationOf (detailsOf pr)) w1)
      as (dash & w2 & Hd & _).
    rewrite Hd. eauto.
  - unfold extract. rewrite Hid. unfold ret. eauto.
Qed.

Lemma getBestStreamUrl_of_extract (rt : Runtime) (input : string)
  (platform : option Platform) (w w' : World) (r : option YouTubeExtractionResult) :
  extract rt input platform w = (Normal r, w') ->
  getBestStreamUrl rt input platform w
  = (Normal match r with
            | Some res => match bestStream res with
                          | Some s => Stream.url s
                          | None => None
                          end
            | None => None
            end, w').
Proof.
  intros H. unfold getBestStreamUrl, bind. now rewrite H.
Qed.

(** An identifier that cannot be normalised ends [extract] before any
    request. *)
Lemma extract_invalid_identifier (rt : Runtime) (input : string)
  (platform : option Platform) (w : World) :
  extractVideoId (new_URL rt) input = None ->
  extract rt input platform w = (Normal None, w).
Proof. intros H. unfold extract. now rewrite H. Qed.

(** C1. The catalog holds four profiles, ANDROID, IOS,
    TVHTML5_EMBEDDED and WEB_EMBEDDED, asked in that order. An answer
    is moved past exactly when it is not accepted: the request failed,
    the status is UNPLAYABLE or LOGIN_REQUIRED, or no descriptor is
    usable. If the [k]-th profile is the first whose answer is
    accepted, the loop ends with its classified response having sent
    exactly one request to each of the first [k+1] profiles, and
    [extract] returns a result without any further request. If all
    four answers are moved past, each profile was asked once and
    [extract] returns null. *)
Theorem chain_stops_at_first_accepted_profile :
  forall (rt : Runtime) (videoId : string) (w : World),
    map name clients = ["ANDROID"; "IOS"; "TVHTML5_EMBEDDED"; "WEB_EMBEDDED"]%string
    /\ (forall o, Advances o <-> ~ exists resp, Accepts o resp)
    /\ (forall (k : nat) (c : Client) (resp : InnertubePlayerResponse),
           nth_error clients k = Some c ->
           (forall j cj, (j < k)%nat -> nth_error clients j = Some cj ->
                         Advances (answerAt rt videoId clients w j cj)) ->
           Accepts (answerAt rt videoId clients w k c) resp ->
           tryClients rt videoId clients w
           = (Normal (parseMuxedFormats resp, parseAdaptiveFormats resp, Some resp),
              afterRequests w (map (requestOf videoId) (firstn (S k) clients)))
           /\ forall input platform,
                extractVideoId (new_URL rt) input = Some videoId ->
                exists result w',
                  extract rt input platform w = (Normal (Some result), w')
                  /\ sent w' = sent w ++ map (requestOf videoId) (firstn (S k) clients))
    /\ ((forall j cj, nth_error clients j = Some cj ->
                      Advances (answerAt rt videoId clients w j cj)) ->
        tryClients rt videoId clients w
        = (Normal ([], [], None), afterRequests w (map (requestOf videoId) clients))
        /\ forall input platform,
             extractVideoId (new_URL rt) input = Some videoId ->
             extract rt input platform w
             = (Normal None, afterRequests w (map (requestOf videoId) clients))).
Proof.
  intros rt videoId w. split; [reflexivity|]. split; [exact advances_or_accepts|]. split.
  - intros k c resp Hk Hadv Hacc.
    pose proof (tryClients_first_accepted rt videoId clients w k c resp Hk Hadv Hacc) as Hl.
    split; [exact Hl|]. intros input platform Hid.
    rewrite (extract_after_loop _ _ _ platform _ _ _ _ _ Hid Hl).
    destruct Hacc as (r & _ & _ & _ & _ & _ & Hus).
    apply usable_iff in Hus.
    assert (Hne : (List.length (parseMuxedFormats resp) =? 0)%nat
                  && (List.length (parseAdaptiveFormats resp) =? 0)%nat = false).
    { unfold Nat.ltb in Hus.
      destruct (parseMuxedFormats resp); [|reflexivity].
      destruct (parseAdaptiveFormats resp); [discriminate|reflexivity]. }
    rewrite Hne.
    destruct (tryDash_returns rt platform videoId (parseAdaptiveFormats resp)
                (durationOf (detailsOf (Some resp)))
                (afterRequests w (map (requestOf videoId) (firstn (S k) clients))))
      as (dash & w2 & Hd & Hs).
    rewrite Hd. eexists; eexists. split; [reflexivity|]. exact Hs.
  - intros Hadv.
    pose proof (tryClients_exhausted rt videoId clients w Hadv) as Hl.
    split; [exact Hl|]. intros input platform Hid.
    now rewrite (extract_after_loop _ _ _ platform _ _ _ _ _ Hid Hl).
Qed.

(** The chain scenario of the specification: the first profile brings
    no usable descriptor, the second is UNPLAYABLE, the third brings two
    muxed descriptors and is accepted; three requests were sent and the
    fourth profile was never asked. *)
Lemma chain_scenario :
  tryClients (scenarioRuntime scenarioFetch true) "dQw4w9WgXcQ" clients emptyWorld
  = (Normal ([muxed18; muxed22], [], Some twoMuxedResponse),
     {| sent := [ requestOf "dQw4w9WgXcQ" (nth 0 clients (hd_client clients));
                  requestOf "dQw4w9WgXcQ" (nth 1 clients (hd_client clients));
                  requestOf "dQw4w9WgXcQ" (nth 2 clients (hd_client clients)) ];
        files := [] |}).
Proof.
  refine (proj1 (proj1 (proj2 (proj2 (chain_stops_at_first_accepted_profile
            (scenarioRuntime scenarioFetch true) "dQw4w9WgXcQ"%string emptyWorld)))
            2%nat (nth 2 clients (hd_client clients)) twoMuxedResponse eq_refl _ _)).
  - intros j cj Hj Hn. destruct j as [|[|j]]; [| |lia].
    + inversion Hn; subst cj. right; right. eexists. split; [reflexivity|].
      right; right. exists emptyResponse. split; [reflexivity|].
      right; right. intros [H|H]; apply H; reflexivity.
    + inversion Hn; subst cj. right; right. eexists. split; [reflexivity|].
      right; right. exists unplayableResponse. split; [reflexivity|].
      left. eexists. split; reflexivity.
  - eexists. split; [reflexivity|]. split; [reflexivity|]. split; [reflexivity|].
    split; [|split].
    + intros (ps & E & H). inversion E; subst ps. discriminate H.
    + intros (ps & E & H). inversion E; subst ps. discriminate H.
    + left. discriminate.
Defined.

(** The Android branch when the manifest is written. *)
Lemma tryDash_success (rt : Runtime) (videoId : string)
  (adaptiveFormats : list InnertubeFormat) (d : option number) (w : World)
  (bestVideo bestAudio : InnertubeFormat) (cacheDir : string) :
  pickBestAdaptiveVideo adaptiveFormats = Some bestVideo ->
  pickBestAdaptiveAudio adaptiveFormats = Some bestAudio ->
  import_FileSystem rt = true ->
  cacheDirectory rt = Some cacheDir -> JS.truthy cacheDir = true ->
  (forall text, writeAsStringAsync rt (manifestPath cacheDir videoId) text = true) ->
  exists mpd,
    tryDash rt (Some android) videoId adaptiveFormats d w
    = (Normal (Some (dashStream (manifestPath cacheDir videoId) bestVideo bestAudio)),
       withFile w (manifestPath cacheDir videoId) mpd).
Proof.
  intros Hv Ha Hi Hc Ht Hw.
  destruct (pickBestAdaptiveVideo_Some _ _ Hv) as [Hin Hvo].
  destruct (pickBestAdaptiveAudio_Some _ _ Ha) as [_ Hao].
  unfold isVideoOnly in Hvo. unfold isAudioOnly in Hao.
  rewrite !andb_true_iff in Hvo, Hao.
  destruct Hvo as [[[Hvu _] _] _]. destruct Hao as [[[Hau _] _] _].
  apply JSFacts.truthy_opt_Some in Hvu, Hau.
  destruct Hvu as (vu & Hvu & _). destruct Hau as (au & Hau & _).
  unfold tryDash.
  assert (Hpos : (0 <? List.length adaptiveFormats)%nat = true).
  { apply JSFacts.length_pos_cons. intros ->. contradiction. }
  rewrite Hpos, Hv, Ha. unfold bind.
  rewrite (writeDash_success rt bestVideo bestAudio videoId d w cacheDir vu au
             Hi Hc Ht Hvu Hau (Hw _)).
  cbn [JS.truthy_opt]. unfold manifestPath at 1.
  rewrite (JSFacts.truthy_append _ _ Ht).
  eexists. reflexivity.
Qed.

(** The Android branch when no write resolves. *)
Lemma tryDash_write_fails (rt : Runtime) (platform : option Platform) (videoId : string)
  (adaptiveFormats : list InnertubeFormat) (d : option number) (w : World) :
  (forall path text, writeAsStringAsync rt path text = false) ->
  tryDash rt platform videoId adaptiveFormats d w = (Normal None, w).
Proof.
  intros Hw. unfold tryDash.
  destruct platform as [[|]|]; try reflexivity.
  destruct (0 <? List.length adaptiveFormats)%nat; [|reflexivity].
  destruct (pickBestAdaptiveVideo adaptiveFormats) as [v|]; [|reflexivity].
  destruct (pickBestAdaptiveAudio adaptiveFormats) as [a|]; [|reflexivity].
  unfold bind. now rewrite (writeDash_write_fails rt v a videoId d w Hw).
Qed.

Lemma not_both_empty (m a : list InnertubeFormat) :
  a <> [] -> (List.length m =? 0)%nat && (List.length a =? 0)%nat = false.
Proof.
  intros Ha. destruct a; [congruence|]. simpl. now rewrite andb_false_r.
Qed.

(** C6. On Android, when the loop ended with a response whose adaptive
    descriptors give both a video and an audio track: if the file
    system is there and the write of the manifest resolves, the best
    stream is the manifest file (the cache directory followed by
    trailer_, the identifier and .mpd) with the quality label and itag
    of the video track, the bitrate of the video track plus that of the
    audio track, and both presence flags true; if no write resolves,
    the synthesizer returns null without throwing and writes nothing,
    and the best stream is what muxed selection returns. *)
Theorem dash_best_stream_or_muxed_fallback :
  forall (rt : Runtime) (input videoId : string) (w w1 : World)
         (muxedFormats adaptiveFormats : list InnertubeFormat)
         (playerResponse : option InnertubePlayerResponse)
         (bestVideo bestAudio : InnertubeFormat),
    extractVideoId (new_URL rt) input = Some videoId ->
    tryClients rt videoId clients w
    = (Normal (muxedFormats, adaptiveFormats, playerResponse), w1) ->
    pickBestAdaptiveVideo adaptiveFormats = Some bestVideo ->
    pickBestAdaptiveAudio adaptiveFormats = Some bestAudio ->
    (forall cacheDir : string,
        import_FileSystem rt = true ->
        cacheDirectory rt = Some cacheDir -> JS.truthy cacheDir = true ->
        (forall text, writeAsStringAsync rt (manifestPath cacheDir videoId) text = true) ->
        exists mpd,
          extract rt input (Some android) w
          = (Normal (Some (resultOf videoId muxedFormats playerResponse
                             (Some (dashStream (manifestPath cacheDir videoId)
                                      bestVideo bestAudio)))),
             withFile w1 (manifestPath cacheDir videoId) mpd)
          /\ Stream.bitrate (dashStream (manifestPath cacheDir videoId) bestVideo bestAudio)
             = JS.nullish (bitrate bestVideo) 0 + JS.nullish (bitrate bestAudio) 0
          /\ Stream.hasAudio (dashStream (manifestPath cacheDir videoId) bestVideo bestAudio)
             = true
          /\ Stream.hasVideo (dashStream (manifestPath cacheDir videoId) bestVideo bestAudio)
             = true)
    /\ ((forall path text, writeAsStringAsync rt path text = false) ->
        writeDashManifestToFile rt bestVideo bestAudio videoId
          (durationOf (detailsOf playerResponse)) w1 = (Normal None, w1)
        /\ extract rt input (Some android) w
           = (Normal (Some (resultOf videoId muxedFormats playerResponse
                              (pickBestMuxedStream muxedFormats adaptiveFormats))),
              w1)).
Proof.
  intros rt input videoId w w1 muxedFormats adaptiveFormats playerResponse
    bestVideo bestAudio Hid Hl Hv Ha.
  assert (Hne : adaptiveFormats <> []).
  { destruct (pickBestAdaptiveVideo_Some _ _ Hv) as [Hin _]. intros ->. contradiction. }
  rewrite (extract_after_loop _ _ _ (Some android) _ _ _ _ _ Hid Hl).
  rewrite (not_both_empty _ _ Hne). split.
  - intros cacheDir Hi Hc Ht Hw.
    destruct (tryDash_success rt videoId adaptiveFormats
                (durationOf (detailsOf playerResponse)) w1 bestVideo bestAudio cacheDir
                Hv Ha Hi Hc Ht Hw) as (mpd & Hd).
    exists mpd. rewrite Hd. repeat split.
  - intros Hw. split; [now apply writeDash_write_fails|].
    now rewrite (tryDash_write_fails rt (Some android) videoId adaptiveFormats _ w1 Hw).
Qed.

(** A response with one video-only track of 5,000,000 bit/s and one
    audio-only track of 128,000 bit/s: with a working file system the
    best stream is the manifest at 5,128,000 bit/s; with a failing one
    there is no muxed descriptor, and the video-only track is the last
    resort. *)
Lemma dash_scenario :
  (exists mpd,
      extract (scenarioRuntime dashFetch true) "dQw4w9WgXcQ" (Some android) emptyWorld
      = (Normal (Some (resultOf "dQw4w9WgXcQ" [] (Some dashResponse)
                         (Some (dashStream "file:///cache/trailer_dQw4w9WgXcQ.mpd"
                                  (videoCandidate 137 5000000) (audioCandidate 140 128000))))),
         withFile (afterRequests emptyWorld [requestOf "dQw4w9WgXcQ" (hd_client clients)])
           "file:///cache/trailer_dQw4w9WgXcQ.mpd" mpd)
      /\ Stream.bitrate (dashStream "file:///cache/trailer_dQw4w9WgXcQ.mpd"
                           (videoCandidate 137 5000000) (audioCandidate 140 128000))
         = 5128000)
  /\ extract (scenarioRuntime dashFetch false) "dQw4w9WgXcQ" (Some android) emptyWorld
     = (Normal (Some (resultOf "dQw4w9WgXcQ" [] (Some dashResponse)
                        (pickBestMuxedStream [] [videoCandidate 137 5000000;
                                                 audioCandidate 140 128000]))),
        afterRequests emptyWorld [requestOf "dQw4w9WgXcQ" (hd_client clients)]).
Proof.
  split.
  - destruct (proj1 (dash_best_stream_or_muxed_fallback
                       (scenarioRuntime dashFetch true) "dQw4w9WgXcQ"%string
                       "dQw4w9WgXcQ"%string emptyWorld
                       (afterRequests emptyWorld [requestOf "dQw4w9WgXcQ" (hd_client clients)])
                       [] [videoCandidate 137 5000000; audioCandidate 140 128000]
                       (Some dashResponse)
                       (videoCandidate 137 5000000) (audioCandidate 140 128000)
                       eq_refl eq_refl eq_refl eq_refl)
                    "file:///cache/"%string eq_refl eq_refl eq_refl (fun _ => eq_refl))
      as (mpd & He & Hb & _).
    exists mpd. split; [exact He|exact Hb].
  - exact (proj2 (proj2 (dash_best_stream_or_muxed_fallback
                    (scenarioRuntime dashFetch false) "dQw4w9WgXcQ"%string
                    "dQw4w9WgXcQ"%string emptyWorld
                    (afterRequests emptyWorld [requestOf "dQw4w9WgXcQ" (hd_client clients)])
                    [] [videoCandidate 137 5000000; audioCandidate 140 128000]
                    (Some dashResponse)
                    (videoCandidate 137 5000000) (audioCandidate 140 128000)
                    eq_refl eq_refl eq_refl eq_refl)
                  (fun _ _ => eq_refl))).
Defined.

(** Without a muxed descriptor, an adaptive descriptor with a locator
    and a quality label carries no audio marker. *)
Lemma no_muxed_no_audio_marker (resp : InnertubePlayerResponse) (f : InnertubeFormat) :
  parseMuxedFormats resp = [] ->
  In f (parseAdaptiveFormats resp) ->
  JS.truthy_opt (qualityLabel f) = true ->
  JS.truthy_opt (audioQuality f) = false.
Proof.
  unfold parseMuxedFormats, parseAdaptiveFormats.
  destruct (streamingData resp) as [sd|]; [|intros _ []].
  intros Hm Hin Hq. apply app_eq_nil in Hm. destruct Hm as [_ Hm].
  apply filter_In in Hin. destruct Hin as [Hin Hu].
  destruct (JS.truthy_opt (audioQuality f)) eqn:Ea; [|reflexivity].
  assert (Hf : In f (filter (fun f => JS.truthy_opt (url f) && isMuxedFormat f)
                       (orEmpty (adaptiveFormats sd)))).
  { apply filter_In. split; [exact Hin|]. unfold isMuxedFormat.
    rewrite Hu, Ea, Hq. cbn. now rewrite orb_true_r. }
  rewrite Hm in Hf. contradiction.
Qed.

(** Neither a muxed descriptor nor a video-only candidate: muxed
    selection and its last resort both come back empty. *)
Lemma pickBestMuxedStream_nothing (resp : InnertubePlayerResponse) :
  parseMuxedFormats resp = [] ->
  filter isVideoOnly (parseAdaptiveFormats resp) = [] ->
  pickBestMuxedStream [] (parseAdaptiveFormats resp) = None.
Proof.
  intros Hm Hv. unfold pickBestMuxedStream.
  change (0 <? List.length (@nil InnertubeFormat))%nat with false. cbv iota.
  destruct (0 <? List.length (parseAdaptiveFormats resp))%nat; [|reflexivity].
  rewrite JSFacts.filter_none; [reflexivity|].
  intros f Hin.
  destruct (JS.truthy_opt (url f)) eqn:Eu; [|reflexivity].
  destruct (JS.truthy_opt (qualityLabel f)) eqn:Eq; [|reflexivity].
  destruct (JS.startsWith (mimeType f) "video/") eqn:Es; [|reflexivity].
  exfalso.
  pose proof (no_muxed_no_audio_marker resp f Hm Hin Eq) as Ea.
  assert (Hf : In f (filter isVideoOnly (parseAdaptiveFormats resp))).
  { apply filter_In. split; [exact Hin|]. unfold isVideoOnly. now rewrite Eu, Eq, Ea, Es. }
  rewrite Hv in Hf. contradiction.
Qed.

Lemma tryDash_no_video (rt : Runtime) (platform : option Platform) (videoId : string)
  (adaptiveFormats : list InnertubeFormat) (d : option number) (w : World) :
  filter isVideoOnly adaptiveFormats = [] ->
  tryDash rt platform videoId adaptiveFormats d w = (Normal None, w).
Proof.
  intros Hv. unfold tryDash.
  destruct platform as [[|]|]; try reflexivity.
  destruct (0 <? List.length adaptiveFormats)%nat; [|reflexivity].
  unfold pickBestAdaptiveVideo. rewrite Hv. reflexivity.
Qed.

(** C7. [extract] and [getBestStreamUrl] never throw. When the loop
    ended with an accepted response that has neither a muxed descriptor
    nor a video-only adaptive candidate, [extract] returns a result
    whose best stream is null and whose list of streams is empty, and
    [getBestStreamUrl] returns null, on either platform. *)
Theorem no_usable_formats_gives_null :
  forall (rt : Runtime) (input : string) (platform : option Platform) (w : World),
    (exists r w', extract rt input platform w = (Normal r, w'))
    /\ (exists u w', getBestStreamUrl rt input platform w = (Normal u, w'))
    /\ (forall (videoId : string) (muxedFormats adaptiveFormats : list InnertubeFormat)
               (resp : InnertubePlayerResponse) (w1 : World),
           extractVideoId (new_URL rt) input = Some videoId ->
           tryClients rt videoId clients w
           = (Normal (muxedFormats, adaptiveFormats, Some resp), w1) ->
           muxedFormats = [] ->
           filter isVideoOnly adaptiveFormats = [] ->
           extract rt input platform w
           = (Normal (Some (resultOf videoId [] (Some resp) None)), w1)
           /\ getBestStreamUrl rt input platform w = (Normal None, w1)).
Proof.
  intros rt input platform w.
  destruct (extract_returns rt input platform w) as (r & w' & Hr).
  split; [now eauto|]. split.
  { rewrite (getBestStreamUrl_of_extract _ _ _ _ _ _ Hr). eauto. }
  intros videoId muxedFormats adaptiveFormats resp w1 Hid Hl Hm Hv.
  destruct (tryClients_returns rt videoId clients w) as (vars & w1' & Hl' & _ & Hs).
  rewrite Hl in Hl'. inversion Hl'; subst vars w1'. clear Hl'.
  destruct Hs as [Hs|(resp' & Hs & Hus)]; [discriminate|].
  assert (Hr' : resp' = resp) by congruence. subst resp'.
  assert (Hpm : muxedFormats = parseMuxedFormats resp) by congruence.
  assert (Hpa : adaptiveFormats = parseAdaptiveFormats resp) by congruence.
  clear Hs.
  assert (Hm' : parseMuxedFormats resp = []) by congruence.
  assert (Hv' : filter isVideoOnly (parseAdaptiveFormats resp) = []) by congruence.
  assert (Hne : (List.length muxedFormats =? 0)%nat
                && (List.length adaptiveFormats =? 0)%nat = false).
  { destruct Hus as [Hus|Hus]; [congruence|]. apply not_both_empty. congruence. }
  assert (He : extract rt input platform w
               = (Normal (Some (resultOf videoId [] (Some resp) None)), w1)).
  { rewrite (extract_after_loop _ _ _ platform _ _ _ _ _ Hid Hl), Hne.
    rewrite (tryDash_no_video _ _ _ _ _ _ Hv). unfold bestOf.
    rewrite Hm, Hpa.
    now rewrite (pickBestMuxedStream_nothing resp Hm' Hv'). }
  split; [exact He|].
  now rewrite (getBestStreamUrl_of_extract _ _ _ _ _ _ He).
Qed.

(** A response with audio-only tracks alone, on Android: a result
    without a best stream, and no URL. *)
Lemma audio_only_scenario :
  extract (scenarioRuntime audioOnlyFetch true) "dQw4w9WgXcQ" (Some android) emptyWorld
  = (Normal (Some (resultOf "dQw4w9WgXcQ" [] (Some audioOnlyResponse) None)),
     afterRequests emptyWorld [requestOf "dQw4w9WgXcQ" (hd_client clients)])
  /\ getBestStreamUrl (scenarioRuntime audioOnlyFetch true) "dQw4w9WgXcQ" (Some android)
       emptyWorld
     = (Normal None, afterRequests emptyWorld [requestOf "dQw4w9WgXcQ" (hd_client clients)]).
Proof.
  exact (proj2 (proj2 (no_usable_formats_gives_null
                         (scenarioRuntime audioOnlyFetch true) "dQw4w9WgXcQ"%string
                         (Some android) emptyWorld))
           "dQw4w9WgXcQ"%string [] [audioCandidate 140 128000; audioCandidate 251 160000]
           audioOnlyResponse
           (afterRequests emptyWorld [requestOf "dQw4w9WgXcQ" (hd_client clients)])
           eq_refl eq_refl eq_refl eq_refl).
Defined.

End ChainFacts.

(* ===================================================================== *)
(** ** The URL cache *)
(* ===================================================================== *)

Module CacheFacts.
Import TrailerService CacheSpec JSFacts.
Local Open Scope list_scope.

Section MapFacts.
Context {V : Type}.
Implicit Types (m : list (string * V)) (k : string) (v : V).


Lemma get_delete_same k m : JS.Map.get k (JS.Map.delete k m) = None.
Proof.
  induction m as [|[k' v'] m IH]; simpl; [reflexivity|].
  destruct (String.eqb_spec k' k) as [->|Hne]; simpl; [exact IH|].
  destruct (String.eqb_spec k' k); [contradiction|exact IH].
Qed.

Lemma get_delete_other k k' m :
  k' <> k -> JS.Map.get k' (JS.Map.delete k m) = JS.Map.get k' m.
Proof.
  intros Hne. induction m as [|[k0 v0] m IH]; simpl; [reflexivity|].
  destruct (String.eqb_spec k0 k) as [->|Hk]; simpl.
  - destruct (String.eqb_spec k k'); [congruence|exact IH].
  - now rewrite IH.
Qed.

Lemma get_set_same k v m : JS.Map.get k (JS.Map.set k v m) = Some v.
Proof.
  induction m as [|[k' v'] m IH]; simpl.
  - now rewrite String.eqb_refl.
  - destruct (String.eqb_spec k' k) as [->|Hne]; simpl.
    + now rewrite String.eqb_refl.
    + destruct (String.eqb_spec k' k); [contradiction|exact IH].
Qed.

(** [set] on a new key appends: the key becomes the youngest. *)
Lemma set_absent k v m :
  ~ In k (JS.Map.keys m) -> JS.Map.set k v m = m ++ [(k, v)].
Proof.
  induction m as [|[k' v'] m IH]; simpl; intros H; [reflexivity|].
  destruct (String.eqb_spec k' k) as [->|Hne]; [tauto|].
  rewrite IH; [reflexivity|tauto].
Qed.

(** [set] on a present key keeps every key in its place. *)
Lemma set_keys_present k v m :
  In k (JS.Map.keys m) -> JS.Map.keys (JS.Map.set k v m) = JS.Map.keys m.
Proof.
  induction m as [|[k' v'] m IH]; simpl; intros H; [contradiction|].
  destruct (String.eqb_spec k' k) as [->|Hne]; [reflexivity|].
  simpl. f_equal. apply IH. destruct H; [contradiction|assumption].
Qed.

Lemma set_length_present k v m :
  In k (JS.Map.keys m) -> List.length (JS.Map.set k v m) = List.length m.
Proof.
  intros H. apply set_keys_present with (v := v) in H.
  unfold JS.Map.keys in H. apply (f_equal (@List.length _)) in H.
  now rewrite !length_map in H.
Qed.

Lemma delete_absent k m : ~ In k (JS.Map.keys m) -> JS.Map.delete k m = m.
Proof.
  induction m as [|[k' v'] m IH]; simpl; intros H; [reflexivity|].
  destruct (String.eqb_spec k' k) as [->|Hne]; [tauto|].
  simpl. f_equal. apply IH. tauto.
Qed.

(** Deleting the oldest key of a map with distinct keys removes its
    first entry and nothing else. *)
Lemma delete_first k v m :
  NoDup (JS.Map.keys ((k, v) :: m)) -> JS.Map.delete k ((k, v) :: m) = m.
Proof.
  intros H. inversion H; subst. simpl. rewrite String.eqb_refl. simpl.
  now apply delete_absent.
Qed.


End MapFacts.

(** *** Lookup *)

Lemma getCached_absent (now : Z) (key : string) (urlCache : Cache) :
  JS.Map.get key urlCache = None -> getCached now key urlCache = (None, urlCache).
Proof. intros H. unfold getCached. now rewrite H. Qed.

Lemma getCached_expired (now : Z) (key : string) (urlCache : Cache) (entry : CacheEntry) :
  JS.Map.get key urlCache = Some entry -> now > expiresAt entry ->
  getCached now key urlCache = (None, JS.Map.delete key urlCache).
Proof.
  intros H Hn. unfold getCached. rewrite H.
  destruct (Z.gtb_spec now (expiresAt entry)); [reflexivity|lia].
Qed.

Lemma getCached_manifest (now : Z) (key : string) (urlCache : Cache) (entry : CacheEntry) :
  JS.Map.get key urlCache = Some entry ->
  (exists p, url entry = (p ++ ".mpd")%string) ->
  getCached now key urlCache = (None, JS.Map.delete key urlCache).
Proof.
  intros H Hm. unfold getCached. rewrite H.
  apply endsWith_iff in Hm. rewrite Hm. now destruct (now >? expiresAt entry).
Qed.

Lemma getCached_hit (now : Z) (key : string) (urlCache : Cache) (entry : CacheEntry) :
  JS.Map.get key urlCache = Some entry -> now <= expiresAt entry ->
  ~ (exists p, url entry = (p ++ ".mpd")%string) ->
  getCached now key urlCache = (Some (url entry), urlCache).
Proof.
  intros H Hn Hm. unfold getCached. rewrite H.
  destruct (Z.gtb_spec now (expiresAt entry)); [lia|].
  destruct (JS.endsWith (url entry) ".mpd") eqn:E; [|reflexivity].
  apply endsWith_iff in E. contradiction.
Qed.

(** C4. A lookup at time [now]: an absent key is a miss and leaves the
    cache as it is; an entry whose expiry is before [now] is a miss and
    is deleted; an entry whose URL ends in .mpd is a miss and is
    deleted, whatever its expiry; any other entry, up to and including
    its expiry time, is a hit that returns its URL and leaves the cache
    as it is. After a deletion the key is absent and every other key
    reads as before. *)
Theorem getCached_misses_and_hits :
  forall (now : Z) (key : string) (urlCache : Cache),
    (JS.Map.get key urlCache = None -> getCached now key urlCache = (None, urlCache))
    /\ (forall entry : CacheEntry,
           JS.Map.get key urlCache = Some entry ->
           (now > expiresAt entry ->
            getCached now key urlCache = (None, JS.Map.delete key urlCache))
           /\ ((exists p, url entry = (p ++ ".mpd")%string) ->
               getCached now key urlCache = (None, JS.Map.delete key urlCache))
           /\ (now <= expiresAt entry ->
               ~ (exists p, url entry = (p ++ ".mpd")%string) ->
               getCached now key urlCache = (Some (url entry), urlCache)))
    /\ JS.Map.get key (JS.Map.delete key urlCache) = None
    /\ (forall other : string,
           other <> key ->
           JS.Map.get other (JS.Map.delete key urlCache) = JS.Map.get other urlCache).
Proof.
  intros now key urlCache. split; [apply getCached_absent|]. split.
  - intros entry H. split; [now apply getCached_expired|].
    split; [now apply getCached_manifest|now apply getCached_hit].
  - split; [apply get_delete_same|]. intros other Hne. now apply get_delete_other.
Qed.

(** The cache scenario of the specification: a direct URL stored at
    [t0] is a hit 4 h 59 min later and a miss, with the entry deleted,
    5 h 01 min later; a manifest reference stored at [t0] is a miss,
    with the entry deleted, one millisecond later. *)
Lemma cache_scenario :
  getCached (t0 + hours 4 + minutes 59) "dQw4w9WgXcQ" directCache
  = (Some "https://example.invalid/videoplayback?id=1"%string, directCache)
  /\ getCached (t0 + hours 5 + minutes 1) "dQw4w9WgXcQ" directCache = (None, [])
  /\ getCached (t0 + 1) "dQw4w9WgXcQ" manifestCache = (None, []).
Proof.
  split; [|split].
  - refine (proj2 (proj2 (proj1 (proj2 (getCached_misses_and_hits
              (t0 + hours 4 + minutes 59) "dQw4w9WgXcQ"%string directCache))
              {| url := "https://example.invalid/videoplayback?id=1";
                 expiresAt := t0 + CACHE_TTL_MS |} eq_refl)) _ _).
    + vm_compute. discriminate.
    + intros [p Hp]. apply (f_equal (fun s => JS.endsWith s ".mpd")) in Hp.
      rewrite (proj2 (endsWith_iff (p ++ ".mpd") ".mpd") (ex_intro _ p eq_refl)) in Hp.
      vm_compute in Hp. discriminate.
  - refine (proj1 (proj1 (proj2 (getCached_misses_and_hits
              (t0 + hours 5 + minutes 1) "dQw4w9WgXcQ"%string directCache))
              {| url := "https://example.invalid/videoplayback?id=1";
                 expiresAt := t0 + CACHE_TTL_MS |} eq_refl) _).
    vm_compute. reflexivity.
  - refine (proj1 (proj2 (proj1 (proj2 (getCached_misses_and_hits
              (t0 + 1) "dQw4w9WgXcQ"%string manifestCache))
              {| url := "file:///cache/trailer_dQw4w9WgXcQ.mpd";
                 expiresAt := t0 + CACHE_TTL_MS |} eq_refl)) _).
    exists "file:///cache/trailer_dQw4w9WgXcQ"%string. reflexivity.
Defined.

(** *** Store and eviction *)


Lemma keys_app (a b : Cache) : JS.Map.keys (a ++ b) = JS.Map.keys a ++ JS.Map.keys b.
Proof. unfold JS.Map.keys. apply map_app. Qed.

(** A put under a new key: the entry goes to the end, and when that
    makes more than 100 entries the first one, and only that one,
    goes. *)
Lemma setCache_new_key (now : Z) (key url : string) (c : Cache) :
  NoDup (JS.Map.keys c) ->
  (forall k, JS.Map.first_key c = Some k -> k <> ""%string) ->
  ~ In key (JS.Map.keys c) ->
  setCache now key url c
  = (if (List.length c <? 100)%nat then c else tl c)
      ++ [(key, {| TrailerService.url := url; expiresAt := now + CACHE_TTL_MS |})].
Proof.
  intros Hnd Ht Hnew. unfold setCache.
  rewrite (set_absent _ _ _ Hnew). unfold JS.Map.size.
  rewrite length_app. cbn [List.length].
  destruct (Nat.ltb_spec (List.length c) 100) as [Hlt|Hge].
  - destruct (Z.gtb_spec (Z.of_nat (List.length c + 1)) 100); [lia|reflexivity].
  - destruct (Z.gtb_spec (Z.of_nat (List.length c + 1)) 100); [|lia].
    destruct c as [|[k0 e0] c]; [simpl in Hge; lia|].
    cbn [JS.Map.first_key JS.Map.keys map hd_error app fst].
    assert (Hk0 : JS.truthy k0 = true).
    { unfold JS.truthy. apply negb_true_iff, String.eqb_neq. now apply Ht. }
    rewrite Hk0.
    change ((k0, e0) :: c ++ [(key, {| TrailerService.url := url;
                                       expiresAt := now + CACHE_TTL_MS |})])
      with ((k0, e0) :: (c ++ [(key, {| TrailerService.url := url;
                                        expiresAt := now + CACHE_TTL_MS |})])).
    rewrite delete_first; [reflexivity|].
    change (NoDup (JS.Map.keys (((k0, e0) :: c) ++ [(key, {| TrailerService.url := url;
                                        expiresAt := now + CACHE_TTL_MS |})]))).
    rewrite keys_app.
    apply NoDup_app; [exact Hnd|repeat constructor; intros []|].
    intros x Hx [Hx'|[]]. simpl in Hx'. subst x. contradiction.
Qed.

(** A put under a present key: the value is replaced where it stands;
    no key moves and, within the capacity, none goes. *)
Lemma setCache_present_key (now : Z) (key url : string) (c : Cache) :
  (List.length c <= 100)%nat -> In key (JS.Map.keys c) ->
  JS.Map.keys (setCache now key url c) = JS.Map.keys c
  /\ JS.Map.get key (setCache now key url c)
     = Some {| TrailerService.url := url; expiresAt := now + CACHE_TTL_MS |}.
Proof.
  intros Hle Hin. unfold setCache, JS.Map.size.
  rewrite (set_length_present _ _ _ Hin).
  destruct (Z.gtb_spec (Z.of_nat (List.length c)) 100); [lia|].
  split; [now apply set_keys_present|apply get_set_same].
Qed.












End CacheFacts.

(* ===================================================================== *)
(** ** The identifier normalizer *)
(* ===================================================================== *)

Module NormalizerFacts.
Import YouTubeExtractor Spec Examples JSFacts.
Local Open Scope list_scope.

Lemma idChar_not_space (c : ascii) : isIdChar c = true -> JS.is_space c = false.
Proof.
  destruct c as [[] [] [] [] [] [] [] []]; vm_compute; congruence.
Qed.

Lemma trimStart_id (s : string) : allIdChars s = true -> JS.trimStart s = s.
Proof.
  destruct s as [|c r]; [reflexivity|]. simpl. intros H.
  apply andb_true_iff in H. destruct H as [Hc _].
  now rewrite (idChar_not_space c Hc).
Qed.

Lemma trimEnd_id (s : string) : allIdChars s = true -> JS.trimEnd s = s.
Proof.
  induction s as [|c r IH]; [reflexivity|]. simpl. intros H.
  apply andb_true_iff in H. destruct H as [Hc Hr].
  rewrite (IH Hr). destruct r; [now rewrite (idChar_not_space c Hc)|reflexivity].
Qed.

Lemma Canonical_parts (id : string) :
  Canonical id <-> String.length id = 11%nat /\ allIdChars id = true.
Proof.
  unfold Canonical, isVideoIdPattern. now rewrite andb_true_iff, Nat.eqb_eq.
Qed.

Lemma isIdChar_iff (c : ascii) : isIdChar c = true <-> IdChar c.
Proof.
  unfold isIdChar, IdChar. cbv zeta.
  rewrite !orb_true_iff, !andb_true_iff, !Nat.leb_le, !Nat.eqb_eq. tauto.
Qed.

Lemma allIdChars_iff (s : string) :
  allIdChars s = true <-> forall c, In c (list_ascii_of_string s) -> IdChar c.
Proof.
  induction s as [|a s IH]; simpl.
  - split; [intros _ c []|reflexivity].
  - rewrite andb_true_iff, IH, isIdChar_iff. split.
    + intros [Ha Hs] c [<-|Hc]; auto.
    + intros H. split; [apply H; now left|]. intros c Hc. apply H. now right.
Qed.

(** Canonical means 11 characters, each of the class. *)
Lemma Canonical_class (id : string) :
  Canonical id
  <-> String.length id = 11%nat
      /\ forall c, In c (list_ascii_of_string id) -> IdChar c.
Proof. now rewrite Canonical_parts, allIdChars_iff. Qed.

Lemma trim_canonical (id : string) : Canonical id -> JS.trim id = id.
Proof.
  intros H. apply Canonical_parts in H. destruct H as [_ H].
  unfold JS.trim. rewrite (trimStart_id id H). now apply trimEnd_id.
Qed.

Lemma Canonical_truthy (id : string) : Canonical id -> JS.truthy id = true.
Proof.
  intros H. apply Canonical_parts in H. destruct H as [H _].
  destruct id; [discriminate|reflexivity].
Qed.

(** An input that is canonical once trimmed is returned trimmed. *)
Lemma extractVideoId_canonical (new_URL : string -> option URL) (input : string) :
  Canonical (JS.trim input) -> extractVideoId new_URL input = Some (JS.trim input).
Proof.
  intros H. unfold extractVideoId.
  assert (Ht : JS.truthy input = true).
  { destruct input; [|reflexivity]. apply Canonical_truthy in H. discriminate. }
  rewrite Ht. unfold Canonical in H. now rewrite H.
Qed.

Lemma takeId_Some (s id : string) :
  takeId s = Some id <-> Canonical id /\ exists tail, s = (id ++ tail)%string.
Proof.
  unfold takeId. split.
  - destruct (isVideoIdPattern (substring 0 11 s)) eqn:E; [|discriminate].
    intros H. inversion H; subst id. split; [exact E|].
    apply substring_take. now apply Canonical_parts in E.
  - intros [Hc [tail ->]].
    pose proof (proj1 (proj1 (Canonical_parts id) Hc)) as Hl.
    assert (Hs : substring 0 11 (id ++ tail) = id).
    { rewrite <- Hl. apply substring_head. }
    cbv zeta. rewrite Hs. unfold Canonical in Hc. now rewrite Hc.
Qed.

Lemma idAfter_Some (p s id : string) :
  idAfter p s = Some id
  <-> Canonical id /\ exists tail, s = (p ++ id ++ tail)%string.
Proof.
  unfold idAfter. split.
  - destruct (String.prefix p s) eqn:E; [|discriminate].
    apply prefix_iff in E. destruct E as [rest ->].
    rewrite substring_rest. intros H. apply takeId_Some in H.
    destruct H as [Hc [tail ->]]. eauto.
  - intros [Hc [tail ->]].
    rewrite (proj2 (prefix_iff p (p ++ id ++ tail)) (ex_intro _ _ eq_refl)).
    rewrite substring_rest. apply takeId_Some. eauto.
Qed.

Lemma search_sound (here : string -> option string) (s id : string) :
  search here s = Some id ->
  exists pre rest, s = (pre ++ rest)%string /\ here rest = Some id.
Proof.
  induction s as [|c s IH]; simpl.
  - destruct (here ""%string) eqn:E; [|discriminate].
    intros H. inversion H; subst. now exists ""%string, ""%string.
  - destruct (here (String c s)) eqn:E.
    + intros H. inversion H; subst. now exists ""%string, (String c s).
    + intros H. destruct (IH H) as (pre & rest & -> & Hr).
      now exists (String c pre), rest.
Qed.

Lemma search_complete (here : string -> option string) (s : string) :
  search here s = None ->
  forall pre rest, s = (pre ++ rest)%string -> here rest = None.
Proof.
  induction s as [|c s IH]; simpl.
  - destruct (here ""%string) eqn:E; [discriminate|].
    intros _ pre rest H. destruct pre; [|discriminate]. simpl in H. now subst.
  - destruct (here (String c s)) eqn:E; [discriminate|].
    intros H pre rest Hs. destruct pre as [|c' pre].
    + simpl in Hs. now subst.
    + inversion Hs; subst. now apply (IH H pre rest).
Qed.

Lemma pathIdHere_sound (s id : string) :
  pathIdHere s = Some id ->
  Canonical id
  /\ exists kw tail, In kw ["embed"; "shorts"; "v"]%string
                     /\ s = ("/" ++ kw ++ "/" ++ id ++ tail)%string.
Proof.
  unfold pathIdHere.
  destruct (idAfter "/embed/" s) as [a|] eqn:E1;
    [|destruct (idAfter "/shorts/" s) as [b|] eqn:E2].
  - intros H. inversion H; subst a. apply idAfter_Some in E1.
    destruct E1 as [Hc [tail ->]]. split; [exact Hc|].
    exists "embed"%string, tail. split; [simpl; tauto|reflexivity].
  - intros H. inversion H; subst b. apply idAfter_Some in E2.
    destruct E2 as [Hc [tail ->]]. split; [exact Hc|].
    exists "shorts"%string, tail. split; [simpl; tauto|reflexivity].
  - intros H. apply idAfter_Some in H.
    destruct H as [Hc [tail ->]]. split; [exact Hc|].
    exists "v"%string, tail. split; [simpl; tauto|reflexivity].
Qed.

Lemma pathIdHere_complete (kw id tail : string) :
  In kw ["embed"; "shorts"; "v"]%string -> Canonical id ->
  pathIdHere ("/" ++ kw ++ "/" ++ id ++ tail) = Some id.
Proof.
  intros Hkw Hc. unfold pathIdHere.
  destruct Hkw as [<-|[<-|[<-|[]]]].
  - change ("/" ++ "embed" ++ "/" ++ id ++ tail)%string
      with ("/embed/" ++ id ++ tail)%string.
    now rewrite (proj2 (idAfter_Some "/embed/" _ id) (conj Hc (ex_intro _ tail eq_refl))).
  - change (idAfter "/embed/" ("/" ++ "shorts" ++ "/" ++ id ++ tail)) with (@None string).
    change ("/" ++ "shorts" ++ "/" ++ id ++ tail)%string
      with ("/shorts/" ++ id ++ tail)%string.
    now rewrite (proj2 (idAfter_Some "/shorts/" _ id) (conj Hc (ex_intro _ tail eq_refl))).
  - change (idAfter "/embed/" ("/" ++ "v" ++ "/" ++ id ++ tail)) with (@None string).
    change (idAfter "/shorts/" ("/" ++ "v" ++ "/" ++ id ++ tail)) with (@None string).
    change ("/" ++ "v" ++ "/" ++ id ++ tail)%string with ("/v/" ++ id ++ tail)%string.
    now rewrite (proj2 (idAfter_Some "/v/" _ id) (conj Hc (ex_intro _ tail eq_refl))).
Qed.

Lemma vParamHere_sound (s id : string) :
  vParamHere s = Some id ->
  Canonical id
  /\ exists sep tail, In sep ["?"; "&"]%string /\ s = (sep ++ "v=" ++ id ++ tail)%string.
Proof.
  unfold vParamHere. destruct (idAfter "?v=" s) as [a|] eqn:E1.
  - intros H. inversion H; subst a. apply idAfter_Some in E1.
    destruct E1 as [Hc [tail ->]]. split; [exact Hc|].
    exists "?"%string, tail. split; [simpl; tauto|reflexivity].
  - intros H. apply idAfter_Some in H.
    destruct H as [Hc [tail ->]]. split; [exact Hc|].
    exists "&"%string, tail. split; [simpl; tauto|reflexivity].
Qed.

Lemma vParamHere_complete (sep id tail : string) :
  In sep ["?"; "&"]%string -> Canonical id ->
  vParamHere (sep ++ "v=" ++ id ++ tail) = Some id.
Proof.
  intros Hs Hc. unfold vParamHere.
  destruct Hs as [<-|[<-|[]]].
  - change ("?" ++ "v=" ++ id ++ tail)%string with ("?v=" ++ id ++ tail)%string.
    now rewrite (proj2 (idAfter_Some "?v=" _ id) (conj Hc (ex_intro _ tail eq_refl))).
  - change (idAfter "?v=" ("&" ++ "v=" ++ id ++ tail)) with (@None string).
    change ("&" ++ "v=" ++ id ++ tail)%string with ("&v=" ++ id ++ tail)%string.
    now rewrite (proj2 (idAfter_Some "&v=" _ id) (conj Hc (ex_intro _ tail eq_refl))).
Qed.

(** The path search finds an identifier exactly when the path has the
    path shape, and what it finds is in that shape. *)
Lemma search_path (path : string) :
  (forall id, search pathIdHere path = Some id -> PathShape path id)
  /\ ((exists id, PathShape path id) -> exists id', search pathIdHere path = Some id').
Proof.
  split.
  - intros id H. apply search_sound in H. destruct H as (pre & rest & -> & Hr).
    apply pathIdHere_sound in Hr. destruct Hr as (Hc & kw & tail & Hkw & ->).
    now exists pre, kw, tail.
  - intros (id & pre & kw & tail & Hkw & -> & Hc).
    destruct (search pathIdHere (pre ++ "/" ++ kw ++ "/" ++ id ++ tail)) as [id'|] eqn:E;
      [now exists id'|].
    pose proof (search_complete _ _ E pre _ eq_refl) as Hn.
    rewrite (pathIdHere_complete kw id tail Hkw Hc) in Hn. discriminate.
Qed.

(** The raw search, likewise. *)
Lemma search_param (raw : string) :
  (forall id, search vParamHere raw = Some id -> ParamShape raw id)
  /\ ((exists id, ParamShape raw id) -> exists id', search vParamHere raw = Some id').
Proof.
  split.
  - intros id H. apply search_sound in H. destruct H as (pre & rest & -> & Hr).
    apply vParamHere_sound in Hr. destruct Hr as (Hc & sep & tail & Hs & ->).
    now exists pre, sep, tail.
  - intros (id & pre & sep & tail & Hs & -> & Hc).
    destruct (search vParamHere (pre ++ sep ++ "v=" ++ id ++ tail)) as [id'|] eqn:E;
      [now exists id'|].
    pose proof (search_complete _ _ E pre _ eq_refl) as Hn.
    rewrite (vParamHere_complete sep id tail Hs Hc) in Hn. discriminate.
Qed.

(** The first path segment: what stands between the first character of
    the path and the next slash. *)
Lemma split_hd (seg rest : string) :
  JS.includes_char "/" seg = false ->
  hd ""%string (JS.split "/" (seg ++ "/" ++ rest)) = seg
  /\ hd ""%string (JS.split "/" seg) = seg.
Proof.
  induction seg as [|c seg IH]; simpl; intros H; [now split|].
  apply orb_false_iff in H. destruct H as [Hc Hs]. rewrite Hc.
  destruct (IH Hs) as [IH1 IH2]. split.
  - simpl in IH1.
    destruct (JS.split "/" (seg ++ String "/" rest)) as [|h t]; simpl in *; congruence.
  - destruct (JS.split "/" seg) as [|h t]; simpl in *; congruence.
Qed.

Lemma firstSegment_spec (c : ascii) (seg rest : string) :
  JS.includes_char "/" seg = false ->
  firstSegment (String c (seg ++ "/" ++ rest)) = seg
  /\ firstSegment (String c seg) = seg.
Proof.
  intros H. unfold firstSegment.
  assert (Hsub : forall x, substring 1 (String.length (String c x) - 1) (String c x) = x).
  { intros x. simpl. rewrite Nat.sub_0_r. apply substring_all. }
  rewrite !Hsub. now apply split_hd.
Qed.

(** The normalizer past its first test, by cases on the constructor. *)
Lemma extractVideoId_not_canonical (new_URL : string -> option URL) (input : string) :
  input <> ""%string -> ~ Canonical (JS.trim input) ->
  extractVideoId new_URL input
  = match new_URL input with
    | Some u =>
        if (hostname u =? "youtu.be")%string && isVideoIdPattern (firstSegment (pathname u))
        then Some (firstSegment (pathname u))
        else match searchParams_get u "v" with
             | Some v => if isVideoIdPattern v then Some v
                         else search pathIdHere (pathname u)
             | None => search pathIdHere (pathname u)
             end
    | None => search vParamHere input
    end.
Proof.
  intros Hne Hnc. unfold extractVideoId.
  assert (Ht : JS.truthy input = true) by (destruct input; [congruence|reflexivity]).
  rewrite Ht. cbn [negb].
  destruct (isVideoIdPattern (JS.trim input)) eqn:E; [contradiction|].
  destruct (new_URL input) as [u|]; [|reflexivity].
  cbv zeta. fold (firstSegment (pathname u)).
  assert (Hand : forall x, JS.truthy x && isVideoIdPattern x = isVideoIdPattern x).
  { intros x. destruct (isVideoIdPattern x) eqn:Ex; [|apply andb_false_r].
    now rewrite (Canonical_truthy _ Ex). }
  rewrite <- andb_assoc, Hand.
  destruct (searchParams_get u "v") as [v|]; [|reflexivity].
  now rewrite Hand.
Qed.

(** Every result is canonical. *)
Lemma extractVideoId_result_canonical (new_URL : string -> option URL) (input id : string) :
  extractVideoId new_URL input = Some id -> Canonical id.
Proof.
  intros H.
  destruct (isVideoIdPattern (JS.trim input)) eqn:E.
  - rewrite (extractVideoId_canonical new_URL input E) in H. now inversion H; subst.
  - assert (Hne : input <> ""%string).
    { intros ->. discriminate H. }
    rewrite (extractVideoId_not_canonical new_URL input Hne) in H
      by (unfold Canonical; congruence).
    destruct (new_URL input) as [u|].
    + destruct ((hostname u =? "youtu.be")%string
                && isVideoIdPattern (firstSegment (pathname u))) eqn:Es.
      * inversion H; subst. now apply andb_true_iff in Es.
      * destruct (searchParams_get u "v") as [v|].
        -- destruct (isVideoIdPattern v) eqn:Ev; [now inversion H; subst|].
           now apply (proj1 (search_path _)) in H as (? & ? & ? & _ & _ & ?).
        -- now apply (proj1 (search_path _)) in H as (? & ? & ? & _ & _ & ?).
    + now apply (proj1 (search_param _)) in H as (? & ? & ? & _ & _ & ?).
Qed.

(** C9. The normalizer depends on its input and on the platform's URL
    constructor alone. Canonical means 11 characters of the class
    A-Z, a-z, 0-9, underscore, hyphen. An input that is canonical once
    trimmed is returned trimmed. Every result is canonical, and normalizing a
    result returns it unchanged, whatever the URL constructor. For an
    input that is not canonical: when it parses as a URL, the short
    link shape returns its first path segment; failing that, the v
    query parameter is returned when canonical; failing that, the
    result is an identifier that follows an embed, shorts or v path
    segment, and there is one exactly when the path has such a
    segment; when it does not parse as a URL, the result is an
    identifier that follows ?v= or &v= in the raw string, and there is
    one exactly when the string holds one. The empty string and every
    string of no shape give null. *)
Theorem normalizer_shapes_and_idempotence :
  forall (new_URL : string -> option URL) (input : string),
    (forall id, Canonical id
                <-> String.length id = 11%nat
                    /\ forall c, In c (list_ascii_of_string id) -> IdChar c)
    /\ (Canonical (JS.trim input) -> extractVideoId new_URL input = Some (JS.trim input))
    /\ (forall id, extractVideoId new_URL input = Some id ->
                   Canonical id
                   /\ forall new_URL', extractVideoId new_URL' id = Some id)
    /\ (input = ""%string -> extractVideoId new_URL input = None)
    /\ (input <> ""%string -> ~ Canonical (JS.trim input) ->
        match new_URL input with
        | Some u =>
            (forall id, ShortLink u id -> extractVideoId new_URL input = Some id)
            /\ (~ (exists id, ShortLink u id) ->
                (forall id, VParam u id -> extractVideoId new_URL input = Some id)
                /\ (~ (exists id, VParam u id) ->
                    (forall id, extractVideoId new_URL input = Some id ->
                                PathShape (pathname u) id)
                    /\ ((exists id, PathShape (pathname u) id) ->
                        exists id', extractVideoId new_URL input = Some id')
                    /\ (~ (exists id, PathShape (pathname u) id) ->
                        extractVideoId new_URL input = None)))
        | None =>
            (forall id, extractVideoId new_URL input = Some id -> ParamShape input id)
            /\ ((exists id, ParamShape input id) ->
                exists id', extractVideoId new_URL input = Some id')
            /\ (~ (exists id, ParamShape input id) ->
                extractVideoId new_URL input = None)
        end).
Proof.
  intros new_URL input. split; [exact Canonical_class|].
  split; [apply extractVideoId_canonical|]. split.
  { intros id H. apply extractVideoId_result_canonical in H. split; [exact H|].
    intros new_URL'. rewrite <- (trim_canonical id H) at 2.
    apply extractVideoId_canonical. now rewrite (trim_canonical id H). }
  split; [now intros ->|].
  intros Hne Hnc. rewrite (extractVideoId_not_canonical new_URL input Hne Hnc).
  destruct (new_URL input) as [u|].
  - split.
    { intros id (Hh & Hf & Hc). apply String.eqb_eq in Hh. rewrite Hh, Hf.
      unfold Canonical in Hc. now rewrite Hc. }
    intros Hns.
    destruct ((hostname u =? "youtu.be")%string
              && isVideoIdPattern (firstSegment (pathname u))) eqn:Es.
    { exfalso. apply Hns. exists (firstSegment (pathname u)).
      apply andb_true_iff in Es. destruct Es as [Eh Ef].
      apply String.eqb_eq in Eh. now repeat split. }
    split.
    { intros id (Hg & Hc). rewrite Hg. unfold Canonical in Hc. now rewrite Hc. }
    intros Hnv.
    assert (Hs : match searchParams_get u "v" with
                 | Some v => if isVideoIdPattern v then Some v
                             else search pathIdHere (pathname u)
                 | None => search pathIdHere (pathname u)
                 end = search pathIdHere (pathname u)).
    { destruct (searchParams_get u "v") as [v|] eqn:Eg; [|reflexivity].
      destruct (isVideoIdPattern v) eqn:Ev; [|reflexivity].
      exfalso. apply Hnv. exists v. now split. }
    rewrite Hs. destruct (search_path (pathname u)) as [Hsound Hcomplete].
    split; [exact Hsound|]. split; [exact Hcomplete|].
    intros Hnp. destruct (search pathIdHere (pathname u)) as [id|] eqn:E; [|reflexivity].
    exfalso. apply Hnp. exists id. now apply Hsound.
  - destruct (search_param input) as [Hsound Hcomplete].
    split; [exact Hsound|]. split; [exact Hcomplete|].
    intros Hnp. destruct (search vParamHere input) as [id|] eqn:E; [|reflexivity].
    exfalso. apply Hnp. exists id. now apply Hsound.
Qed.

(** The documented shapes on concrete inputs: a bare identifier with
    blanks around it, a short link, a watch link, an embed link, a
    string that is no URL but holds the parameter, and two strings of
    no shape. *)
Lemma normalizer_examples :
  extractVideoId sampleURL "  dQw4w9WgXcQ " = Some "dQw4w9WgXcQ"%string
  /\ extractVideoId sampleURL "https://youtu.be/dQw4w9WgXcQ?t=42" = Some "dQw4w9WgXcQ"%string
  /\ extractVideoId sampleURL "https://www.youtube.com/watch?v=dQw4w9WgXcQ&list=PL1"
     = Some "dQw4w9WgXcQ"%string
  /\ extractVideoId sampleURL "https://www.youtube.com/embed/dQw4w9WgXcQ"
     = Some "dQw4w9WgXcQ"%string
  /\ extractVideoId sampleURL "youtube.com/watch?v=dQw4w9WgXcQ" = Some "dQw4w9WgXcQ"%string
  /\ extractVideoId sampleURL "https://example.invalid/about" = None
  /\ extractVideoId sampleURL "" = None.
Proof.
  split; [|split; [|repeat split]].
  - exact (proj1 (proj2 (normalizer_shapes_and_idempotence sampleURL
                            "  dQw4w9WgXcQ "%string)) eq_refl).
  - refine (proj1 (proj2 (proj2 (proj2 (proj2 (normalizer_shapes_and_idempotence sampleURL
              "https://youtu.be/dQw4w9WgXcQ?t=42"%string)))) _ _) "dQw4w9WgXcQ"%string _).
    + discriminate.
    + vm_compute. discriminate.
    + repeat split.
Defined.

End NormalizerFacts.

(* ===================================================================== *)
(** ** Further properties of the extractor *)
(* ===================================================================== *)

Module ExtractorFacts.
Import YouTubeExtractor Spec Examples ExtractorSpec JSFacts SelectorFacts ManifestFacts ChainFacts.
Local Open Scope list_scope.

Lemma truthy_opt_iff (o : option string) :
  JS.truthy_opt o = true <-> exists u, o = Some u /\ u <> ""%string.
Proof.
  destruct o as [u|]; simpl.
  - unfold JS.truthy. rewrite negb_true_iff, String.eqb_neq. split.
    + intros H. now exists u.
    + intros (u' & E & H). now inversion E; subst.
  - split; [discriminate|]. intros (u & E & _). discriminate.
Qed.

Lemma FirstMax_In {A : Type} (key : A -> Q) (l : list A) (x : A) :
  FirstMax key l x -> In x l.
Proof. intros (pre & post & -> & _). apply in_or_app. right. now left. Qed.

Lemma mimePreferred_incl (muxedFormats : list InnertubeFormat) (f : InnertubeFormat) :
  In f (mimePreferred muxedFormats) -> In f muxedFormats.
Proof.
  unfold mimePreferred. destruct (filter isVideoMp4 muxedFormats) as [|a l] eqn:E.
  - auto.
  - intros H. rewrite <- E in H. now apply filter_In in H.
Qed.

Lemma classification_keeps_located_descriptors_aux
  (resp : InnertubePlayerResponse) (f : InnertubeFormat) :
  (In f (parseAdaptiveFormats resp) <-> In f (adaptiveOf resp) /\ hasLocator f)
  /\ (In f (parseMuxedFormats resp)
      <-> (In f (formatsOf resp) /\ hasLocator f)
          \/ (In f (adaptiveOf resp) /\ hasLocator f /\ isMuxedFormat f = true)).
Proof.
  unfold parseAdaptiveFormats, parseMuxedFormats, adaptiveOf, formatsOf, hasLocator.
  destruct (streamingData resp) as [sd|].
  - rewrite in_app_iff, !filter_In, andb_true_iff, !truthy_opt_iff. tauto.
  - simpl. tauto.
Qed.

(** X1. Classification keeps exactly the descriptors that have a
    non-empty locator: an adaptive descriptor is surfaced when it has
    one, a muxed descriptor when it has one and comes from the standard
    list or is an adaptive descriptor that passes the muxed test. A
    response without streaming data surfaces nothing. *)
Theorem classification_keeps_located_descriptors :
  forall (resp : InnertubePlayerResponse) (f : InnertubeFormat),
    (In f (parseAdaptiveFormats resp) <-> In f (adaptiveOf resp) /\ hasLocator f)
    /\ (In f (parseMuxedFormats resp)
        <-> (In f (formatsOf resp) /\ hasLocator f)
            \/ (In f (adaptiveOf resp) /\ hasLocator f /\ isMuxedFormat f = true))
    /\ (In f (parseMuxedFormats resp) -> ~ In f (formatsOf resp) ->
        In f (parseAdaptiveFormats resp))
    /\ (streamingData resp = None ->
        parseMuxedFormats resp = [] /\ parseAdaptiveFormats resp = []).
Proof.
  intros resp f. unfold parseAdaptiveFormats, parseMuxedFormats, adaptiveOf, formatsOf,
    hasLocator.
  destruct (streamingData resp) as [sd|].
  - rewrite in_app_iff, !filter_In, andb_true_iff, !truthy_opt_iff.
    split; [tauto|]. split; [tauto|]. split; [tauto|discriminate].
  - simpl. split; [tauto|]. split; [tauto|]. split; [tauto|auto].
Qed.

(** The last resort of muxed selection. *)
Lemma pickBestMuxedStream_last_resort (adaptiveFormats : list InnertubeFormat) :
  (videoAdaptiveOf adaptiveFormats = [] -> pickBestMuxedStream [] adaptiveFormats = None)
  /\ (videoAdaptiveOf adaptiveFormats <> [] ->
      exists best,
        pickBestMuxedStream [] adaptiveFormats = Some (videoOnlyStream best)
        /\ FirstMax bitrateOf (videoAdaptiveOf adaptiveFormats) best).
Proof.
  unfold pickBestMuxedStream.
  change (0 <? List.length (@nil InnertubeFormat))%nat with false. cbv iota.
  fold (videoAdaptiveOf adaptiveFormats). split.
  - intros E. rewrite E. now destruct (0 <? List.length adaptiveFormats)%nat.
  - intros Hne.
    assert (Ha : (0 <? List.length adaptiveFormats)%nat = true).
    { apply length_pos_cons. intros ->. now apply Hne. }
    rewrite Ha. rewrite (proj2 (length_pos_cons _) Hne).
    destruct (sort_head_first_max bitrateOf byBitrateDesc byBitrateDesc_key _ Hne)
      as (x & rest & Hs & Hmax).
    exists x. rewrite Hs. split; [reflexivity|exact Hmax].
Qed.

(** X2. Without a muxed descriptor, muxed selection falls back to the
    adaptive descriptors that have a locator, a quality label and a
    video mime type: it returns the first of greatest bitrate, flagged
    as video without audio, and null when there is none. *)
Theorem muxed_selection_last_resort :
  forall adaptiveFormats : list InnertubeFormat,
    (videoAdaptiveOf adaptiveFormats = [] -> pickBestMuxedStream [] adaptiveFormats = None)
    /\ (videoAdaptiveOf adaptiveFormats <> [] ->
        exists best,
          pickBestMuxedStream [] adaptiveFormats = Some (videoOnlyStream best)
          /\ FirstMax bitrateOf (videoAdaptiveOf adaptiveFormats) best
          /\ Stream.hasAudio (videoOnlyStream best) = false
          /\ Stream.hasVideo (videoOnlyStream best) = true
          /\ hasLocator best).
Proof.
  intros adaptiveFormats.
  destruct (pickBestMuxedStream_last_resort adaptiveFormats) as [H0 H1].
  split; [exact H0|]. intros Hne. destruct (H1 Hne) as (best & Hp & Hm).
  exists best. repeat split; try assumption.
  apply FirstMax_In in Hm. unfold videoAdaptiveOf in Hm. apply filter_In in Hm.
  destruct Hm as [_ Hm]. rewrite !andb_true_iff in Hm.
  apply truthy_opt_iff. tauto.
Qed.

(** Two video-only tracks and an audio track, no muxed descriptor: the
    track of greater bitrate is surfaced, without audio. *)
Lemma last_resort_scenario :
  exists best,
    pickBestMuxedStream [] [audioCandidate 140 128000; videoCandidate 134 600000;
                            videoCandidate 136 2000000]
    = Some (videoOnlyStream best)
    /\ FirstMax bitrateOf (videoAdaptiveOf [audioCandidate 140 128000;
                                            videoCandidate 134 600000;
                                            videoCandidate 136 2000000]) best
    /\ Stream.hasAudio (videoOnlyStream best) = false
    /\ Stream.hasVideo (videoOnlyStream best) = true
    /\ hasLocator best.
Proof.
  apply (proj2 (muxed_selection_last_resort
                  [audioCandidate 140 128000; videoCandidate 134 600000;
                   videoCandidate 136 2000000])).
  vm_compute. discriminate.
Defined.

(** Muxed selection surfaces a descriptor of its input. *)
Lemma pickBestMuxedStream_located (muxedFormats adaptiveFormats : list InnertubeFormat)
  (s : ExtractedStream) :
  (forall f, In f muxedFormats -> hasLocator f) ->
  pickBestMuxedStream muxedFormats adaptiveFormats = Some s -> Located s.
Proof.
  intros Hm Hs. destruct muxedFormats as [|a l].
  - destruct (pickBestMuxedStream_last_resort adaptiveFormats) as [H0 H1].
    destruct (videoAdaptiveOf adaptiveFormats) as [|b r] eqn:E.
    + rewrite (H0 eq_refl) in Hs. discriminate.
    + destruct (H1 ltac:(congruence)) as (best & Hp & Hmax).
      rewrite Hp in Hs. inversion Hs; subst s.
      apply FirstMax_In in Hmax. rewrite <- E in Hmax.
      unfold videoAdaptiveOf in Hmax. apply filter_In in Hmax.
      destruct Hmax as [_ Hmax]. rewrite !andb_true_iff in Hmax.
      unfold Located. simpl. apply truthy_opt_iff. tauto.
  - destruct (pickBestMuxedStream_first_max (a :: l) adaptiveFormats ltac:(congruence))
      as (best & Hp & Hmax).
    rewrite Hp in Hs. inversion Hs; subst s.
    apply FirstMax_In, mimePreferred_incl in Hmax. exact (Hm best Hmax).
Qed.

(** The synthesizer by cases: nothing is returned and nothing written,
    or the manifest path is returned and one file written there. *)
Lemma writeDash_cases (rt : Runtime) (videoFormat audioFormat : InnertubeFormat)
  (videoId : string) (d : option number) (w : World) :
  writeDashManifestToFile rt videoFormat audioFormat videoId d w = (Normal None, w)
  \/ exists cacheDir vu au,
       import_FileSystem rt = true
       /\ cacheDirectory rt = Some cacheDir /\ cacheDir <> ""%string
       /\ url videoFormat = Some vu /\ url audioFormat = Some au
       /\ writeDashManifestToFile rt videoFormat audioFormat videoId d w
          = (Normal (Some (manifestPath cacheDir videoId)),
             withFile w (manifestPath cacheDir videoId)
               (mpdOf videoFormat audioFormat d (escapeXml vu) (escapeXml au))).
Proof.
  unfold writeDashManifestToFile, try_catch, bind, await_import, escapeXml_url,
    await_write, ret, throw.
  destruct (import_FileSystem rt) eqn:Ei; [|now left].
  destruct (cacheDirectory rt) as [dir|] eqn:Ec; [|now left].
  destruct (JS.truthy dir) eqn:Et; [|now left]. cbn [negb].
  destruct (url videoFormat) as [vu|] eqn:Ev; [|now left].
  destruct (url audioFormat) as [au|] eqn:Ea; [|now left].
  destruct (writeAsStringAsync rt _ _) eqn:Ew; [|now left].
  right. exists dir, vu, au. repeat split; try reflexivity.
  intros ->. discriminate Et.
Qed.


(** The Android branch by cases. *)
Lemma tryDash_cases (rt : Runtime) (platform : option Platform) (videoId : string)
  (adaptiveFormats : list InnertubeFormat) (d : option number) (w : World) :
  tryDash rt platform videoId adaptiveFormats d w = (Normal None, w)
  \/ exists cacheDir bestVideo bestAudio text,
       platform = Some android
       /\ cacheDirectory rt = Some cacheDir /\ cacheDir <> ""%string
       /\ pickBestAdaptiveVideo adaptiveFormats = Some bestVideo
       /\ pickBestAdaptiveAudio adaptiveFormats = Some bestAudio
       /\ tryDash rt platform videoId adaptiveFormats d w
          = (Normal (Some (dashStream (manifestPath cacheDir videoId) bestVideo bestAudio)),
             withFile w (manifestPath cacheDir videoId) text).
Proof.
  unfold tryDash.
  destruct platform as [[|]|]; try (now left).
  destruct (0 <? List.length adaptiveFormats)%nat; [|now left].
  destruct (pickBestAdaptiveVideo adaptiveFormats) as [v|] eqn:Ev; [|now left].
  destruct (pickBestAdaptiveAudio adaptiveFormats) as [a|] eqn:Ea; [|now left].
  unfold bind.
  destruct (writeDash_cases rt v a videoId d w)
    as [Hn|(dir & vu & au & Hi & Hc & Hd & Hvu & Hau & Hw)].
  - rewrite Hn. now left.
  - rewrite Hw. right. exists dir, v, a. eexists.
    repeat split; try assumption.
    cbn [JS.truthy_opt]. unfold manifestPath at 1.
    rewrite truthy_append; [reflexivity|].
    unfold JS.truthy. now apply negb_true_iff, String.eqb_neq.
Qed.

(** The loop with its trace: the profiles asked are a prefix of the
    catalog. *)
Lemma tryClients_trace (rt : Runtime) (videoId : string) (cs : list Client) :
  forall w : World,
    exists vars n,
      (n <= List.length cs)%nat
      /\ tryClients rt videoId cs w
         = (Normal vars, afterRequests w (map (requestOf videoId) (firstn n cs)))
      /\ (vars = ([], [], None) /\ n = List.length cs
          \/ exists resp,
               vars = (parseMuxedFormats resp, parseAdaptiveFormats resp, Some resp)
               /\ usable resp /\ (1 <= n)%nat).
Proof.
  induction cs as [|c cs IH]; intros w.
  - exists ([], [], None), 0%nat. split; [simpl; lia|]. split; [|now left].
    unfold afterRequests. simpl. rewrite app_nil_r. now destruct w.
  - cbn [tryClients]. unfold bind at 1. rewrite fetchPlayerResponse_eq.
    destruct (IH (afterRequests w [requestOf videoId c])) as (v & n & Hn & Hv & Hs).
    assert (Hcont : exists vars n0,
               (n0 <= List.length (c :: cs))%nat
               /\ tryClients rt videoId cs (afterRequests w [requestOf videoId c])
                  = (Normal vars,
                     afterRequests w (map (requestOf videoId) (firstn n0 (c :: cs))))
               /\ (vars = ([], [], None) /\ n0 = List.length (c :: cs)
                   \/ exists resp,
                        vars = (parseMuxedFormats resp, parseAdaptiveFormats resp, Some resp)
                        /\ usable resp /\ (1 <= n0)%nat)).
    { exists v, (S n). split; [simpl; lia|]. split.
      - rewrite Hv, afterRequests_app. reflexivity.
      - destruct Hs as [[Hs Hl]|(resp & Hs & Hu & _)].
        + left. split; [exact Hs|simpl; lia].
        + right. exists resp. repeat split; try assumption. lia. }
    destruct (answerOf _) as [resp|]; [|exact Hcont].
    destruct (blocked resp); [exact Hcont|].
    destruct ((0 <? List.length (parseMuxedFormats resp))%nat
              || (0 <? List.length (parseAdaptiveFormats resp))%nat) eqn:Hu;
      [|exact Hcont].
    eexists; exists 1%nat. split; [simpl; lia|]. split; [reflexivity|].
    right. exists resp. split; [reflexivity|]. split; [now apply usable_iff|lia].
Qed.

(** X4. Whatever the network and the file system do, one call of
    [extract] returns without throwing, asks a prefix of the catalog,
    at most four requests, each carrying the normalized identifier and
    the context and user agent of its profile, in catalog order, and
    writes at most one file: none unless the platform is Android, and
    then only the manifest of that identifier in the cache directory.
    An input that does not normalize sends and writes nothing. *)
Theorem extract_effects_are_bounded :
  forall (rt : Runtime) (input : string) (platform : option Platform) (w : World),
    exists r w',
      extract rt input platform w = (Normal r, w')
      /\ match extractVideoId (new_URL rt) input with
         | None => r = None /\ w' = w
         | Some videoId =>
             (exists n, (n <= 4)%nat
                        /\ sent w' = sent w ++ map (requestOf videoId) (firstn n clients)
                        /\ (r = None -> n = 4%nat))
             /\ (files w' = files w
                 \/ exists cacheDir text,
                      platform = Some android
                      /\ cacheDirectory rt = Some cacheDir
                      /\ files w' = files w ++ [(manifestPath cacheDir videoId, text)])
         end.
Proof.
  intros rt input platform w.
  destruct (extractVideoId (new_URL rt) input) as [videoId|] eqn:Hid.
  - destruct (tryClients_trace rt videoId clients w) as ([[m a] pr] & n & Hn & Hl & Hs).
    rewrite (extract_after_loop _ _ _ platform _ _ _ _ _ Hid Hl).
    destruct Hs as [[Hs Hlen]|(resp & Hs & Hus & H1)].
    + inversion Hs; subst m a pr. simpl.
      eexists; eexists. split; [reflexivity|]. split; [|now left].
      exists n. repeat split; auto.
    + inversion Hs; subst m a pr.
      assert (Hne : (List.length (parseMuxedFormats resp) =? 0)%nat
                    && (List.length (parseAdaptiveFormats resp) =? 0)%nat = false).
      { destruct Hus as [Hus|Hus].
        - destruct (parseMuxedFormats resp); [congruence|reflexivity].
        - now apply not_both_empty. }
      rewrite Hne.
      destruct (tryDash_cases rt platform videoId (parseAdaptiveFormats resp)
                  (durationOf (detailsOf (Some resp)))
                  (afterRequests w (map (requestOf videoId) (firstn n clients))))
        as [Hd|(dir & v & au & text & Hp & Hc & _ & _ & _ & Hd)]; rewrite Hd.
      * eexists; eexists. split; [reflexivity|]. split; [|now left].
        exists n. repeat split; auto. discriminate.
      * eexists; eexists. split; [reflexivity|]. split.
        -- exists n. repeat split; auto. discriminate.
        -- right. exists dir, text. repeat split; assumption.
  - exists None, w. split; [now apply extract_invalid_identifier|]. now split.
Qed.

(** A result of [extract] comes from an accepted response. *)
Lemma extract_result_shape (rt : Runtime) (input : string) (platform : option Platform)
  (w w' : World) (result : YouTubeExtractionResult) :
  extract rt input platform w = (Normal (Some result), w') ->
  exists videoId resp dash w1,
    extractVideoId (new_URL rt) input = Some videoId
    /\ usable resp
    /\ files w1 = files w
    /\ tryDash rt platform videoId (parseAdaptiveFormats resp)
         (durationOf (detailsOf (Some resp))) w1 = (Normal dash, w')
    /\ result = resultOf videoId (parseMuxedFormats resp) (Some resp)
                  (bestOf dash (parseMuxedFormats resp) (parseAdaptiveFormats resp)).
Proof.
  intros He.
  destruct (extractVideoId (new_URL rt) input) as [videoId|] eqn:Hid;
    [|rewrite (extract_invalid_identifier _ _ _ _ Hid) in He; discriminate].
  destruct (tryClients_returns rt videoId clients w) as ([[m a] pr] & w1 & Hl & Hf & Hs).
  rewrite (extract_after_loop _ _ _ platform _ _ _ _ _ Hid Hl) in He.
  destruct Hs as [Hs|(resp & Hs & Hus)].
  - inversion Hs; subst. simpl in He. discriminate.
  - inversion Hs; subst m a pr.
    destruct ((List.length (parseMuxedFormats resp) =? 0)%nat
              && (List.length (parseAdaptiveFormats resp) =? 0)%nat); [discriminate|].
    destruct (tryDash rt platform videoId (parseAdaptiveFormats resp)
                (durationOf (detailsOf (Some resp))) w1) as [[dash|] w2] eqn:Hd;
      [|discriminate].
    inversion He; subst. exists videoId, resp, dash, w1. repeat split; auto.
Qed.

Lemma parsed_muxed_located (resp : InnertubePlayerResponse) (f : InnertubeFormat) :
  In f (parseMuxedFormats resp) -> hasLocator f.
Proof.
  intros H. apply (proj1 (proj2 (classification_keeps_located_descriptors_aux resp f))) in H.
  tauto.
Qed.

(** X5. Every stream [extract] surfaces has a locator that is not the
    empty string: each alternative of the list and the best stream. So
    [getBestStreamUrl] returns null or a non-empty string, never the
    empty string. The identifier of the result is canonical. *)
Theorem surfaced_streams_have_locators :
  forall (rt : Runtime) (input : string) (platform : option Platform) (w : World),
    (forall result w',
        extract rt input platform w = (Normal (Some result), w') ->
        (forall s, In s (streams result) -> Located s)
        /\ (forall s, bestStream result = Some s -> Located s)
        /\ Canonical (YouTubeExtractor.videoId result))
    /\ (forall u w',
           getBestStreamUrl rt input platform w = (Normal (Some u), w') ->
           u <> ""%string).
Proof.
  intros rt input platform w.
  assert (Hmain : forall result w',
             extract rt input platform w = (Normal (Some result), w') ->
             (forall s, In s (streams result) -> Located s)
             /\ (forall s, bestStream result = Some s -> Located s)
             /\ Canonical (YouTubeExtractor.videoId result)).
  { intros result w' He.
    destruct (extract_result_shape _ _ _ _ _ _ He)
      as (videoId & resp & dash & w1 & Hid & Hus & _ & Hd & ->).
    split; [|split].
    - intros s Hs. simpl in Hs. apply in_map_iff in Hs. destruct Hs as (f & <- & Hf).
      exact (parsed_muxed_located resp f Hf).
    - intros s Hs. simpl in Hs. unfold bestOf in Hs.
      destruct dash as [ds|].
      + inversion Hs; subst ds.
        destruct (tryDash_cases rt platform videoId (parseAdaptiveFormats resp)
                    (durationOf (detailsOf (Some resp))) w1)
          as [Hn|(dir & v & a & text & _ & _ & Hdir & _ & _ & Hd')].
        * rewrite Hn in Hd. discriminate.
        * rewrite Hd' in Hd. inversion Hd; subst s.
          exists (manifestPath dir videoId). split; [reflexivity|].
          unfold manifestPath. destruct dir; [congruence|discriminate].
      + apply (pickBestMuxedStream_located _ _ s (parsed_muxed_located resp) Hs).
    - simpl. apply (NormalizerFacts.extractVideoId_result_canonical _ _ _ Hid). }
  split; [exact Hmain|].
  intros u w' Hg.
  destruct (extract_returns rt input platform w) as (r & w1 & He).
  rewrite (getBestStreamUrl_of_extract _ _ _ _ _ _ He) in Hg.
  destruct r as [res|]; [|discriminate].
  destruct (bestStream res) as [s|] eqn:Hb; [|discriminate].
  destruct (proj1 (proj2 (Hmain res w1 He)) s Hb) as (u' & Hu & Hne).
  inversion Hg; subst. congruence.
Qed.

(** X6. On a platform other than Android, [extract] writes no file.
    When it lists alternatives, its best stream is one of them; when it
    lists none, a best stream, if any, is flagged as video without
    audio. *)
Theorem non_android_best_stream_is_listed :
  forall (rt : Runtime) (input : string) (platform : option Platform) (w w' : World)
         (result : YouTubeExtractionResult),
    platform <> Some android ->
    extract rt input platform w = (Normal (Some result), w') ->
    files w' = files w
    /\ (streams result <> [] ->
        exists s, bestStream result = Some s /\ In s (streams result))
    /\ (streams result = [] ->
        forall s, bestStream result = Some s ->
                  Stream.hasAudio s = false /\ Stream.hasVideo s = true).
Proof.
  intros rt input platform w w' result Hp He.
  destruct (extract_result_shape _ _ _ _ _ _ He)
    as (videoId & resp & dash & w1 & Hid & Hus & Hf & Hd & ->).
  destruct (tryDash_cases rt platform videoId (parseAdaptiveFormats resp)
              (durationOf (detailsOf (Some resp))) w1)
    as [Hn|(dir & v & a & text & Hpa & _)]; [|contradiction].
  rewrite Hn in Hd. inversion Hd; subst dash w'. clear Hd.
  split; [exact Hf|]. simpl. split.
  - intros Hne.
    assert (Hm : parseMuxedFormats resp <> []).
    { intros E. rewrite E in Hne. now apply Hne. }
    destruct (pickBestMuxedStream_first_max _ (parseAdaptiveFormats resp) Hm)
      as (best & Hb & Hmax).
    exists (muxedStream best). split; [exact Hb|].
    apply in_map. now apply mimePreferred_incl, (FirstMax_In scoreFormat).
  - intros Hnil s Hs.
    assert (Hm : parseMuxedFormats resp = []).
    { destruct (parseMuxedFormats resp); [reflexivity|discriminate]. }
    rewrite Hm in Hs.
    destruct (pickBestMuxedStream_last_resort (parseAdaptiveFormats resp)) as [H0 H1].
    destruct (videoAdaptiveOf (parseAdaptiveFormats resp)) as [|b r] eqn:E.
    + rewrite (H0 eq_refl) in Hs. discriminate.
    + destruct (H1 ltac:(congruence)) as (best & Hb & _).
      rewrite Hb in Hs. inversion Hs; subst s. now split.
Qed.

(** The chain scenario on iOS: the 720p descriptor is the best stream
    and is one of the two listed. *)
Lemma non_android_scenario :
  files (afterRequests emptyWorld
           (map (requestOf "dQw4w9WgXcQ") (firstn 3 clients))) = files emptyWorld
  /\ (streams (resultOf "dQw4w9WgXcQ" [muxed18; muxed22] (Some twoMuxedResponse)
                 (Some (muxedStream muxed22))) <> [] ->
      exists s,
        bestStream (resultOf "dQw4w9WgXcQ" [muxed18; muxed22] (Some twoMuxedResponse)
                      (Some (muxedStream muxed22))) = Some s
        /\ In s (streams (resultOf "dQw4w9WgXcQ" [muxed18; muxed22]
                            (Some twoMuxedResponse) (Some (muxedStream muxed22)))))
  /\ (streams (resultOf "dQw4w9WgXcQ" [muxed18; muxed22] (Some twoMuxedResponse)
                 (Some (muxedStream muxed22))) = [] ->
      forall s,
        bestStream (resultOf "dQw4w9WgXcQ" [muxed18; muxed22] (Some twoMuxedResponse)
                      (Some (muxedStream muxed22))) = Some s ->
        Stream.hasAudio s = false /\ Stream.hasVideo s = true).
Proof.
  apply (non_android_best_stream_is_listed (scenarioRuntime scenarioFetch true)
           "dQw4w9WgXcQ"%string (Some ios) emptyWorld).
  - discriminate.
  - vm_compute. reflexivity.
Defined.

(** The stream locator invariant on the chain scenario. *)
Lemma surfaced_streams_scenario :
  (forall s, In s (streams (resultOf "dQw4w9WgXcQ" [muxed18; muxed22]
                              (Some twoMuxedResponse) (Some (muxedStream muxed22)))) ->
             Located s)
  /\ (forall s, bestStream (resultOf "dQw4w9WgXcQ" [muxed18; muxed22]
                              (Some twoMuxedResponse) (Some (muxedStream muxed22)))
                = Some s -> Located s)
  /\ Canonical (YouTubeExtractor.videoId
                  (resultOf "dQw4w9WgXcQ" [muxed18; muxed22] (Some twoMuxedResponse)
                     (Some (muxedStream muxed22)))).
Proof.
  apply (proj1 (surfaced_streams_have_locators (scenarioRuntime scenarioFetch true)
                  "dQw4w9WgXcQ"%string (Some ios) emptyWorld)
           _ (afterRequests emptyWorld (map (requestOf "dQw4w9WgXcQ") (firstn 3 clients)))).
  vm_compute. reflexivity.
Defined.

(** *** Mime types *)

Lemma split_no_separator (c : ascii) (a : string) :
  JS.includes_char c a = false -> JS.split c a = [a].
Proof.
  induction a as [|x a IH]; simpl; intros H; [reflexivity|].
  apply orb_false_iff in H. destruct H as [Hx Ha].
  rewrite Hx, (IH Ha). reflexivity.
Qed.

Lemma split_at_separator (c : ascii) (a b : string) :
  JS.includes_char c a = false ->
  JS.split c (a ++ String c b) = a :: JS.split c b.
Proof.
  induction a as [|x a IH]; simpl; intros H.
  - now rewrite Ascii.eqb_refl.
  - apply orb_false_iff in H. destruct H as [Hx Ha].
    rewrite Hx, (IH Ha). reflexivity.
Qed.

Lemma codecsEqHere_quoted (rest : string) :
  codecsEqHere ("codecs=" ++ String JS.dquote rest) = Some rest.
Proof.
  unfold codecsEqHere.
  change (lowerString (substring 0 7 ("codecs=" ++ String JS.dquote rest)) =? "codecs=")%string
    with true.
  cbv iota.
  pose proof (substring_rest "codecs=" (String JS.dquote rest)) as H.
  change (String.length "codecs=") with 7%nat in H. rewrite H. reflexivity.
Qed.

Lemma removeCodecsEq_cons (c : ascii) (r : string) :
  removeCodecsEq (String c r)
  = match codecsEqHere (String c r) with
    | Some rest => rest
    | None => String c (removeCodecsEq r)
    end.
Proof. reflexivity. Qed.

(** A blank before [codecs=] is kept; the match and the quote after
    it are cut. *)
Lemma removeCodecsEq_upstream (rest : string) :
  removeCodecsEq (String " " ("codecs=" ++ String JS.dquote rest)) = String " " rest.
Proof.
  rewrite removeCodecsEq_cons.
  change (codecsEqHere (String " " ("codecs=" ++ String JS.dquote rest)))
    with (@None string).
  cbv iota. f_equal.
  change ("codecs=" ++ String JS.dquote rest)%string
    with (String "c" ("odecs=" ++ String JS.dquote rest))%string.
  rewrite removeCodecsEq_cons.
  change (String "c" ("odecs=" ++ String JS.dquote rest))%string
    with ("codecs=" ++ String JS.dquote rest)%string.
  now rewrite codecsEqHere_quoted.
Qed.

Lemma removeFinalQuote_append (s : string) : removeFinalQuote (s ++ JS.dq) = s.
Proof.
  induction s as [|a r IH]; [reflexivity|].
  simpl. destruct (r ++ JS.dq)%string as [|b t] eqn:E.
  - destruct r; discriminate.
  - now rewrite IH.
Qed.

Lemma includes_trimStart (x : ascii) (s : string) :
  JS.is_space x = false ->
  JS.includes_char x (JS.trimStart s) = JS.includes_char x s.
Proof.
  intros Hx. induction s as [|c r IH]; [reflexivity|]. simpl.
  destruct (JS.is_space c) eqn:Ec; [|reflexivity].
  rewrite IH. destruct (Ascii.eqb_spec c x) as [->|Hne]; [congruence|reflexivity].
Qed.

Lemma includes_trimEnd (x : ascii) (s : string) :
  JS.is_space x = false ->
  JS.includes_char x (JS.trimEnd s) = JS.includes_char x s.
Proof.
  intros Hx. induction s as [|c r IH]; [reflexivity|]. simpl.
  destruct (JS.trimEnd r) as [|c' r'] eqn:Er.
  - simpl in IH. rewrite <- IH. destruct (JS.is_space c) eqn:Ec; simpl.
    + destruct (Ascii.eqb_spec c x) as [->|Hne]; [congruence|reflexivity].
    + reflexivity.
  - simpl. simpl in IH. now rewrite IH.
Qed.

Lemma includes_trim (x : ascii) (s : string) :
  JS.is_space x = false -> JS.includes_char x (JS.trim s) = JS.includes_char x s.
Proof.
  intros Hx. unfold JS.trim. now rewrite includes_trimEnd, includes_trimStart.
Qed.

(** X7. [parseMimeType] reads a mime type of the upstream form back
    into its parts: for a container and a codec list without
    semicolon, the string made of the container, a semicolon, a blank,
    codecs= and the quoted list parses to the trimmed container and the
    trimmed list; a string without semicolon parses to itself, trimmed,
    with no codecs. So by its mime type alone a descriptor counts as
    muxed exactly when its codec list holds a comma. *)
Theorem parseMimeType_reads_back :
  forall base codecList : string,
    JS.includes_char ";" base = false ->
    JS.includes_char ";" codecList = false ->
    parseMimeType (mimeOf base codecList)
    = {| container := JS.trim base; codecs := JS.trim codecList |}
    /\ parseMimeType base = {| container := JS.trim base; codecs := "" |}
    /\ JS.includes_char "," (codecs (parseMimeType (mimeOf base codecList)))
       = JS.includes_char "," codecList
    /\ JS.includes_char "," (codecs (parseMimeType base)) = false.
Proof.
  intros base codecList Hb Hc.
  assert (H1 : parseMimeType (mimeOf base codecList)
               = {| container := JS.trim base; codecs := JS.trim codecList |}).
  { unfold parseMimeType, mimeOf.
    change (base ++ "; codecs=" ++ JS.dq ++ codecList ++ JS.dq)%string
      with (base ++ String ";" (" codecs=" ++ JS.dq ++ codecList ++ JS.dq))%string.
    rewrite (split_at_separator ";" base _ Hb).
    rewrite split_no_separator.
    2:{ simpl. rewrite includes_char_append, Hc. reflexivity. }
    cbn [hd nth_error JS.truthy_opt JS.truthy String.eqb JS.or_else negb].
    change (" codecs=" ++ JS.dq ++ codecList ++ JS.dq)%string
      with (String " " ("codecs=" ++ String JS.dquote (codecList ++ JS.dq)))%string.
    change (JS.truthy (String " " ("codecs=" ++ String JS.dquote (codecList ++ JS.dq))))
      with true.
    cbv iota. rewrite removeCodecsEq_upstream.
    change (String " " (codecList ++ JS.dq))%string
      with ((String " " codecList) ++ JS.dq)%string.
    rewrite removeFinalQuote_append. reflexivity. }
  assert (H2 : parseMimeType base = {| container := JS.trim base; codecs := "" |}).
  { unfold parseMimeType. rewrite (split_no_separator ";" base Hb). reflexivity. }
  split; [exact H1|]. split; [exact H2|]. rewrite H1, H2. split; [|reflexivity].
  simpl. now apply includes_trim.
Qed.

(** The mime type of a 720p muxed file and of a video-only track. *)
Lemma parseMimeType_scenario :
  parseMimeType (mimeOf "video/mp4" "avc1.64001F, mp4a.40.2")
  = {| container := JS.trim "video/mp4"; codecs := JS.trim "avc1.64001F, mp4a.40.2" |}
  /\ parseMimeType "video/mp4" = {| container := JS.trim "video/mp4"; codecs := "" |}
  /\ JS.includes_char "," (codecs (parseMimeType (mimeOf "video/mp4" "avc1.64001F, mp4a.40.2")))
     = JS.includes_char "," "avc1.64001F, mp4a.40.2"
  /\ JS.includes_char "," (codecs (parseMimeType "video/mp4")) = false.
Proof.
  apply (parseMimeType_reads_back "video/mp4" "avc1.64001F, mp4a.40.2"); reflexivity.
Defined.

(** *** The score as a function of the signals *)

Lemma inject_Z_div_le (a b : Z) :
  a <= b -> (inject_Z a / inject_Z 1000 <= inject_Z b / inject_Z 1000)%Q.
Proof.
  intros H. unfold Qdiv. apply Qmult_le_compat_r; [now rewrite <- Zle_Qle|].
  vm_compute. discriminate.
Qed.

(** X8. For a given itag the muxed score never decreases when the
    height or the bitrate grows, and it saturates: two descriptors of
    the same itag whose heights are both at least 720 and whose
    bitrates are both at least 3,000,000 score the same, so beyond the
    caps the winner is decided by list order alone. *)
Theorem muxed_score_monotone_and_capped :
  forall f g : InnertubeFormat,
    itag f = itag g ->
    (JS.nullish (height f) 0 <= JS.nullish (height g) 0 ->
     JS.nullish (bitrate f) 0 <= JS.nullish (bitrate g) 0 ->
     (scoreFormat f <= scoreFormat g)%Q)
    /\ (720 <= JS.nullish (height f) 0 -> 720 <= JS.nullish (height g) 0 ->
        3000000 <= JS.nullish (bitrate f) 0 -> 3000000 <= JS.nullish (bitrate g) 0 ->
        (scoreFormat f == scoreFormat g)%Q).
Proof.
  intros f g Hi. unfold scoreFormat, heightScore, bitrateScore. rewrite Hi. split.
  - intros Hh Hb.
    assert (H1 : (inject_Z (Z.min (JS.nullish (height f) 0) 720 * 10)
                  <= inject_Z (Z.min (JS.nullish (height g) 0) 720 * 10))%Q)
      by (rewrite <- Zle_Qle; lia).
    assert (H2 : (inject_Z (Z.min (JS.nullish (bitrate f) 0) 3000000) / inject_Z 1000
                  <= inject_Z (Z.min (JS.nullish (bitrate g) 0) 3000000) / inject_Z 1000)%Q)
      by (apply inject_Z_div_le; lia).
    lra.
  - intros Hf Hg Bf Bg.
    rewrite !Z.min_r by assumption. reflexivity.
Qed.

(** A 1080p and a 720p descriptor of itag 22, both above the bitrate
    cap, score the same. *)
Lemma muxed_score_cap_scenario :
  (JS.nullish (height itag22_720p_capped) 0 <= JS.nullish (height itag22_1080p_capped) 0 ->
   JS.nullish (bitrate itag22_720p_capped) 0 <= JS.nullish (bitrate itag22_1080p_capped) 0 ->
   (scoreFormat itag22_720p_capped <= scoreFormat itag22_1080p_capped)%Q)
  /\ (720 <= JS.nullish (height itag22_720p_capped) 0 ->
      720 <= JS.nullish (height itag22_1080p_capped) 0 ->
      3000000 <= JS.nullish (bitrate itag22_720p_capped) 0 ->
      3000000 <= JS.nullish (bitrate itag22_1080p_capped) 0 ->
      (scoreFormat itag22_720p_capped == scoreFormat itag22_1080p_capped)%Q).
Proof.
  exact (muxed_score_monotone_and_capped itag22_720p_capped itag22_1080p_capped eq_refl).
Defined.

(** *** Escaping loses nothing *)

Lemma prefix_head_differs (a b : ascii) (p s : string) :
  a <> b -> String.prefix (String a p) (String b s) = false.
Proof.
  intros H. simpl. destruct (ascii_dec a b); [contradiction|reflexivity].
Qed.

Lemma prefix_append (p rest : string) : String.prefix p (p ++ rest) = true.
Proof. apply prefix_iff. now exists rest. Qed.

Lemma unescapeXml_amp (fuel : nat) (rest : string) :
  unescapeXml (S fuel) ("&amp;" ++ rest)
  = String "&" (unescapeXml fuel rest).
Proof.
  change ("&amp;" ++ rest)%string with (String "&" ("amp;" ++ rest)).
  cbn [unescapeXml]. change ("&" =? "&")%char with true. cbv iota.
  rewrite prefix_append.
  change 4%nat with (String.length "amp;"). now rewrite substring_rest.
Qed.

Lemma unescapeXml_quot (fuel : nat) (rest : string) :
  unescapeXml (S fuel) ("&quot;" ++ rest)
  = String JS.dquote (unescapeXml fuel rest).
Proof.
  change ("&quot;" ++ rest)%string with (String "&" ("quot;" ++ rest)).
  cbn [unescapeXml]. change ("&" =? "&")%char with true. cbv iota.
  change ("quot;" ++ rest)%string with (String "q" ("uot;" ++ rest)).
  rewrite (prefix_head_differs "a" "q") by discriminate.
  change (String "q" ("uot;" ++ rest)) with ("quot;" ++ rest)%string.
  rewrite prefix_append.
  change 5%nat with (String.length "quot;"). now rewrite substring_rest.
Qed.

Lemma unescapeXml_lt (fuel : nat) (rest : string) :
  unescapeXml (S fuel) ("&lt;" ++ rest)
  = String "<" (unescapeXml fuel rest).
Proof.
  change ("&lt;" ++ rest)%string with (String "&" ("lt;" ++ rest)).
  cbn [unescapeXml]. change ("&" =? "&")%char with true. cbv iota.
  change ("lt;" ++ rest)%string with (String "l" ("t;" ++ rest)).
  rewrite (prefix_head_differs "a" "l") by discriminate.
  rewrite (prefix_head_differs "q" "l") by discriminate.
  change (String "l" ("t;" ++ rest)) with ("lt;" ++ rest)%string.
  rewrite prefix_append.
  change 3%nat with (String.length "lt;"). now rewrite substring_rest.
Qed.

Lemma unescapeXml_gt (fuel : nat) (rest : string) :
  unescapeXml (S fuel) ("&gt;" ++ rest)
  = String ">" (unescapeXml fuel rest).
Proof.
  change ("&gt;" ++ rest)%string with (String "&" ("gt;" ++ rest)).
  cbn [unescapeXml]. change ("&" =? "&")%char with true. cbv iota.
  change ("gt;" ++ rest)%string with (String "g" ("t;" ++ rest)).
  rewrite (prefix_head_differs "a" "g") by discriminate.
  rewrite (prefix_head_differs "q" "g") by discriminate.
  rewrite (prefix_head_differs "l" "g") by discriminate.
  change (String "g" ("t;" ++ rest)) with ("gt;" ++ rest)%string.
  rewrite prefix_append.
  change 3%nat with (String.length "gt;"). now rewrite substring_rest.
Qed.

Lemma unescapeXml_plain (fuel : nat) (c : ascii) (rest : string) :
  c <> "&"%char ->
  unescapeXml (S fuel) (String c rest) = String c (unescapeXml fuel rest).
Proof.
  intros H. cbn [unescapeXml].
  destruct (Ascii.eqb_spec c "&"); [contradiction|reflexivity].
Qed.

Lemma unescapeXml_escapeEach (s : string) :
  forall fuel, (String.length (escapeEach s) <= fuel)%nat ->
               unescapeXml fuel (escapeEach s) = s.
Proof.
  induction s as [|c r IH]; intros fuel Hf.
  - destruct fuel; reflexivity.
  - cbn [escapeEach] in Hf |- *. rewrite length_append in Hf.
    unfold escapeChar in *.
    destruct (Ascii.eqb_spec c "&") as [->|Hamp].
    { destruct fuel as [|fuel]; [simpl in Hf; lia|].
      rewrite unescapeXml_amp. f_equal. apply IH. simpl in Hf. lia. }
    destruct (Ascii.eqb_spec c JS.dquote) as [->|Hq].
    { destruct fuel as [|fuel]; [simpl in Hf; lia|].
      rewrite unescapeXml_quot. f_equal. apply IH. simpl in Hf. lia. }
    destruct (Ascii.eqb_spec c "<") as [->|Hlt].
    { destruct fuel as [|fuel]; [simpl in Hf; lia|].
      rewrite unescapeXml_lt. f_equal. apply IH. simpl in Hf. lia. }
    destruct (Ascii.eqb_spec c ">") as [->|Hgt].
    { destruct fuel as [|fuel]; [simpl in Hf; lia|].
      rewrite unescapeXml_gt. f_equal. apply IH. simpl in Hf. lia. }
    destruct fuel as [|fuel]; [simpl in Hf; lia|].
    change (String c "" ++ escapeEach r)%string with (String c (escapeEach r)).
    rewrite unescapeXml_plain by assumption.
    f_equal. apply IH. simpl in Hf. lia.
Qed.

(** X9. [escapeXml] loses nothing: reading the four entities of an
    escaped locator back as their characters gives the locator, so two
    different locators never have the same escaped text. *)
Theorem escapeXml_is_invertible :
  (forall locator : string,
      unescapeXml (String.length (escapeXml locator)) (escapeXml locator) = locator)
  /\ (forall a b : string, escapeXml a = escapeXml b -> a = b).
Proof.
  assert (H : forall locator : string,
             unescapeXml (String.length (escapeXml locator)) (escapeXml locator) = locator).
  { intros locator. rewrite escapeXml_each. now apply unescapeXml_escapeEach. }
  split; [exact H|].
  intros a b E. rewrite <- (H a), <- (H b), E. reflexivity.
Qed.

End ExtractorFacts.

(* ===================================================================== *)
(** ** The trailer service *)
(* ===================================================================== *)

Module ServiceFacts.
Import TrailerService CacheSpec ServiceSpec JSFacts CacheFacts.
Local Open Scope list_scope.

(** *** The cache as a store *)

Lemma keys_delete (k : string) (c : Cache) :
  JS.Map.keys (JS.Map.delete k c)
  = filter (fun k' => negb (k' =? k)%string) (JS.Map.keys c).
Proof.
  induction c as [|[k' e] c IH]; [reflexivity|]. simpl.
  destruct (k' =? k)%string; simpl; now rewrite <- IH.
Qed.

Lemma delete_length (k : string) (c : Cache) :
  (List.length (JS.Map.delete k c) <= List.length c)%nat.
Proof. apply filter_length_le. Qed.

Lemma CacheOk_delete (k : string) (c : Cache) :
  CacheOk c -> CacheOk (JS.Map.delete k c).
Proof.
  intros (Hnd & Hle & Hne). repeat split.
  - rewrite keys_delete. now apply NoDup_filter.
  - pose proof (delete_length k c). lia.
  - rewrite keys_delete. intros H. apply filter_In in H. tauto.
Qed.

Lemma CacheOk_getCached (now : Z) (key : string) (c : Cache) :
  CacheOk c -> CacheOk (snd (getCached now key c)).
Proof.
  intros H. unfold getCached.
  destruct (JS.Map.get key c) as [e|]; [|exact H].
  destruct (now >? expiresAt e); [now apply CacheOk_delete|].
  destruct (JS.endsWith (url e) ".mpd"); [now apply CacheOk_delete|exact H].
Qed.

Lemma CacheOk_setCache (now : Z) (key url : string) (c : Cache) :
  key <> ""%string -> CacheOk c -> CacheOk (setCache now key url c).
Proof.
  intros Hkey (Hnd & Hle & Hne).
  destruct (in_dec string_dec key (JS.Map.keys c)) as [Hin|Hout].
  - destruct (setCache_present_key now key url c Hle Hin) as [Hk _].
    unfold CacheOk. rewrite Hk. repeat split; try assumption.
    assert (Hl : List.length (setCache now key url c) = List.length (JS.Map.keys c))
      by (rewrite <- Hk; unfold JS.Map.keys; now rewrite length_map).
    unfold JS.Map.keys in Hl. rewrite length_map in Hl. lia.
  - rewrite setCache_new_key; try assumption.
    2:{ intros k Hk Hempty. subst k. apply Hne.
        destruct c as [|[k0 e0] c]; [discriminate|].
        simpl in Hk. inversion Hk. now left. }
    match goal with |- CacheOk (?k ++ _) => set (kept := k) end.
    assert (Hsub : forall k, In k (JS.Map.keys kept) -> In k (JS.Map.keys c)).
    { unfold kept. destruct (List.length c <? 100)%nat; [tauto|].
      destruct c as [|x c]; [tauto|]. simpl. tauto. }
    assert (Hnd' : NoDup (JS.Map.keys kept)).
    { unfold kept. destruct (List.length c <? 100)%nat; [exact Hnd|].
      destruct c as [|x c]; [exact Hnd|]. simpl in *. now inversion Hnd. }
    assert (Hlen : (List.length kept < 100)%nat).
    { unfold kept. destruct (Nat.ltb_spec (List.length c) 100); [assumption|].
      destruct c as [|x c]; simpl in *; lia. }
    clearbody kept. repeat split.
    + rewrite keys_app. apply NoDup_app; [exact Hnd'|repeat constructor; intros []|].
      intros x Hx [Hx'|[]]. simpl in Hx'. subst x. apply Hout. now apply Hsub.
    + rewrite length_app. simpl. lia.
    + rewrite keys_app. intros H. apply in_app_or in H. destruct H as [H|[H|[]]].
      * apply Hne. now apply Hsub.
      * simpl in H. congruence.
Qed.

(** Within the capacity a put is never its own victim. *)
Lemma get_setCache (now : Z) (key url : string) (c : Cache) :
  (List.length c <= 100)%nat ->
  JS.Map.get key (setCache now key url c) = Some (entryAt now url).
Proof.
  intros Hle.
  destruct (in_dec string_dec key (JS.Map.keys c)) as [Hin|Hout].
  - now destruct (setCache_present_key now key url c Hle Hin) as [_ H].
  - unfold setCache. fold (entryAt now url).
    rewrite (set_absent _ _ _ Hout).
    assert (Hget : JS.Map.get key (c ++ [(key, entryAt now url)]) = Some (entryAt now url)).
    { rewrite <- (set_absent _ (entryAt now url) _ Hout). apply get_set_same. }
    destruct (Z.gtb_spec (JS.Map.size (c ++ [(key, entryAt now url)])) 100) as [Hbig|];
      [|exact Hget].
    destruct c as [|[k0 e0] c]; [unfold JS.Map.size in Hbig; simpl in Hbig; lia|].
    cbn [JS.Map.first_key JS.Map.keys map hd_error app fst].
    destruct (JS.truthy k0); [|exact Hget].
    rewrite get_delete_other; [exact Hget|].
    intros ->. apply Hout. now left.
Qed.

(** X10. Within the capacity of 100 entries, a url stored under a key
    is served back to every lookup up to five hours later, with the
    cache unchanged; a stored url that ends in [.mpd], or a lookup
    after more than five hours, gives null and drops the entry. *)
Theorem stored_url_is_served_for_five_hours :
  forall (now later : Z) (key url : string) (c : Cache),
    (List.length c <= 100)%nat ->
    (later <= now + CACHE_TTL_MS -> JS.endsWith url ".mpd" = false ->
     getCached later key (setCache now key url c)
     = (Some url, setCache now key url c))
    /\ (later > now + CACHE_TTL_MS \/ JS.endsWith url ".mpd" = true ->
        getCached later key (setCache now key url c)
        = (None, JS.Map.delete key (setCache now key url c))
        /\ JS.Map.get key (JS.Map.delete key (setCache now key url c)) = None).
Proof.
  intros now later key url c Hle.
  pose proof (get_setCache now key url c Hle) as Hget.
  split.
  - intros Hfresh Hmpd. unfold getCached. rewrite Hget. cbn [entryAt expiresAt TrailerService.url].
    destruct (Z.gtb_spec later (now + CACHE_TTL_MS)); [lia|].
    now rewrite Hmpd.
  - intros Hor. split; [|apply get_delete_same].
    unfold getCached. rewrite Hget. cbn [entryAt expiresAt TrailerService.url].
    destruct (Z.gtb_spec later (now + CACHE_TTL_MS)); [reflexivity|].
    destruct Hor as [Hlate|Hmpd]; [lia|now rewrite Hmpd].
Qed.

(** A direct link stored in the empty cache is served four hours
    later; a manifest path is not. *)
Lemma stored_url_scenario :
  getCached (t0 + hours 4) "dQw4w9WgXcQ"
    (setCache t0 "dQw4w9WgXcQ" "https://example.invalid/v.mp4" [])
  = (Some "https://example.invalid/v.mp4"%string,
     setCache t0 "dQw4w9WgXcQ" "https://example.invalid/v.mp4" [])
  /\ fst (getCached (t0 + hours 4) "dQw4w9WgXcQ"
            (setCache t0 "dQw4w9WgXcQ" "file:///cache/trailer_dQw4w9WgXcQ.mpd" []))
     = None.
Proof.
  split.
  - apply (stored_url_is_served_for_five_hours t0 (t0 + hours 4) "dQw4w9WgXcQ"
             "https://example.invalid/v.mp4" []); [simpl; lia|vm_compute; discriminate|reflexivity].
  - rewrite (proj1 (proj2 (stored_url_is_served_for_five_hours t0 (t0 + hours 4) "dQw4w9WgXcQ"
                       "file:///cache/trailer_dQw4w9WgXcQ.mpd" [] ltac:(simpl; lia))
                       (or_intror eq_refl))).
    reflexivity.
Defined.

(** *** Validation of a server url *)

Lemma includes_iff (needle s : string) :
  JS.includes needle s = true <-> Occurs needle s.
Proof.
  unfold Occurs. induction s as [|c r IH]; cbn [JS.includes].
  - rewrite orb_false_r, prefix_iff. split.
    + intros [rest H]. exists ""%string, rest. exact H.
    + intros (a & b & H). destruct a; [|discriminate]. now exists b.
  - rewrite orb_true_iff, prefix_iff, IH. split.
    + intros [[rest H]|(a & b & H)].
      * exists ""%string, rest. exact H.
      * exists (String c a), b. simpl. now rewrite H.
    + intros (a & b & H). destruct a as [|c' a].
      * left. now exists b.
      * right. simpl in H. inversion H. now exists a, b.
Qed.

Lemma test_iff (here : string -> bool) (s : string) :
  test here s = true <-> exists a b, s = (a ++ b)%string /\ here b = true.
Proof.
  induction s as [|c r IH]; cbn [test].
  - rewrite orb_false_r. split.
    + intros H. now exists ""%string, ""%string.
    + intros (a & b & H & Hb). destruct a; [|discriminate]. simpl in H. now subst b.
  - rewrite orb_true_iff, IH. split.
    + intros [H|(a & b & H & Hb)].
      * now exists ""%string, (String c r).
      * exists (String c a), b. simpl. now rewrite H.
    + intros (a & b & H & Hb). destruct a as [|c' a].
      * left. simpl in H. now subst b.
      * right. simpl in H. inversion H. now exists a, b.
Qed.

Lemma lowerString_length (s : string) :
  String.length (YouTubeExtractor.lowerString s) = String.length s.
Proof. induction s as [|c r IH]; simpl; [reflexivity|now rewrite IH]. Qed.

Lemma extensionHere_cons (c : ascii) (r : string) :
  extensionHere (String c r)
  = (c =? ".")%char
    && existsb
         (fun e =>
            (YouTubeExtractor.lowerString (substring 0 (String.length e) r) =? e)%string
            && match substring (String.length e) (String.length r - String.length e) r with
               | EmptyString => true
               | String c' _ => (c' =? "?")%char
               end)
         ["mp4"; "m3u8"; "mpd"; "webm"; "mov"]%string.
Proof.
  destruct c as [[] [] [] [] [] [] [] []]; reflexivity.
Qed.

Lemma extensionHere_iff (s : string) :
  extensionHere s = true
  <-> exists x rest,
      s = ("." ++ x ++ rest)%string
      /\ In (YouTubeExtractor.lowerString x) ["mp4"; "m3u8"; "mpd"; "webm"; "mov"]%string
      /\ (rest = ""%string \/ exists t, rest = ("?" ++ t)%string).
Proof.
  destruct s as [|c r].
  - split; [discriminate|]. intros (x & rest & H & _). discriminate.
  - rewrite extensionHere_cons, andb_true_iff, existsb_exists. split.
    + intros [Hc (e & He & Hm)]. apply Ascii.eqb_eq in Hc. subst c.
      apply andb_true_iff in Hm. destruct Hm as [Hx Hrest].
      apply String.eqb_eq in Hx.
      set (x := substring 0 (String.length e) r) in *.
      assert (Hlen : String.length x = String.length e)
        by (rewrite <- (lowerString_length x); now rewrite Hx).
      destruct (substring_take r (String.length e) Hlen) as [tail Ht].
      fold x in Ht.
      assert (Htail : substring (String.length e) (String.length r - String.length e) r = tail).
      { pose proof (substring_rest x tail) as Hr. rewrite <- Ht, Hlen in Hr. exact Hr. }
      rewrite Htail in Hrest.
      exists x, tail. split; [simpl; now rewrite <- Ht|]. split; [now rewrite Hx|].
      destruct tail as [|c' t]; [now left|]. right. apply Ascii.eqb_eq in Hrest.
      subst c'. now exists t.
    + intros (x & rest & H & Hin & Hrest). simpl in H. inversion H; subst c r.
      split; [reflexivity|]. exists (YouTubeExtractor.lowerString x). split; [exact Hin|].
      rewrite lowerString_length, substring_head, String.eqb_refl, substring_rest.
      destruct Hrest as [->|[t ->]]; reflexivity.
Qed.

Lemma isValidTrailerUrl_parses (h : Host) (url : string) :
  isValidTrailerUrl h url = true ->
  exists link, new_Link h url = Some link
               /\ (protocol link = "http:"%string \/ protocol link = "https:"%string).
Proof.
  unfold isValidTrailerUrl. destruct (new_Link h url) as [u|]; [|discriminate].
  destruct (existsb (String.eqb (protocol u)) ["http:"; "https:"]%string) eqn:Hp;
    [|discriminate].
  intros _. exists u. split; [reflexivity|].
  cbn [existsb] in Hp. rewrite !orb_true_iff, !String.eqb_eq in Hp.
  destruct Hp as [Hp|[Hp|Hp]]; [now left|now right|discriminate].
Qed.

(** X11. [isValidTrailerUrl] accepts exactly the strings that the URL
    constructor parses, whose protocol is [http:] or [https:], and
    whose lower-cased host name holds one of the nine trusted domains
    anywhere in it, or whose path holds a dot followed by mp4, m3u8,
    mpd, webm or mov in any case, at the end or before a question
    mark. A string that does not parse is refused, not an error. *)
Theorem isValidTrailerUrl_accepts_exactly :
  forall (h : Host) (url : string),
    isValidTrailerUrl h url = true
    <-> exists u,
        new_Link h url = Some u
        /\ (protocol u = "http:"%string \/ protocol u = "https:"%string)
        /\ ((exists d, In d TRUSTED_DOMAINS
                       /\ Occurs d (JS.toLowerCase (link_hostname u)))
            \/ MediaPath (link_pathname u)).
Proof.
  intros h url. unfold isValidTrailerUrl.
  destruct (new_Link h url) as [u|].
  2:{ split; [discriminate|]. intros (u & H & _). discriminate. }
  assert (Hp : existsb (String.eqb (protocol u)) ["http:"; "https:"]%string = true
               <-> (protocol u = "http:"%string \/ protocol u = "https:"%string)).
  { cbn [existsb]. rewrite !orb_true_iff, !String.eqb_eq. intuition discriminate. }
  assert (Hd : existsb (fun d => JS.includes d (JS.toLowerCase (link_hostname u)))
                 TRUSTED_DOMAINS = true
               <-> exists d, In d TRUSTED_DOMAINS
                             /\ Occurs d (JS.toLowerCase (link_hostname u))).
  { rewrite existsb_exists. split; intros (d & Hin & H); exists d; split; try assumption;
      now apply includes_iff. }
  assert (Hm : test extensionHere (link_pathname u) = true <-> MediaPath (link_pathname u)).
  { rewrite test_iff. unfold MediaPath. split.
    - intros (a & b & Hs & Hb). apply extensionHere_iff in Hb.
      destruct Hb as (x & rest & Hb & Hin & Hrest). exists a, x, rest. now subst b.
    - intros (a & x & rest & Hs & Hin & Hrest).
      exists a, ("." ++ x ++ rest)%string. split; [exact Hs|].
      apply extensionHere_iff. now exists x, rest. }
  destruct (existsb (String.eqb (protocol u)) ["http:"; "https:"]%string) eqn:Eproto;
    cbn [negb].
  - rewrite orb_true_iff, Hd, Hm. split.
    + intros H. exists u. split; [reflexivity|]. split; [now apply Hp|exact H].
    + intros (u' & Hu & _ & H). now inversion Hu; subst u'.
  - split; [discriminate|]. intros (u' & Hu & Hproto & _). inversion Hu; subst u'.
    apply Hp in Hproto. discriminate.
Qed.

(** *** Rules for the service monad *)

Lemma triple_pure {A : Type} (P : Service -> Prop) (a : A)
  (Q : A -> Service -> Prop) (E : Service -> Prop) :
  (forall s, P s -> Q a s) -> triple P (pure a) Q E.
Proof. intros H s Hs. now apply H. Qed.

Lemma triple_bind {A B : Type} (P : Service -> Prop) (m : Svc A) (k : A -> Svc B)
  (R : A -> Service -> Prop) (Q : B -> Service -> Prop) (E : Service -> Prop) :
  triple P m R E -> (forall a, triple (R a) (k a) Q E) -> triple P (andThen m k) Q E.
Proof.
  intros Hm Hk s Hs. unfold andThen. specialize (Hm s Hs).
  destruct (m s) as [[a|] s']; [now apply Hk|exact Hm].
Qed.

Lemma triple_attempt {A : Type} (P : Service -> Prop) (m handler : Svc A)
  (Q : A -> Service -> Prop) (E' E : Service -> Prop) :
  triple P m Q E' -> triple E' handler Q E -> triple P (attempt m handler) Q E.
Proof.
  intros Hm Hh s Hs. unfold attempt. specialize (Hm s Hs).
  destruct (m s) as [[a|] s']; [exact Hm|now apply Hh].
Qed.

Lemma triple_weaken {A : Type} (P : Service -> Prop) (m : Svc A)
  (Q : A -> Service -> Prop) (E E' : Service -> Prop) :
  triple P m Q E -> (forall s, E s -> E' s) -> triple P m Q E'.
Proof.
  intros Hm HE s Hs. specialize (Hm s Hs).
  destruct (m s) as [[a|] s']; [exact Hm|now apply HE].
Qed.

(** *** The server *)

Lemma doServerFetch_run (h : Host) (address : string) (s : Service) :
  doServerFetch h address s
  = (YouTubeExtractor.Normal (accepted h (server h (requested s) address)),
     asked s address).
Proof.
  unfold doServerFetch, attempt, andThen, await_fetch, accepted, answerUrl.
  fold (asked s address).
  destruct (server h (requested s) address) as [| |r]; try reflexivity.
  destruct (server_ok r); cbn [negb]; [|reflexivity].
  unfold await_json. destruct (server_json r) as [data|]; [|reflexivity].
  unfold pure. destruct (data_url data) as [u|]; [|reflexivity].
  destruct (JS.truthy u), (isValidTrailerUrl h u); reflexivity.
Qed.

Lemma fetchFromServer_run (h : Host) (youtubeUrl : string) (title year : option string)
  (s : Service) :
  fetchFromServer h youtubeUrl title year s
  = (YouTubeExtractor.Normal
       (accepted h (server h (requested s) (trailerAddress h youtubeUrl title year))),
     asked s (trailerAddress h youtubeUrl title year)).
Proof. unfold fetchFromServer. apply doServerFetch_run. Qed.

Lemma getTrailerFromServer_run (h : Host) (title : string) (year : YouTubeExtractor.number)
  (tmdbId : option string) (type : option MediaType) (s : Service) :
  exists address,
    String.prefix (AUTO_SEARCH_URL (env h) ++ "?") address = true
    /\ getTrailerFromServer h title year tmdbId type s
       = (YouTubeExtractor.Normal (accepted h (server h (requested s) address)),
          asked s address).
Proof.
  unfold getTrailerFromServer. eexists. split; [|apply doServerFetch_run].
  apply prefix_iff. eexists. rewrite append_assoc. reflexivity.
Qed.

Lemma truthy_not_empty (u : string) : JS.truthy u = true <-> u <> ""%string.
Proof.
  unfold JS.truthy. rewrite negb_true_iff. apply String.eqb_neq.
Qed.

Lemma accepted_Some (h : Host) (o : ServerOutcome) (u : string) :
  accepted h o = Some u
  <-> answerUrl o = Some u /\ u <> ""%string /\ isValidTrailerUrl h u = true.
Proof.
  unfold accepted. destruct (answerUrl o) as [v|].
  - destruct (JS.truthy v) eqn:Ht, (isValidTrailerUrl h v) eqn:Hv; cbn [andb].
    + split.
      * intros H. inversion H; subst v. now rewrite <- truthy_not_empty.
      * intros (H & _). exact H.
    + split; [discriminate|]. intros (H & _ & Hu). inversion H; subst v. congruence.
    + split; [discriminate|]. intros (H & Hu & _). inversion H; subst v.
      apply truthy_not_empty in Hu. congruence.
    + split; [discriminate|]. intros (H & Hu & _). inversion H; subst v.
      apply truthy_not_empty in Hu. congruence.
  - split; [discriminate|]. intros (H & _). discriminate.
Qed.

(** X12. A request to the server never throws and is sent exactly
    once, whatever the server does; the cache and the extractor are not
    touched. It yields a url only when the server answered with a 2xx
    status and a body whose [url] is that string, the string is not
    empty and [isValidTrailerUrl] accepts it, so that it parses as an
    http or https URL; every other outcome (a rejected or aborted
    request, another status, an unreadable body, a refused url) yields
    null. Both request builders are such a request, to an address that
    starts with the trailer or search endpoint and a question mark. *)
Theorem server_result_is_validated :
  forall (h : Host) (s : Service),
    (forall address,
        exists r,
          doServerFetch h address s = (YouTubeExtractor.Normal r, asked s address)
          /\ (forall u, r = Some u
                        <-> answerUrl (server h (requested s) address) = Some u
                            /\ u <> ""%string /\ isValidTrailerUrl h u = true)
          /\ (forall u, r = Some u ->
                        exists link, new_Link h u = Some link
                                     /\ (protocol link = "http:"%string
                                         \/ protocol link = "https:"%string)))
    /\ (forall youtubeUrl title year,
           exists address,
             String.prefix (LOCAL_SERVER_URL (env h) ++ "?") address = true
             /\ fetchFromServer h youtubeUrl title year s = doServerFetch h address s)
    /\ (forall title year tmdbId type,
           exists address,
             String.prefix (AUTO_SEARCH_URL (env h) ++ "?") address = true
             /\ getTrailerFromServer h title year tmdbId type s = doServerFetch h address s).
Proof.
  intros h s. split; [|split].
  - intros address. eexists. split; [apply doServerFetch_run|]. split.
    + intros u. apply accepted_Some.
    + intros u Hu. apply accepted_Some in Hu. destruct Hu as (_ & _ & Hv).
      now apply isValidTrailerUrl_parses.
  - intros youtubeUrl title year. eexists. split; [|reflexivity].
    apply prefix_iff. eexists. rewrite append_assoc. reflexivity.
  - intros title year tmdbId type. eexists. split; [|reflexivity].
    apply prefix_iff. eexists. rewrite append_assoc. reflexivity.
Qed.

(** *** The cache under the public operations *)

Lemma this_getCached_keeps (h : Host) (key : string) (E : Service -> Prop) :
  triple (fun s => CacheOk (urlCache s)) (this_getCached h key)
         (fun _ s' => CacheOk (urlCache s')) E.
Proof.
  intros s Hs. unfold this_getCached.
  pose proof (CacheOk_getCached (Date_now h (readings s)) key (urlCache s) Hs) as H.
  destruct (getCached (Date_now h (readings s)) key (urlCache s)) as [found cache].
  exact H.
Qed.

Lemma this_setCache_keeps (h : Host) (key url : string) (E : Service -> Prop) :
  key <> ""%string ->
  triple (fun s => CacheOk (urlCache s)) (this_setCache h key url)
         (fun _ s' => CacheOk (urlCache s')) E.
Proof. intros Hk s Hs. now apply CacheOk_setCache. Qed.

Lemma cacheIfFound_keeps (h : Host) (key : string) (url : option string)
  (E : Service -> Prop) :
  key <> ""%string ->
  triple (fun s => CacheOk (urlCache s)) (cacheIfFound h key url)
         (fun _ s' => CacheOk (urlCache s')) E.
Proof.
  intros Hk. unfold cacheIfFound. destruct url as [u|]; [|now apply triple_pure].
  destruct (JS.truthy u); [|now apply triple_pure].
  eapply triple_bind; [now apply this_setCache_keeps|].
  intros ?. now apply triple_pure.
Qed.

Lemma await_getBestStreamUrl_keeps (h : Host) (input : string)
  (platform : YouTubeExtractor.Platform) :
  triple (fun s => CacheOk (urlCache s)) (await_getBestStreamUrl h input platform)
         (fun _ s' => CacheOk (urlCache s')) (fun s' => CacheOk (urlCache s')).
Proof.
  intros s Hs. unfold await_getBestStreamUrl.
  destruct (YouTubeExtractor.getBestStreamUrl (extractor h) input (Some platform) (world s))
    as [[r|] w]; exact Hs.
Qed.

Lemma doServerFetch_keeps (h : Host) (address : string) : Keeps (doServerFetch h address).
Proof. intros s Hs. rewrite doServerFetch_run. exact Hs. Qed.

Lemma fetchFromServer_keeps (h : Host) (youtubeUrl : string) (title year : option string) :
  Keeps (fetchFromServer h youtubeUrl title year).
Proof. apply doServerFetch_keeps. Qed.

Lemma getTrailerFromServer_keeps (h : Host) (title : string) (year : YouTubeExtractor.number)
  (tmdbId : option string) (type : option MediaType) :
  Keeps (getTrailerFromServer h title year tmdbId type).
Proof. apply doServerFetch_keeps. Qed.

Lemma getTrailerFromVideoId_keeps (h : Host) (youtubeVideoId : string)
  (title : option string) (year : option YouTubeExtractor.number) :
  Keeps (getTrailerFromVideoId h youtubeVideoId title year).
Proof.
  unfold Keeps, getTrailerFromVideoId.
  destruct (JS.truthy youtubeVideoId) eqn:Hid; cbn [negb]; [|now apply triple_pure].
  apply truthy_not_empty in Hid.
  eapply triple_bind; [apply this_getCached_keeps|]. intros cached.
  destruct (JS.truthy_opt cached); [now apply triple_pure|].
  eapply triple_bind with (R := fun _ s' => CacheOk (urlCache s')).
  - eapply triple_attempt with (E' := fun s' => CacheOk (urlCache s'));
      [|now apply triple_pure].
    eapply triple_bind; [apply await_getBestStreamUrl_keeps|].
    intros url. now apply cacheIfFound_keeps.
  - intros [url|]; [now apply triple_pure|].
    eapply triple_bind; [apply fetchFromServer_keeps|].
    intros serverUrl. now apply cacheIfFound_keeps.
Qed.

Lemma getTrailerUrl_keeps (h : Host) (title : string) (year : YouTubeExtractor.number)
  (tmdbId : option string) (type : option MediaType) :
  Keeps (getTrailerUrl h title year tmdbId type).
Proof.
  unfold Keeps, getTrailerUrl.
  eapply triple_bind; [apply this_getCached_keeps|]. intros cached.
  destruct (JS.truthy_opt cached); [now apply triple_pure|].
  eapply triple_bind; [apply getTrailerFromServer_keeps|]. intros serverResult.
  eapply triple_bind; [apply cacheIfFound_keeps; discriminate|].
  intros ?. now apply triple_pure.
Qed.

(** X13. The cache stays well formed in use: started on a cache with
    distinct keys, at most 100 entries and no empty key (the empty
    cache is one), each of the five public operations returns without
    throwing and leaves such a cache behind. The service never stores
    under the empty key, so the bound of 100 entries holds for it. *)
Theorem service_keeps_cache_well_formed :
  forall h : Host,
    CacheOk []
    /\ (forall youtubeVideoId title year,
           Keeps (getTrailerFromVideoId h youtubeVideoId title year))
    /\ (forall youtubeUrl title year,
           Keeps (getTrailerFromYouTubeUrl h youtubeUrl title year))
    /\ (forall title year tmdbId type, Keeps (getTrailerUrl h title year tmdbId type))
    /\ (forall videoId, Keeps (isTrailerAvailable h videoId))
    /\ (forall title year, Keeps (getTrailerData h title year)).
Proof.
  intros h. split; [|split; [|split; [|split; [|split]]]].
  - repeat split; [constructor|simpl; lia|intros []].
  - intros. apply getTrailerFromVideoId_keeps.
  - intros youtubeUrl title year. unfold getTrailerFromYouTubeUrl.
    destruct (YouTubeExtractor.parseVideoId (extractor h) youtubeUrl) as [videoId|];
      [|apply fetchFromServer_keeps].
    destruct (JS.truthy videoId); cbn [negb];
      [apply getTrailerFromVideoId_keeps|apply fetchFromServer_keeps].
  - intros. apply getTrailerUrl_keeps.
  - intros videoId. unfold Keeps, isTrailerAvailable.
    eapply triple_bind; [apply getTrailerFromVideoId_keeps|].
    intros found. now apply triple_pure.
  - intros title year. unfold Keeps, getTrailerData.
    eapply triple_bind; [apply getTrailerUrl_keeps|].
    intros url. destruct (JS.truthy_opt url); cbn [negb]; now apply triple_pure.
Qed.

(** *** One call of [getTrailerFromVideoId] *)

Lemma this_getCached_run (h : Host) (key : string) (s : Service) :
  this_getCached h key s = (YouTubeExtractor.Normal (lookup h key s), looked h key s).
Proof.
  unfold looked, lookup, this_getCached.
  now destruct (getCached (Date_now h (readings s)) key (urlCache s)).
Qed.

Lemma looked_frame (h : Host) (key : string) (s : Service) :
  world (looked h key s) = world s
  /\ requested (looked h key s) = requested s
  /\ urlCache (looked h key s) = snd (getCached (Date_now h (readings s)) key (urlCache s)).
Proof.
  unfold looked, this_getCached.
  now destruct (getCached (Date_now h (readings s)) key (urlCache s)).
Qed.

Lemma cacheIfFound_run (h : Host) (key : string) (url : option string) (s : Service) :
  cacheIfFound h key url s
  = match url with
    | Some u => if JS.truthy u then (YouTubeExtractor.Normal (Some u), stored h key u s)
                else (YouTubeExtractor.Normal None, s)
    | None => (YouTubeExtractor.Normal None, s)
    end.
Proof.
  unfold cacheIfFound. destruct url as [u|]; [|reflexivity].
  destruct (JS.truthy u); reflexivity.
Qed.

Lemma getTrailerFromVideoId_run (h : Host) (youtubeVideoId : string)
  (title : option string) (year : option YouTubeExtractor.number) (s : Service) :
  JS.truthy youtubeVideoId = true ->
  getTrailerFromVideoId h youtubeVideoId title year s
  = if JS.truthy_opt (lookup h youtubeVideoId s)
    then (YouTubeExtractor.Normal (lookup h youtubeVideoId s), looked h youtubeVideoId s)
    else
      let s2 := withWorld (looked h youtubeVideoId s)
                  (snd (onDevice h youtubeVideoId (world s))) in
      match deviceUrl h youtubeVideoId (world s) with
      | Some u => (YouTubeExtractor.Normal (Some u), stored h youtubeVideoId u s2)
      | None =>
          let address := trailerAddress h (watchUrl youtubeVideoId) title
                           (option_map YouTubeExtractor.showNumber year) in
          match accepted h (server h (requested s) address) with
          | Some u =>
              (YouTubeExtractor.Normal (Some u),
               stored h youtubeVideoId u (asked s2 address))
          | None => (YouTubeExtractor.Normal None, asked s2 address)
          end
      end.
Proof.
  intros Hid. unfold getTrailerFromVideoId. rewrite Hid. cbn [negb].
  unfold andThen at 1. rewrite this_getCached_run.
  destruct (JS.truthy_opt (lookup h youtubeVideoId s)); [reflexivity|].
  destruct (looked_frame h youtubeVideoId s) as (Hw & Hr & _).
  unfold andThen at 1. unfold attempt, andThen at 1, await_getBestStreamUrl.
  fold (platformOf h). rewrite Hw. unfold deviceUrl, onDevice.
  destruct (YouTubeExtractor.getBestStreamUrl (extractor h) youtubeVideoId
              (Some (platformOf h)) (world s)) as [[[u|]|] w] eqn:Hdev;
    cbn [fst snd]; fold (withWorld (looked h youtubeVideoId s) w).
  - rewrite cacheIfFound_run. destruct (JS.truthy u); [reflexivity|].
    unfold pure, andThen. rewrite fetchFromServer_run, cacheIfFound_run.
    cbn [withWorld requested]. rewrite Hr. fold (watchUrl youtubeVideoId).
    destruct (accepted h _) as [v|] eqn:Hacc; [|reflexivity].
    apply accepted_Some in Hacc. destruct Hacc as (_ & Hv & _).
    apply truthy_not_empty in Hv. now rewrite Hv.
  - rewrite cacheIfFound_run.
    unfold pure, andThen. rewrite fetchFromServer_run, cacheIfFound_run.
    cbn [withWorld requested]. rewrite Hr. fold (watchUrl youtubeVideoId).
    destruct (accepted h _) as [v|] eqn:Hacc; [|reflexivity].
    apply accepted_Some in Hacc. destruct Hacc as (_ & Hv & _).
    apply truthy_not_empty in Hv. now rewrite Hv.
  - unfold pure, andThen. rewrite fetchFromServer_run, cacheIfFound_run.
    cbn [withWorld requested]. rewrite Hr. fold (watchUrl youtubeVideoId).
    destruct (accepted h _) as [v|] eqn:Hacc; [|reflexivity].
    apply accepted_Some in Hacc. destruct Hacc as (_ & Hv & _).
    apply truthy_not_empty in Hv. now rewrite Hv.
Qed.

Lemma getCached_Some (now : Z) (key u : string) (c : Cache) :
  fst (getCached now key c) = Some u ->
  snd (getCached now key c) = c
  /\ exists e, JS.Map.get key c = Some e /\ url e = u
               /\ now <= expiresAt e /\ JS.endsWith u ".mpd" = false.
Proof.
  unfold getCached. destruct (JS.Map.get key c) as [e|]; [|discriminate].
  destruct (Z.gtb_spec now (expiresAt e)) as [Hlate|Hfresh]; [discriminate|].
  destruct (JS.endsWith (url e) ".mpd") eqn:Hm; [discriminate|].
  cbn [fst snd]. intros Hu. inversion Hu; subst u. split; [reflexivity|].
  exists e. now repeat split.
Qed.

Lemma lookup_hit (h : Host) (key : string) (s : Service) (e : CacheEntry) :
  JS.Map.get key (urlCache s) = Some e ->
  Date_now h (readings s) <= expiresAt e ->
  JS.endsWith (url e) ".mpd" = false ->
  lookup h key s = Some (url e)
  /\ looked h key s = {| urlCache := urlCache s; world := world s;
                         requested := requested s; readings := S (readings s) |}.
Proof.
  intros Hget Hfresh Hm. unfold lookup, looked, this_getCached, getCached.
  rewrite Hget.
  destruct (Z.gtb_spec (Date_now h (readings s)) (expiresAt e)); [lia|].
  rewrite Hm. now split.
Qed.

Lemma lookup_manifest (h : Host) (key : string) (s : Service) (e : CacheEntry) :
  JS.Map.get key (urlCache s) = Some e ->
  JS.endsWith (url e) ".mpd" = true ->
  lookup h key s = None.
Proof.
  intros Hget Hm. unfold lookup, getCached. rewrite Hget, Hm.
  now destruct (Date_now h (readings s) >? expiresAt e).
Qed.

Lemma deviceUrl_Some (h : Host) (id u : string) (w : YouTubeExtractor.World) :
  deviceUrl h id w = Some u ->
  fst (onDevice h id w) = YouTubeExtractor.Normal (Some u) /\ u <> ""%string.
Proof.
  unfold deviceUrl. destruct (fst (onDevice h id w)) as [[v|]|]; try discriminate.
  destruct (JS.truthy v) eqn:Hv; [|discriminate].
  intros H. inversion H; subst v. split; [reflexivity|now apply truthy_not_empty].
Qed.

Lemma getTrailerFromVideoId_not_empty (h : Host) (youtubeVideoId : string)
  (title : option string) (year : option YouTubeExtractor.number) (s s1 : Service)
  (u : string) :
  getTrailerFromVideoId h youtubeVideoId title year s
  = (YouTubeExtractor.Normal (Some u), s1) ->
  JS.truthy youtubeVideoId = true /\ u <> ""%string.
Proof.
  intros H. destruct (JS.truthy youtubeVideoId) eqn:Hid.
  2:{ unfold getTrailerFromVideoId in H. rewrite Hid in H. discriminate. }
  split; [reflexivity|].
  rewrite (getTrailerFromVideoId_run h youtubeVideoId title year s Hid) in H.
  destruct (JS.truthy_opt (lookup h youtubeVideoId s)) eqn:Hhit.
  - inversion H as [[Hl Hs]]. rewrite Hl in Hhit. now apply truthy_not_empty.
  - cbv zeta in H. destruct (deviceUrl h youtubeVideoId (world s)) as [v|] eqn:Hdev.
    + inversion H; subst v. now apply deviceUrl_Some in Hdev.
    + destruct (accepted h _) as [v|] eqn:Hacc; [|discriminate].
      inversion H; subst v. apply accepted_Some in Hacc. tauto.
Qed.

(** X14. One call of [getTrailerFromVideoId] never throws. With the
    empty identifier it returns null and does nothing. When the cache
    holds a live url for the identifier, that url is returned and
    neither the extractor nor the server is contacted, and the cache
    keeps its entries. In every case the extractor runs at most once
    and the server is asked at most once, only when the extraction gave
    no url, and at the trailer address built from the watch link of the
    identifier.
    A url that is returned is never empty and is the cached one, the
    extracted one, or the one the server gave and the validation
    accepted. *)
Theorem getTrailerFromVideoId_effects :
  forall (h : Host) (youtubeVideoId : string) (title : option string)
         (year : option YouTubeExtractor.number) (s : Service),
    let run := getTrailerFromVideoId h youtubeVideoId title year s in
    let address := trailerAddress h (watchUrl youtubeVideoId) title
                     (option_map YouTubeExtractor.showNumber year) in
    (exists r, fst run = YouTubeExtractor.Normal r)
    /\ (youtubeVideoId = ""%string -> run = (YouTubeExtractor.Normal None, s))
    /\ (forall u, youtubeVideoId <> ""%string ->
                  lookup h youtubeVideoId s = Some u -> u <> ""%string ->
                  fst run = YouTubeExtractor.Normal (Some u)
                  /\ urlCache (snd run) = urlCache s
                  /\ world (snd run) = world s
                  /\ requested (snd run) = requested s)
    /\ (world (snd run) = world s
        \/ world (snd run) = snd (onDevice h youtubeVideoId (world s)))
    /\ (requested (snd run) = requested s
        \/ (requested (snd run) = requested s ++ [address]
            /\ deviceUrl h youtubeVideoId (world s) = None))
    /\ (forall u, fst run = YouTubeExtractor.Normal (Some u) ->
                  u <> ""%string
                  /\ (lookup h youtubeVideoId s = Some u
                      \/ deviceUrl h youtubeVideoId (world s) = Some u
                      \/ (deviceUrl h youtubeVideoId (world s) = None
                          /\ accepted h (server h (requested s) address) = Some u))).
Proof.
  intros h id title year s run address.
  destruct (JS.truthy id) eqn:Hid.
  2:{ assert (Hrun : run = (YouTubeExtractor.Normal None, s)).
      { unfold run, getTrailerFromVideoId. now rewrite Hid. }
      assert (Hne : id = ""%string).
      { destruct id; [reflexivity|discriminate]. }
      rewrite Hrun. cbn [fst snd].
      split; [eauto|]. split; [reflexivity|]. split; [intros u Hc; contradiction|].
      split; [now left|]. split; [now left|]. intros u Hu. discriminate. }
  assert (Hne : id <> ""%string) by (now apply truthy_not_empty).
  pose proof (getTrailerFromVideoId_run h id title year s Hid) as Hrun.
  fold run in Hrun. fold address in Hrun. cbv zeta in Hrun.
  destruct (looked_frame h id s) as (Hw & Hr & Hc).
  destruct (JS.truthy_opt (lookup h id s)) eqn:Hhit.
  - apply truthy_opt_Some in Hhit. destruct Hhit as (v & Hv & Htv).
    apply truthy_not_empty in Htv.
    rewrite Hrun. cbn [fst snd]. rewrite Hw, Hr, Hc.
    split; [eauto|]. split; [contradiction|]. split.
    { intros u _ Hu _. rewrite Hu. repeat split.
      unfold lookup in Hu. now apply getCached_Some in Hu. }
    split; [now left|]. split; [now left|].
    intros u Hu. rewrite Hv in Hu. inversion Hu; subst u. split; [exact Htv|].
    left. exact Hv.
  - assert (Hmiss : forall u, lookup h id s = Some u -> u <> ""%string -> False).
    { intros u Hu Hne'. rewrite Hu in Hhit. cbn [JS.truthy_opt] in Hhit.
      apply truthy_not_empty in Hne'. congruence. }
    destruct (deviceUrl h id (world s)) as [v|] eqn:Hdev.
    + rewrite Hrun. cbn [fst snd stored withWorld world requested]. rewrite Hr.
      split; [eauto|]. split; [contradiction|]. split.
      { intros u _ Hu Hu'. exfalso. eauto. }
      split; [now right|]. split; [now left|].
      intros u Hu. inversion Hu; subst u. apply deviceUrl_Some in Hdev. tauto.
    + destruct (accepted h (server h (requested s) address)) as [v|] eqn:Hacc;
        rewrite Hrun; cbn [fst snd stored asked withWorld world requested]; rewrite Hr.
      * split; [eauto|]. split; [contradiction|]. split.
        { intros u _ Hu Hu'. exfalso. eauto. }
        split; [now right|]. split; [now right|].
        intros u Hu. inversion Hu; subst u.
        pose proof Hacc as Hacc'. apply accepted_Some in Hacc'. tauto.
      * split; [eauto|]. split; [contradiction|]. split.
        { intros u _ Hu Hu'. exfalso. eauto. }
        split; [now right|]. split; [now right|].
        intros u Hu. discriminate.
Qed.

(** X15. After a call of [getTrailerFromVideoId] that returned a url,
    on a cache within its capacity, the cache holds that url under the
    identifier. A second call for the identifier, made while the clock
    has not passed the entry's expiry, returns the same url from the
    cache and contacts nothing, unless the url ends in [.mpd]: a
    manifest path is stored but never served, the lookup misses and
    the extractor runs again. *)
Theorem repeated_call_is_served_from_cache :
  forall (h : Host) (youtubeVideoId : string) (title : option string)
         (year : option YouTubeExtractor.number) (s s1 : Service) (u : string),
    (List.length (urlCache s) <= 100)%nat ->
    getTrailerFromVideoId h youtubeVideoId title year s
    = (YouTubeExtractor.Normal (Some u), s1) ->
    exists e,
      JS.Map.get youtubeVideoId (urlCache s1) = Some e
      /\ url e = u
      /\ (forall title' year',
             Date_now h (readings s1) <= expiresAt e ->
             JS.endsWith u ".mpd" = false ->
             getTrailerFromVideoId h youtubeVideoId title' year' s1
             = (YouTubeExtractor.Normal (Some u),
                {| urlCache := urlCache s1; world := world s1;
                   requested := requested s1; readings := S (readings s1) |}))
      /\ (JS.endsWith u ".mpd" = true ->
          lookup h youtubeVideoId s1 = None
          /\ forall title' year',
               world (snd (getTrailerFromVideoId h youtubeVideoId title' year' s1))
               = snd (onDevice h youtubeVideoId (world s1))).
Proof.
  intros h id title year s s1 u Hcap Hfirst.
  destruct (getTrailerFromVideoId_not_empty h id title year s s1 u Hfirst) as [Hid Hu].
  assert (Hentry : exists e, JS.Map.get id (urlCache s1) = Some e /\ url e = u).
  { rewrite (getTrailerFromVideoId_run h id title year s Hid) in Hfirst.
    destruct (looked_frame h id s) as (_ & _ & Hc).
    assert (Hlen : (List.length (urlCache (looked h id s)) <= 100)%nat).
    { rewrite Hc. unfold getCached.
      destruct (JS.Map.get id (urlCache s)) as [e|]; [|exact Hcap].
      pose proof (delete_length id (urlCache s)).
      destruct (_ >? _); [cbn [snd]; lia|].
      destruct (JS.endsWith _ _); cbn [snd]; lia. }
    destruct (JS.truthy_opt (lookup h id s)) eqn:Hhit.
    - inversion Hfirst as [[Hl Hs1]]. rewrite Hc.
      unfold lookup in Hl. apply getCached_Some in Hl.
      destruct Hl as (Hsame & e & Hget & Hurl & _). rewrite Hsame. now exists e.
    - cbv zeta in Hfirst.
      destruct (deviceUrl h id (world s)) as [v|].
      + inversion Hfirst; subst v. cbn [stored urlCache withWorld].
        eexists. split; [now apply get_setCache|reflexivity].
      + destruct (accepted h _) as [v|]; [|discriminate].
        inversion Hfirst; subst v. cbn [stored urlCache withWorld asked].
        eexists. split; [now apply get_setCache|reflexivity]. }
  destruct Hentry as (e & Hget & Hurl). exists e. split; [exact Hget|].
  split; [exact Hurl|]. split.
  - intros title' year' Hfresh Hm. rewrite <- Hurl in Hm.
    destruct (lookup_hit h id s1 e Hget Hfresh Hm) as [Hl Hs].
    rewrite (getTrailerFromVideoId_run h id title' year' s1 Hid), Hl, Hurl, Hs.
    cbn [JS.truthy_opt]. apply truthy_not_empty in Hu. now rewrite Hu.
  - intros Hm. rewrite <- Hurl in Hm.
    pose proof (lookup_manifest h id s1 e Hget Hm) as Hl. split; [exact Hl|].
    intros title' year'.
    rewrite (getTrailerFromVideoId_run h id title' year' s1 Hid), Hl.
    cbn [JS.truthy_opt]. cbv zeta.
    destruct (deviceUrl h id (world s1)); [reflexivity|].
    destruct (accepted h _); reflexivity.
Qed.

(** The server's link is returned by a first call on the empty cache
    and served from the cache by the second. *)
Lemma repeated_call_scenario :
  fst (getTrailerFromVideoId serverHost sampleId None None freshService)
  = YouTubeExtractor.Normal (Some "https://Video.GoogleVideo.com/play"%string)
  /\ exists e,
      JS.Map.get sampleId
        (urlCache (snd (getTrailerFromVideoId serverHost sampleId None None freshService)))
      = Some e
      /\ url e = "https://Video.GoogleVideo.com/play"%string
      /\ (forall title' year',
             Date_now serverHost
               (readings (snd (getTrailerFromVideoId serverHost sampleId None None
                                 freshService)))
             <= expiresAt e ->
             JS.endsWith "https://Video.GoogleVideo.com/play" ".mpd" = false ->
             getTrailerFromVideoId serverHost sampleId title' year'
               (snd (getTrailerFromVideoId serverHost sampleId None None freshService))
             = (YouTubeExtractor.Normal (Some "https://Video.GoogleVideo.com/play"%string),
                {| urlCache :=
                     urlCache (snd (getTrailerFromVideoId serverHost sampleId None None
                                      freshService));
                   world :=
                     world (snd (getTrailerFromVideoId serverHost sampleId None None
                                   freshService));
                   requested :=
                     requested (snd (getTrailerFromVideoId serverHost sampleId None None
                                       freshService));
                   readings :=
                     S (readings (snd (getTrailerFromVideoId serverHost sampleId None None
                                         freshService))) |}))
      /\ (JS.endsWith "https://Video.GoogleVideo.com/play" ".mpd" = true ->
          lookup serverHost sampleId
            (snd (getTrailerFromVideoId serverHost sampleId None None freshService)) = None
          /\ forall title' year',
               world (snd (getTrailerFromVideoId serverHost sampleId title' year'
                             (snd (getTrailerFromVideoId serverHost sampleId None None
                                     freshService))))
               = snd (onDevice serverHost sampleId
                        (world (snd (getTrailerFromVideoId serverHost sampleId None None
                                       freshService))))).
Proof.
  split; [vm_compute; reflexivity|].
  apply (repeated_call_is_served_from_cache serverHost sampleId None None freshService
           (snd (getTrailerFromVideoId serverHost sampleId None None freshService))
           "https://Video.GoogleVideo.com/play").
  - simpl. lia.
  - vm_compute. reflexivity.
Defined.

(** *** Links and title searches *)

(** X16. [getTrailerFromYouTubeUrl] on a link that the normaliser
    reads is [getTrailerFromVideoId] on the canonical identifier, with
    the year parsed as a number; a canonical identifier passes as a
    link. On a link that the normaliser cannot read, the server is
    asked once with the raw link, nothing is extracted, and the answer
    is returned without being stored: the cache is left as it was. *)
Theorem getTrailerFromYouTubeUrl_delegates_or_asks_server :
  forall (h : Host) (youtubeUrl : string) (title year : option string) (s : Service),
    (forall id, YouTubeExtractor.parseVideoId (extractor h) youtubeUrl = Some id ->
                Spec.Canonical id
                /\ getTrailerFromYouTubeUrl h youtubeUrl title year s
                   = getTrailerFromVideoId h id title (yearNumber year) s)
    /\ (Spec.Canonical (JS.trim youtubeUrl) ->
        getTrailerFromYouTubeUrl h youtubeUrl title year s
        = getTrailerFromVideoId h (JS.trim youtubeUrl) title (yearNumber year) s)
    /\ (YouTubeExtractor.parseVideoId (extractor h) youtubeUrl = None ->
        getTrailerFromYouTubeUrl h youtubeUrl title year s
        = (YouTubeExtractor.Normal
             (accepted h (server h (requested s) (trailerAddress h youtubeUrl title year))),
           asked s (trailerAddress h youtubeUrl title year))
        /\ urlCache (snd (getTrailerFromYouTubeUrl h youtubeUrl title year s)) = urlCache s
        /\ world (snd (getTrailerFromYouTubeUrl h youtubeUrl title year s)) = world s).
Proof.
  intros h youtubeUrl title year s.
  assert (Hsome : forall id,
             YouTubeExtractor.parseVideoId (extractor h) youtubeUrl = Some id ->
             Spec.Canonical id
             /\ getTrailerFromYouTubeUrl h youtubeUrl title year s
                = getTrailerFromVideoId h id title (yearNumber year) s).
  { intros id Hid. unfold YouTubeExtractor.parseVideoId in Hid.
    pose proof (NormalizerFacts.extractVideoId_result_canonical _ _ _ Hid) as Hc.
    split; [exact Hc|].
    unfold getTrailerFromYouTubeUrl, YouTubeExtractor.parseVideoId. rewrite Hid.
    now rewrite (NormalizerFacts.Canonical_truthy _ Hc). }
  split; [exact Hsome|]. split.
  - intros Hc. apply Hsome. unfold YouTubeExtractor.parseVideoId.
    now apply NormalizerFacts.extractVideoId_canonical.
  - intros Hnone. unfold getTrailerFromYouTubeUrl. rewrite Hnone.
    rewrite fetchFromServer_run. now repeat split.
Qed.

(** A canonical identifier given as the link is looked up like the
    identifier itself. *)
Lemma youtube_link_scenario :
  getTrailerFromYouTubeUrl serverHost sampleId None (Some "1999"%string) freshService
  = getTrailerFromVideoId serverHost (JS.trim sampleId) None
      (yearNumber (Some "1999"%string)) freshService.
Proof.
  apply (proj1 (proj2 (getTrailerFromYouTubeUrl_delegates_or_asks_server
                         serverHost sampleId None (Some "1999"%string) freshService))).
  reflexivity.
Defined.

Lemma getTrailerUrl_run (h : Host) (title : string) (year : YouTubeExtractor.number)
  (tmdbId : option string) (type : option MediaType) (s : Service) :
  exists address,
    String.prefix (AUTO_SEARCH_URL (env h) ++ "?") address = true
    /\ getTrailerUrl h title year tmdbId type s
       = if JS.truthy_opt (lookup h (searchKey title year tmdbId) s)
         then (YouTubeExtractor.Normal (lookup h (searchKey title year tmdbId) s),
               looked h (searchKey title year tmdbId) s)
         else
           match accepted h (server h (requested s) address) with
           | Some u =>
               (YouTubeExtractor.Normal (Some u),
                stored h (searchKey title year tmdbId) u
                  (asked (looked h (searchKey title year tmdbId) s) address))
           | None =>
               (YouTubeExtractor.Normal None,
                asked (looked h (searchKey title year tmdbId) s) address)
           end.
Proof.
  destruct (looked_frame h (searchKey title year tmdbId) s) as (Hw & Hr & _).
  destruct (getTrailerFromServer_run h title year tmdbId type
              (looked h (searchKey title year tmdbId) s)) as (address & Hp & Hrun).
  exists address. split; [exact Hp|].
  unfold getTrailerUrl. fold (searchKey title year tmdbId).
  unfold andThen at 1. rewrite this_getCached_run.
  destruct (JS.truthy_opt (lookup h (searchKey title year tmdbId) s)); [reflexivity|].
  rewrite Hr in Hrun. unfold andThen at 1. rewrite Hrun.
  unfold andThen. rewrite cacheIfFound_run.
  destruct (accepted h (server h (requested s) address)) as [u|] eqn:Hacc; [|reflexivity].
  apply accepted_Some in Hacc. destruct Hacc as (_ & Hu & _).
  apply truthy_not_empty in Hu. now rewrite Hu.
Qed.

(** X17. A title search ([getTrailerUrl]) never throws and never runs
    the extractor: no request goes to YouTube and no file is written.
    A live cached url under the search key is returned without any
    request. In every case the server is asked at most once, at an
    address that starts with the search endpoint and a question mark,
    and its validated answer is then the result. A url that is returned
    is not empty and, on a cache within its capacity, is then held
    under the search key. [getTrailerData] returns null exactly when
    the search does, and otherwise that url passed through
    [getBestFormatUrl] with the title and year it was given. *)
Theorem title_search_effects :
  forall (h : Host) (title : string) (year : YouTubeExtractor.number)
         (tmdbId : option string) (type : option MediaType) (s : Service),
    let run := getTrailerUrl h title year tmdbId type s in
    let key := searchKey title year tmdbId in
    world (snd run) = world s
    /\ (exists r, fst run = YouTubeExtractor.Normal r)
    /\ (forall u, lookup h key s = Some u -> u <> ""%string ->
                  fst run = YouTubeExtractor.Normal (Some u)
                  /\ requested (snd run) = requested s
                  /\ urlCache (snd run) = urlCache s)
    /\ (requested (snd run) = requested s
        \/ exists address,
            String.prefix (AUTO_SEARCH_URL (env h) ++ "?") address = true
            /\ requested (snd run) = requested s ++ [address]
            /\ fst run
               = YouTubeExtractor.Normal (accepted h (server h (requested s) address)))
    /\ (forall u, fst run = YouTubeExtractor.Normal (Some u) ->
                  u <> ""%string
                  /\ ((List.length (urlCache s) <= 100)%nat ->
                      exists e, JS.Map.get key (urlCache (snd run)) = Some e /\ url e = u))
    /\ (tmdbId = None -> type = None ->
        getTrailerData h title year s
        = (YouTubeExtractor.Normal
             match fst run with
             | YouTubeExtractor.Normal (Some u) =>
                 Some {| trailer_url := getBestFormatUrl u;
                         trailer_title := title; trailer_year := year |}
             | _ => None
             end, snd run)).
Proof.
  intros h title year tmdbId type s run key.
  destruct (getTrailerUrl_run h title year tmdbId type s) as (address & Hp & Hrun).
  fold run in Hrun. fold key in Hrun.
  destruct (looked_frame h key s) as (Hw & Hr & Hc).
  assert (Hlen : (List.length (urlCache s) <= 100)%nat ->
                 (List.length (urlCache (looked h key s)) <= 100)%nat).
  { intros Hcap. rewrite Hc. unfold getCached.
    destruct (JS.Map.get key (urlCache s)) as [e|]; [|exact Hcap].
    pose proof (delete_length key (urlCache s)).
    destruct (_ >? _); [cbn [snd]; lia|].
    destruct (JS.endsWith _ _); cbn [snd]; lia. }
  assert (Hdata : forall r s',
             run = (YouTubeExtractor.Normal r, s') ->
             (forall u, r = Some u -> u <> ""%string) ->
             tmdbId = None -> type = None ->
             getTrailerData h title year s
             = (YouTubeExtractor.Normal
                  match r with
                  | Some u => Some {| trailer_url := getBestFormatUrl u;
                                      trailer_title := title; trailer_year := year |}
                  | None => None
                  end, s')).
  { intros r s' Hr' Hne -> ->. unfold getTrailerData, andThen. fold run. rewrite Hr'.
    destruct r as [u|]; [|reflexivity].
    cbn [JS.truthy_opt JS.or_else]. specialize (Hne u eq_refl).
    apply truthy_not_empty in Hne. rewrite Hne. reflexivity. }
  destruct (JS.truthy_opt (lookup h key s)) eqn:Hhit.
  - apply truthy_opt_Some in Hhit. destruct Hhit as (v & Hv & Htv).
    apply truthy_not_empty in Htv.
    assert (Hsame : snd (getCached (Date_now h (readings s)) key (urlCache s)) = urlCache s
                    /\ exists e, JS.Map.get key (urlCache s) = Some e /\ url e = v).
    { unfold lookup in Hv. apply getCached_Some in Hv.
      destruct Hv as (H1 & e & H2 & H3 & _). split; [exact H1|now exists e]. }
    destruct Hsame as (Hsame & e & Hget & Hurl).
    split; [rewrite Hrun; exact Hw|]. split; [eexists; rewrite Hrun; reflexivity|]. split.
    { intros u Hu _. rewrite Hrun. cbn [fst snd]. rewrite Hr, Hc, Hsame, Hu.
      now repeat split. }
    split; [left; rewrite Hrun; exact Hr|]. split.
    { intros u Hu. rewrite Hrun in Hu. cbn [fst] in Hu. rewrite Hv in Hu.
      inversion Hu; subst u. split; [exact Htv|]. intros _.
      rewrite Hrun. cbn [snd]. rewrite Hc, Hsame. now exists e. }
    rewrite Hrun. cbn [fst snd]. rewrite Hv. intros Ht Hty.
    apply (Hdata (Some v));
      [now rewrite Hrun, Hv|intros u Hu; inversion Hu; now subst u|exact Ht|exact Hty].
  - assert (Hmiss : forall u, lookup h key s = Some u -> u <> ""%string -> False).
    { intros u Hu Hne'. rewrite Hu in Hhit. cbn [JS.truthy_opt] in Hhit.
      apply truthy_not_empty in Hne'. congruence. }
    destruct (accepted h (server h (requested s) address)) as [v|] eqn:Hacc.
    + pose proof Hacc as Hacc'. apply accepted_Some in Hacc'.
      destruct Hacc' as (_ & Hv & _).
      split; [rewrite Hrun; exact Hw|]. split; [eexists; rewrite Hrun; reflexivity|]. split.
      { intros u Hu Hu'. exfalso. eauto. }
      split.
      { right. exists address. rewrite Hrun. cbn [fst snd stored asked requested].
        rewrite Hr, Hacc. now repeat split. }
      split.
      { intros u Hu. rewrite Hrun in Hu. inversion Hu; subst u. split; [exact Hv|].
        intros Hcap. rewrite Hrun. cbn [snd stored asked urlCache].
        eexists. split; [apply get_setCache; now apply Hlen|reflexivity]. }
      rewrite Hrun. cbn [fst snd]. intros Ht Hty.
      apply (Hdata (Some v));
        [exact Hrun|intros u Hu; inversion Hu; now subst u|exact Ht|exact Hty].
    + split; [rewrite Hrun; exact Hw|]. split; [eexists; rewrite Hrun; reflexivity|]. split.
      { intros u Hu Hu'. exfalso. eauto. }
      split.
      { right. exists address. rewrite Hrun. cbn [fst snd asked requested].
        rewrite Hr, Hacc. now repeat split. }
      split.
      { intros u Hu. rewrite Hrun in Hu. discriminate. }
      rewrite Hrun. cbn [fst snd]. intros Ht Hty.
      apply (Hdata None); [exact Hrun|discriminate|exact Ht|exact Hty].
Qed.

(** *** The legacy format helper *)

Lemma beforeQuery_parts (url : string) :
  JS.includes_char "?" (beforeQuery url) = false
  /\ (url = beforeQuery url \/ exists t, url = (beforeQuery url ++ "?" ++ t)%string).
Proof.
  unfold beforeQuery. induction url as [|c r IH]; [split; [reflexivity|now left]|].
  cbn [JS.split]. destruct (Ascii.eqb_spec c "?") as [->|Hc].
  - split; [reflexivity|]. right. now exists r.
  - destruct IH as [IH1 IH2].
    destruct (JS.split "?" r) as [|b t]; cbn [hd] in *.
    + split.
      * cbn [JS.includes_char]. apply Ascii.eqb_neq in Hc. now rewrite Hc.
      * destruct IH2 as [->|[t ->]]; [now left|right; now exists t].
    + split.
      * cbn [JS.includes_char]. apply Ascii.eqb_neq in Hc. now rewrite Hc.
      * destruct IH2 as [->|[t' ->]]; [now left|right; now exists t'].
Qed.

Lemma beforeQuery_append (base t : string) :
  JS.includes_char "?" base = false -> beforeQuery (base ++ "?" ++ t) = base.
Proof.
  intros H. unfold beforeQuery.
  change (base ++ "?" ++ t)%string with (base ++ String "?" t)%string.
  now rewrite ExtractorFacts.split_at_separator.
Qed.

Lemma Occurs_append_l (n a b : string) : Occurs n a -> Occurs n (a ++ b).
Proof.
  intros (x & y & ->). exists x, (y ++ b)%string. now rewrite !append_assoc.
Qed.

Lemma prefix_M3U_tail (c : ascii) (b : string) :
  String.prefix "M3U" (String c (b ++ "?formats=MPEG4"))
  = String.prefix "M3U" (String c b).
Proof.
  destruct b as [|d [|e b]]; cbn [String.prefix append];
    repeat match goal with
           | |- context [ascii_dec ?x ?y] => destruct (ascii_dec x y)
           end;
    try reflexivity; try discriminate; destruct b; reflexivity.
Qed.

Lemma includes_M3U_tail (base : string) :
  JS.includes "M3U" (base ++ "?formats=MPEG4") = JS.includes "M3U" base.
Proof.
  induction base as [|c b IH].
  - vm_compute. reflexivity.
  - change (String c b ++ "?formats=MPEG4")%string
      with (String c (b ++ "?formats=MPEG4")).
    cbn [JS.includes]. now rewrite prefix_M3U_tail, IH.
Qed.

(** X18. [getBestFormatUrl] leaves a url without [formats=] as it is.
    In every case the result is the url itself or the part of the url
    before its first question mark followed by one of two fixed
    queries, and applying the helper to its own result changes
    nothing. *)
Theorem getBestFormatUrl_rewrites_the_query_once :
  forall url : string,
    (JS.includes "formats=" url = false -> getBestFormatUrl url = url)
    /\ (getBestFormatUrl url = url
        \/ getBestFormatUrl url
           = (beforeQuery url ++ "?formats=M3U+none,M3U+appleHlsEncryption")%string
        \/ getBestFormatUrl url = (beforeQuery url ++ "?formats=MPEG4")%string)
    /\ JS.includes_char "?" (beforeQuery url) = false
    /\ (url = beforeQuery url \/ exists t, url = (beforeQuery url ++ "?" ++ t)%string)
    /\ getBestFormatUrl (getBestFormatUrl url) = getBestFormatUrl url.
Proof.
  intros url. destruct (beforeQuery_parts url) as [Hbase Hurl].
  split; [intros H; unfold getBestFormatUrl; now rewrite H|].
  split.
  { unfold getBestFormatUrl. fold (beforeQuery url).
    destruct (JS.includes "formats=" url); [|now left].
    destruct (JS.includes "M3U" url); [right; now left|].
    destruct (JS.includes "MPEG4" url); [right; now right|now left]. }
  split; [exact Hbase|]. split; [exact Hurl|].
  unfold getBestFormatUrl at 2. fold (beforeQuery url).
  destruct (JS.includes "formats=" url) eqn:Hf.
  2:{ unfold getBestFormatUrl. now rewrite Hf. }
  destruct (JS.includes "M3U" url) eqn:Hm.
  - assert (H0 : beforeQuery (beforeQuery url ++ "?formats=M3U+none,M3U+appleHlsEncryption")
                 = beforeQuery url)
      by (exact (beforeQuery_append _ "formats=M3U+none,M3U+appleHlsEncryption" Hbase)).
    assert (H1 : JS.includes "formats="
                   (beforeQuery url ++ "?formats=M3U+none,M3U+appleHlsEncryption") = true).
    { apply includes_iff. exists (beforeQuery url ++ "?")%string,
        "M3U+none,M3U+appleHlsEncryption"%string. now rewrite append_assoc. }
    assert (H2 : JS.includes "M3U"
                   (beforeQuery url ++ "?formats=M3U+none,M3U+appleHlsEncryption") = true).
    { apply includes_iff. exists (beforeQuery url ++ "?formats=")%string,
        "+none,M3U+appleHlsEncryption"%string. now rewrite append_assoc. }
    unfold getBestFormatUrl. rewrite H1, H2.
    change (hd ""%string
              (JS.split "?" (beforeQuery url ++ "?formats=M3U+none,M3U+appleHlsEncryption")))
      with (beforeQuery (beforeQuery url ++ "?formats=M3U+none,M3U+appleHlsEncryption")).
    rewrite H0, Hf, Hm. reflexivity.
  - destruct (JS.includes "MPEG4" url) eqn:Hg.
    2:{ unfold getBestFormatUrl. now rewrite Hf, Hm, Hg. }
    assert (H0 : beforeQuery (beforeQuery url ++ "?formats=MPEG4") = beforeQuery url)
      by (exact (beforeQuery_append _ "formats=MPEG4" Hbase)).
    assert (H1 : JS.includes "formats=" (beforeQuery url ++ "?formats=MPEG4") = true).
    { apply includes_iff. exists (beforeQuery url ++ "?")%string, "MPEG4"%string.
      now rewrite append_assoc. }
    assert (H2 : JS.includes "M3U" (beforeQuery url ++ "?formats=MPEG4") = false).
    { rewrite includes_M3U_tail.
      destruct (JS.includes "M3U" (beforeQuery url)) eqn:Hb; [|reflexivity].
      apply includes_iff in Hb.
      assert (Hocc : Occurs "M3U" url).
      { destruct Hurl as [Hu|[t Hu]]; rewrite Hu; [exact Hb|now apply Occurs_append_l]. }
      apply includes_iff in Hocc. congruence. }
    assert (H3 : JS.includes "MPEG4" (beforeQuery url ++ "?formats=MPEG4") = true).
    { apply includes_iff. exists (beforeQuery url ++ "?formats=")%string, ""%string.
      now rewrite append_assoc. }
    unfold getBestFormatUrl. rewrite H1, H2, H3.
    change (hd ""%string (JS.split "?" (beforeQuery url ++ "?formats=MPEG4")))
      with (beforeQuery (beforeQuery url ++ "?formats=MPEG4")).
    rewrite H0, Hf, Hm, Hg. reflexivity.
Qed.

End ServiceFacts.
